(** * oppy: the Tag Query Language (TQL) of the 1password browser

    A shallow embedding of [oppy/oplex.py], [opparser.py] and
    [oppy/opdb.py]: the tokenizer, the LALR parser that [ply.yacc] builds
    from the grammar of [OpTqlParser], the regular expressions of the
    leaves, and the [OpResponse] collections the evaluator works on.

    Strings are Rocq byte strings, so the development speaks about ASCII
    queries and ASCII field values.  A JSON number with a fraction or an
    exponent decodes to a Python float, whose equality and printing are
    those of IEEE doubles: such leaves are left out of the value model. *)

From Stdlib Require Import List String Ascii ZArith NArith Bool Arith Lia.
From Stdlib Require Import DecimalString DecimalN.
Import ListNotations.

Set Warnings "-register-all".
Local Open Scope string_scope.
Local Open Scope list_scope.

(** ** Python exceptions and results *)

Inductive token_value : Type :=
| IntVal (n : N)          (* a Python int, from [t_NUMBER] *)
| StrVal (s : string).    (* a Python str *)

Inductive exn : Type :=
| ParsingError (near : option token_value)
| KeyError (key : string)
| TypeError.

(** The result of a call: a value, an exception, or [Unmodelled] when the
    run leaves the fragment of Python, [ply] and [re] described here;
    [query_stays_in_the_model] shows that no query does. *)
Inductive outcome (A : Type) : Type :=
| Ok (a : A)
| Raise (e : exn)
| Unmodelled.
Arguments Ok {A} a.
Arguments Raise {A} e.
Arguments Unmodelled {A}.

(** ** Characters and strings *)

Definition dquote : ascii := "034"%char.
Definition newline : ascii := "010"%char.
Definition tab : ascii := "009"%char.

Definition between (lo hi c : ascii) : bool :=
  Nat.leb (nat_of_ascii lo) (nat_of_ascii c) && Nat.leb (nat_of_ascii c) (nat_of_ascii hi).

Definition is_digit (c : ascii) : bool := between "0" "9" c.
Definition is_lower (c : ascii) : bool := between "a" "z" c.
Definition is_upper (c : ascii) : bool := between "A" "Z" c.
Definition is_alpha (c : ascii) : bool := is_lower c || is_upper c.

Definition is_char (x c : ascii) : bool := Ascii.eqb x c.

(** [span p s]: the longest prefix of [s] whose characters satisfy [p]
    (a greedy [[...]+] of the lexer), and the rest. *)
Fixpoint span (p : ascii -> bool) (s : list ascii) : list ascii * list ascii :=
  match s with
  | [] => ([], [])
  | c :: rest =>
      if p c then let (run, tl) := span p rest in (c :: run, tl)
      else ([], s)
  end.

(** [int(t.value)] on a run of decimal digits. *)
Definition digit_value (c : ascii) : N :=
  N.of_nat (nat_of_ascii c - nat_of_ascii "0").

Definition int_of_digits (ds : list ascii) : N :=
  fold_left (fun acc c => (acc * 10 + digit_value c)%N) ds 0%N.

(** [str(value)] for the two kinds of literal a token carries. *)
Definition py_str (v : token_value) : string :=
  match v with
  | IntVal n => NilZero.string_of_uint (N.to_uint n)
  | StrVal s => s
  end.

(** [s.replace('*', '.*')]. *)
Fixpoint replace_star (s : string) : string :=
  match s with
  | EmptyString => EmptyString
  | String c rest =>
      if is_char "*" c then String "." (String "*" (replace_star rest))
      else String c (replace_star rest)
  end.

(** ** oplex.py: the tokenizer *)

Module OpTqlLexer.

Inductive token_type : Type :=
| NUMBER | STRING | NAME | EQUALS | AND | OR | LPAREN | RPAREN.

(** A [LexToken] of ply: its type and its value. *)
Record LexToken : Type := { type : token_type; value : token_value }.

Definition tok (t : token_type) (s : string) : LexToken :=
  {| type := t; value := StrVal s |}.

(** [t_NAME = r'[a-zA-Z\.]+'] *)
Definition name_char (c : ascii) : bool := is_alpha c || is_char "." c.

(** The body of [t_STRING]: [[a-zA-Z0-9\- \*:/\.]+] *)
Definition string_char (c : ascii) : bool :=
  is_alpha c || is_digit c || is_char "-" c || is_char " " c
  || is_char "*" c || is_char ":" c || is_char "/" c || is_char "." c.

(** [t_ignore = ' \t'] *)
Definition ignored (c : ascii) : bool := is_char " " c || is_char tab c.

(** One round of [Lexer.token()] at the current position of a non-empty
    input: the token produced there, if any, and how far [lexpos]
    advances.  The master expression of ply tries the function rules in
    the order of their definition ([t_NUMBER], [t_STRING], [t_newline]),
    then the string rules by decreasing length of their expression
    ([t_NAME], then the one-character tokens); a character that starts
    none of them goes to [t_error], which prints it and skips it. *)
Definition scan (c : ascii) (rest : list ascii) : option LexToken * nat :=
  if ignored c then (None, 1)
  else if is_digit c then
    let (ds, _) := span is_digit (c :: rest) in
    (Some {| type := NUMBER; value := IntVal (int_of_digits ds) |}, List.length ds)
  else if is_char dquote c then
    let (body, after) := span string_char rest in
    match body, after with
    | _ :: _, q :: _ =>
        if is_char dquote q
        then (Some (tok STRING (string_of_list_ascii body)), List.length body + 2)
        else (None, 1)
    | _, _ => (None, 1)
    end
  else if is_char newline c then
    let (nl, _) := span (is_char newline) (c :: rest) in (None, List.length nl)
  else if name_char c then
    let (cs, _) := span name_char (c :: rest) in
    (Some (tok NAME (string_of_list_ascii cs)), List.length cs)
  else if is_char "|" c then (Some (tok OR "|"), 1)
  else if is_char "(" c then (Some (tok LPAREN "("), 1)
  else if is_char ")" c then (Some (tok RPAREN ")"), 1)
  else if is_char "&" c then (Some (tok AND "&"), 1)
  else if is_char "=" c then (Some (tok EQUALS "="), 1)
  else (None, 1).

(** The token stream of an input.  [skip] is the distance from the
    character under the head to [lexpos]: characters a previous match
    consumed are passed over. *)
Fixpoint tokens_from (s : list ascii) (skip : nat) : list LexToken :=
  match s with
  | [] => []
  | c :: rest =>
      match skip with
      | S k => tokens_from rest k
      | O =>
          match scan c rest with
          | (Some t, n) => t :: tokens_from rest (pred n)
          | (None, n) => tokens_from rest (pred n)
          end
      end
  end.

Definition tokens (input : string) : list LexToken :=
  tokens_from (list_ascii_of_string input) 0.

End OpTqlLexer.

(** ** opparser.py: the syntax tree *)

Inductive expr : Type :=
| OpFilter (name : string) (value : string)
| OpFuzzy (value : string)
| OpUnionOperator (left_expression right_expression : expr)
| OpIntersectionOperator (left_expression right_expression : expr).

(** [OpTqlAst.expression] is [None] unless the constructor is given one. *)
Record OpTqlAst : Type := { expression : option expr }.

(** ['^' + str(value).replace('*', '.*') + '$'] *)
Definition anchored (v : token_value) : string :=
  "^" ++ replace_star (py_str v) ++ "$".

(** [OpFilter.__init__] and [OpFuzzy.__init__]. *)
Definition new_OpFilter (name : string) (v : token_value) : expr :=
  OpFilter name (anchored v).

Definition new_OpFuzzy (v : token_value) : expr :=
  OpFuzzy (anchored v).

(** ** opparser.py: the parser

    [OpTqlParser] hands its grammar to [ply.yacc], which builds an LALR(1)
    automaton from the docstrings of the [p_*] methods and from
    [precedence], and runs it.  The automaton is written out below; each
    state is named after the symbols that lead to it. *)

Module OpTqlParser.
Import OpTqlLexer.

Inductive nonterminal : Type := input | expression_.

(** One production per alternative of the docstrings. *)
Inductive production : Type :=
| input_expr                 (* p_input:       input : expr *)
| expr_STRING                (* p_expr_fuzzy:  expr : STRING *)
| expr_NAME                  (*                     | NAME *)
| expr_NUMBER                (*                     | NUMBER *)
| expr_NAME_EQUALS_STRING    (* p_expr_pair:   expr : NAME EQUALS STRING *)
| expr_NAME_EQUALS_NUMBER    (*                     | NAME EQUALS NUMBER *)
| expr_LPAREN_expr_RPAREN    (* p_expr_par:    expr : LPAREN expr RPAREN *)
| expr_expr_OR_expr          (* p_expr_binary: expr : expr OR expr *)
| expr_expr_AND_expr.        (*                     | expr AND expr *)

Definition lhs (p : production) : nonterminal :=
  match p with input_expr => input | _ => expression_ end.

Definition rhs_length (p : production) : nat :=
  match p with
  | input_expr | expr_STRING | expr_NAME | expr_NUMBER => 1
  | _ => 3
  end.

(** What the symbol stack holds: the value of a token, or the [p[0]] of
    a reduced production. *)
Inductive symval : Type :=
| TokenVal (v : token_value)
| ExprVal (e : expr)
| AstVal (a : OpTqlAst).

(** The [p_*] methods.  The argument is the slice [p[1:]]; the result is
    [p[0]], and [None] stands for values of a shape the automaton never
    passes to the method. *)
Definition p_input (p : list symval) : option symval :=
  match p with
  | [] => Some (AstVal {| expression := None |})          (* len(p) == 1 *)
  | [ExprVal e] => Some (AstVal {| expression := Some e |})
  | _ => None
  end.

Definition p_expr_fuzzy (p : list symval) : option symval :=
  match p with
  | [TokenVal v] => Some (ExprVal (new_OpFuzzy v))
  | _ => None
  end.

Definition p_expr_pair (p : list symval) : option symval :=
  match p with
  | [TokenVal (StrVal name); _; TokenVal v] => Some (ExprVal (new_OpFilter name v))
  | _ => None
  end.

Definition p_expr_par (p : list symval) : option symval :=
  match p with
  | [_; ExprVal e; _] => Some (ExprVal e)
  | _ => None
  end.

Definition p_expr_binary (p : list symval) : option symval :=
  match p with
  | [ExprVal l; TokenVal (StrVal op); ExprVal r] =>
      if String.eqb op "|" then Some (ExprVal (OpUnionOperator l r))
      else if String.eqb op "&" then Some (ExprVal (OpIntersectionOperator l r))
      else None
  | _ => None
  end.

Definition callable (p : production) : list symval -> option symval :=
  match p with
  | input_expr => p_input
  | expr_STRING | expr_NAME | expr_NUMBER => p_expr_fuzzy
  | expr_NAME_EQUALS_STRING | expr_NAME_EQUALS_NUMBER => p_expr_pair
  | expr_LPAREN_expr_RPAREN => p_expr_par
  | expr_expr_OR_expr | expr_expr_AND_expr => p_expr_binary
  end.

(** States of the automaton, with their items. *)
Inductive state : Type :=
| q0                        (* S' : . input  and every  expr : . alpha *)
| q_input                   (* S' : input . *)
| q_expr                    (* input : expr .   expr : expr . OR expr   expr : expr . AND expr *)
| q_STRING                  (* expr : STRING . *)
| q_NAME                    (* expr : NAME .    expr : NAME . EQUALS STRING|NUMBER *)
| q_NUMBER                  (* expr : NUMBER . *)
| q_LPAREN                  (* expr : LPAREN . expr RPAREN *)
| q_expr_OR                 (* expr : expr OR . expr *)
| q_expr_AND                (* expr : expr AND . expr *)
| q_NAME_EQUALS             (* expr : NAME EQUALS . STRING|NUMBER *)
| q_LPAREN_expr             (* expr : LPAREN expr . RPAREN   expr : expr . OR|AND expr *)
| q_expr_OR_expr            (* expr : expr OR expr .         expr : expr . OR|AND expr *)
| q_expr_AND_expr           (* expr : expr AND expr .        expr : expr . OR|AND expr *)
| q_NAME_EQUALS_STRING      (* expr : NAME EQUALS STRING . *)
| q_NAME_EQUALS_NUMBER      (* expr : NAME EQUALS NUMBER . *)
| q_LPAREN_expr_RPAREN.     (* expr : LPAREN expr RPAREN . *)

Inductive action : Type :=
| shift (q : state)
| reduce (p : production)
| accept
| error.

(** [precedence = (('left', 'OR', 'AND'),)]: one level, holding both
    operators. *)
Inductive assoc : Type := Left | Right | Nonassoc.

Definition token_type_eqb (a b : token_type) : bool :=
  match a, b with
  | NUMBER, NUMBER | STRING, STRING | NAME, NAME | EQUALS, EQUALS
  | AND, AND | OR, OR | LPAREN, LPAREN | RPAREN, RPAREN => true
  | _, _ => false
  end.

Definition precedence : list (assoc * list token_type) := [(Left, [OR; AND])].

(** The association and level of a terminal: levels count from 1 in the
    order of [precedence]; a terminal that is not listed has
    [('right', 0)]. *)
Fixpoint prec_from (level : nat) (table : list (assoc * list token_type))
  (t : token_type) : assoc * nat :=
  match table with
  | [] => (Right, 0)
  | (a, ts) :: more =>
      if existsb (token_type_eqb t) ts then (a, level)
      else prec_from (S level) more t
  end.

Definition prec (t : token_type) : assoc * nat := prec_from 1 precedence t.

(** How yacc settles a shift/reduce conflict between shifting the
    terminal [la] and reducing a production whose last terminal is
    [rule]: shift when [la] binds tighter, or as tight and the rule is
    right-associative; reduce otherwise. *)
Definition resolve (rule la : token_type) (sh : state) (rd : production) : action :=
  let (rprec, rlevel) := prec rule in
  let (_, slevel) := prec la in
  if (rlevel <? slevel)%nat then shift sh
  else if (slevel =? rlevel)%nat then
    match rprec with
    | Right => shift sh
    | Nonassoc => error
    | Left => reduce rd
    end
  else reduce rd.

(** The lookahead is a token type, or [None] for the end marker. *)
Definition starts_expr (la : option token_type) : action :=
  match la with
  | Some STRING => shift q_STRING
  | Some NAME => shift q_NAME
  | Some NUMBER => shift q_NUMBER
  | Some LPAREN => shift q_LPAREN
  | _ => error
  end.

Definition ends_expr (p : production) (la : option token_type) : action :=
  match la with
  | None | Some OR | Some AND | Some RPAREN => reduce p
  | _ => error
  end.

Definition lr_action (q : state) (la : option token_type) : action :=
  match q with
  | q0 | q_LPAREN | q_expr_OR | q_expr_AND => starts_expr la
  | q_input => match la with None => accept | _ => error end
  | q_expr =>
      match la with
      | None => reduce input_expr
      | Some OR => shift q_expr_OR
      | Some AND => shift q_expr_AND
      | _ => error
      end
  | q_STRING => ends_expr expr_STRING la
  | q_NAME =>
      match la with
      | Some EQUALS => shift q_NAME_EQUALS
      | _ => ends_expr expr_NAME la
      end
  | q_NUMBER => ends_expr expr_NUMBER la
  | q_NAME_EQUALS =>
      match la with
      | Some STRING => shift q_NAME_EQUALS_STRING
      | Some NUMBER => shift q_NAME_EQUALS_NUMBER
      | _ => error
      end
  | q_LPAREN_expr =>
      match la with
      | Some RPAREN => shift q_LPAREN_expr_RPAREN
      | Some OR => shift q_expr_OR
      | Some AND => shift q_expr_AND
      | _ => error
      end
  | q_expr_OR_expr =>
      match la with
      | Some OR => resolve OR OR q_expr_OR expr_expr_OR_expr
      | Some AND => resolve OR AND q_expr_AND expr_expr_OR_expr
      | _ => ends_expr expr_expr_OR_expr la
      end
  | q_expr_AND_expr =>
      match la with
      | Some OR => resolve AND OR q_expr_OR expr_expr_AND_expr
      | Some AND => resolve AND AND q_expr_AND expr_expr_AND_expr
      | _ => ends_expr expr_expr_AND_expr la
      end
  | q_NAME_EQUALS_STRING => ends_expr expr_NAME_EQUALS_STRING la
  | q_NAME_EQUALS_NUMBER => ends_expr expr_NAME_EQUALS_NUMBER la
  | q_LPAREN_expr_RPAREN => ends_expr expr_LPAREN_expr_RPAREN la
  end.

Definition lr_goto (q : state) (n : nonterminal) : option state :=
  match q, n with
  | q0, input => Some q_input
  | q0, expression_ => Some q_expr
  | q_LPAREN, expression_ => Some q_LPAREN_expr
  | q_expr_OR, expression_ => Some q_expr_OR_expr
  | q_expr_AND, expression_ => Some q_expr_AND_expr
  | _, _ => None
  end.

(** The state stack and the symbol stack, zipped, top first; state [q0]
    lies under the bottom entry. *)
Definition stack : Type := list (state * symval).

Definition current (st : stack) : state :=
  match st with
  | [] => q0
  | (q, _) :: _ => q
  end.

(** A reduction: pop the right-hand side, call the method, push the
    result under the state [goto] gives. *)
Definition reduction (p : production) (st : stack) : option stack :=
  let n := rhs_length p in
  if (n <=? List.length st)%nat then
    let below := skipn n st in
    match callable p (rev (map snd (firstn n st))), lr_goto (current below) (lhs p) with
    | Some v, Some q => Some ((q, v) :: below)
    | _, _ => None
    end
  else None.

(** All the reductions the lookahead [la] triggers, up to the first
    action that is not one.  At most three follow each other: of a leaf
    or a parenthesis, then of a binary operator, then of the input; the
    fourth round finds the shift, the end, or the error. *)
Fixpoint reductions (rounds : nat) (st : stack) (la : option token_type)
  : option (action * stack) :=
  match rounds with
  | O => None
  | S rounds' =>
      match lr_action (current st) la with
      | reduce p =>
          match reduction p st with
          | Some st' => reductions rounds' st' la
          | None => None
          end
      | a => Some (a, st)
      end
  end.

Definition settle (st : stack) (la : option token_type) : option (action * stack) :=
  reductions 4 st la.

(** The parsing loop: for each token, reduce as the token commands, then
    shift it; at the end of the input, reduce and accept.  A token (or
    the end of the input) with no action goes to [p_error], which raises
    [ParsingError].  The result is [Unmodelled] only if the stack
    leaves the shapes the tables maintain. *)
Fixpoint parse_loop (toks : list LexToken) (st : stack) : outcome OpTqlAst :=
  match toks with
  | [] =>
      match settle st None with
      | Some (accept, (_, AstVal ast) :: _) => Ok ast
      | Some (error, _) => Raise (ParsingError None)
      | _ => Unmodelled
      end
  | t :: rest =>
      match settle st (Some (type t)) with
      | Some (shift q, st') => parse_loop rest ((q, TokenVal (value t)) :: st')
      | Some (error, _) => Raise (ParsingError (Some (value t)))
      | _ => Unmodelled
      end
  end.

(** [OpTqlParser(_input).parse()] *)
Definition parse (_input : string) : outcome OpTqlAst :=
  parse_loop (tokens _input) [].

End OpTqlParser.

(** ** The fragment of Python's [re] the leaves use

    [anchored] builds its pattern from [^], [$], [.], [*] and characters
    that stand for themselves.  A pattern is a sequence of pieces: an atom,
    or an atom under a star. *)

Module re.

Inductive atom : Type :=
| Lit (c : ascii)     (* the character itself *)
| Dot                 (* any character but a newline *)
| Caret               (* the start of the string *)
| Dollar.             (* the end of the string, or just before a final newline *)

Inductive piece : Type :=
| One (a : atom)
| Many (a : atom).    (* a* *)

Definition special (c : ascii) : bool :=
  existsb (is_char c)
    ["\"; "+"; "?"; "{"; "}"; "["; "]"; "("; ")"; "|"]%char.

Definition atom_of (c : ascii) : atom :=
  if is_char "." c then Dot
  else if is_char "^" c then Caret
  else if is_char "$" c then Dollar
  else Lit c.

Definition repeatable (a : atom) : bool :=
  match a with Lit _ | Dot => true | _ => false end.

(** [None] for a pattern outside the fragment, and for the patterns [re]
    rejects in it (a star with nothing to repeat). *)
Fixpoint compile (pattern : list ascii) : option (list piece) :=
  match pattern with
  | [] => Some []
  | c :: rest =>
      if special c || is_char "*" c then None
      else
        let a := atom_of c in
        match rest with
        | star :: rest' =>
            if is_char "*" star then
              if repeatable a
              then option_map (cons (Many a)) (compile rest')
              else None
            else option_map (cons (One a)) (compile rest)
        | [] => Some [One a]
        end
  end.

(** ASCII case folding, for [re.IGNORECASE]. *)
Definition lower (c : ascii) : ascii :=
  if is_upper c then ascii_of_nat (nat_of_ascii c + 32) else c.

Definition same_char (ignorecase : bool) (a b : ascii) : bool :=
  if ignorecase then Ascii.eqb (lower a) (lower b) else Ascii.eqb a b.

(** An atom that consumes the character [c]. *)
Definition takes (ignorecase : bool) (a : atom) (c : ascii) : bool :=
  match a with
  | Lit l => same_char ignorecase l c
  | Dot => negb (is_char newline c)
  | Caret | Dollar => false
  end.

Definition at_end (s : list ascii) : bool :=
  match s with
  | [] => true
  | [c] => is_char newline c
  | _ => false
  end.

(** Does the pattern match a prefix of [s]?  [start] tells whether the
    position is the start of the string. *)
Fixpoint matches (ignorecase : bool) (ps : list piece) (start : bool)
  (s : list ascii) : bool :=
  match ps with
  | [] => true
  | One Caret :: ps' => start && matches ignorecase ps' start s
  | One Dollar :: ps' => at_end s && matches ignorecase ps' start s
  | One a :: ps' =>
      match s with
      | c :: s' => takes ignorecase a c && matches ignorecase ps' false s'
      | [] => false
      end
  | Many a :: ps' =>
      (fix star (start : bool) (s : list ascii) : bool :=
         matches ignorecase ps' start s
         || match s with
            | c :: s' => takes ignorecase a c && star false s'
            | [] => false
            end) start s
  end.

(** [re.match(pattern, string, flags) is not None] *)
Definition match_ (pattern string_ : string) (ignorecase : bool) : outcome bool :=
  match compile (list_ascii_of_string pattern) with
  | Some ps => Ok (matches ignorecase ps true (list_ascii_of_string string_))
  | None => Unmodelled
  end.

End re.

(** ** Records: the decoded JSON of a vault entry *)

Inductive value : Type :=
| VNone
| VBool (b : bool)
| VInt (z : Z)
| VStr (s : string)
| VList (elems : list value)
| VDict (items : list (string * value)).   (* in insertion order *)

(** A record is a dict.  No statement of [opdb.py] assigns into a record,
    so a record is the value of its items. *)
Definition record : Type := list (string * value).

(** [d[key]] on the items of a dict. *)
Fixpoint dict_get (key : string) (items : list (string * value)) : option value :=
  match items with
  | [] => None
  | (k, v) :: more => if String.eqb k key then Some v else dict_get key more
  end.

(** Python's [==] on decoded JSON.  [bool] is a subclass of [int], so
    [True == 1]; lists compare element by element; two dicts are equal when
    they have as many keys and every key of the first is bound in the
    second to an equal value, whatever the order of insertion. *)
Fixpoint py_eq (a b : value) : bool :=
  match a, b with
  | VNone, VNone => true
  | VBool x, VBool y => Bool.eqb x y
  | VBool x, VInt y => (Z.b2z x =? y)%Z
  | VInt x, VBool y => (x =? Z.b2z y)%Z
  | VInt x, VInt y => (x =? y)%Z
  | VStr x, VStr y => String.eqb x y
  | VList xs, VList ys =>
      (fix each (xs ys : list value) : bool :=
         match xs, ys with
         | [], [] => true
         | x :: xs', y :: ys' => py_eq x y && each xs' ys'
         | _, _ => false
         end) xs ys
  | VDict xs, VDict ys =>
      (List.length xs =? List.length ys)%nat
      && (fix each (xs : list (string * value)) : bool :=
            match xs with
            | [] => true
            | (k, x) :: xs' =>
                match dict_get k ys with
                | Some y => py_eq x y
                | None => false
                end && each xs'
            end) xs
  | _, _ => false
  end.

Definition record_eq (a b : record) : bool := py_eq (VDict a) (VDict b).

(** [obj in objs] on a list: some element equals [obj].  Which operand
    comes first makes no difference on Python values ([py_eq_sym]). *)
Definition py_in (obj : record) (objs : list record) : bool :=
  existsb (fun item => record_eq item obj) objs.

(** [obj.copy()]: a new dict with the same items. *)
Definition dict_copy (obj : record) : record := obj.

(** [obj.values()] *)
Definition dict_values (obj : record) : list value := map snd obj.

(** The keys of a Python dict are pairwise distinct, at every depth. *)
Fixpoint unique_keys (keys : list string) : bool :=
  match keys with
  | [] => true
  | k :: more => negb (existsb (String.eqb k) more) && unique_keys more
  end.

Fixpoint well_formed (v : value) : bool :=
  match v with
  | VList elems =>
      (fix all (l : list value) : bool :=
         match l with [] => true | x :: l' => well_formed x && all l' end) elems
  | VDict items =>
      unique_keys (map fst items)
      && (fix all (l : list (string * value)) : bool :=
            match l with [] => true | (_, x) :: l' => well_formed x && all l' end) items
  | _ => true
  end.

Definition well_formed_record (obj : record) : bool := well_formed (VDict obj).

(** [str.split(sep)] for a one-character separator. *)
Fixpoint str_split (sep : ascii) (s : string) : list string :=
  match s with
  | EmptyString => [EmptyString]
  | String c rest =>
      if Ascii.eqb c sep then EmptyString :: str_split sep rest
      else
        match str_split sep rest with
        | first :: more => String c first :: more
        | [] => [String c EmptyString]
        end
  end.

(** [d[key]] for a string key: a dict looks the key up; a list or a string
    wants an integer index, and the other values have no subscript. *)
Definition subscript (d : value) (key : string) : outcome value :=
  match d with
  | VDict items =>
      match dict_get key items with
      | Some v => Ok v
      | None => Raise (KeyError key)
      end
  | _ => Raise TypeError
  end.

(** The values [_find_value] hands to its comparison function: those
    with [isinstance(val, (int, float, str))]. *)
Inductive scalar : Type :=
| SBool (b : bool)
| SInt (z : Z)
| SStr (s : string).

(** ['{}'.format(value)] *)
Definition format (v : scalar) : string :=
  match v with
  | SBool true => "True"
  | SBool false => "False"
  | SInt z => NilZero.string_of_int (Z.to_int z)
  | SStr s => s
  end.

(** [OpFilter.match]: the field value goes to [re.match] as it is, and
    [re.match] accepts a string only. *)
Definition OpFilter_match (self_value : string) (v : value) : outcome bool :=
  match v with
  | VNone => Ok false          (* self.value is None: never *)
  | VStr s => re.match_ self_value s false
  | _ => Raise TypeError
  end.

(** [OpFuzzy.match]: the value is formatted first, and the match ignores
    case. *)
Definition OpFuzzy_match (self_value : string) (v : scalar) : outcome bool :=
  re.match_ self_value (format v) true.

(** ** The store

    An [OpResponse] is a Python object holding a list, [_objects], that
    [add] appends to in place.  The store maps the address of each
    [OpResponse] to its list; a method is a computation over the store
    that returns a value or raises. *)

Definition ref : Type := nat.
Definition heap : Type := list (list record).

Definition M (A : Type) : Type := heap -> outcome A * heap.

Definition ret {A : Type} (a : A) : M A := fun h => (Ok a, h).

Definition lift {A : Type} (o : outcome A) : M A := fun h => (o, h).

Definition bind {A B : Type} (m : M A) (k : A -> M B) : M B :=
  fun h =>
    match m h with
    | (Ok a, h') => k a h'
    | (Raise e, h') => (Raise e, h')
    | (Unmodelled, h') => (Unmodelled, h')
    end.

Declare Scope py_scope.
Delimit Scope py_scope with py.
Notation "x <- m ;; k" := (bind m (fun x => k))
  (at level 61, m at next level, right associativity) : py_scope.
Notation "m ;; k" := (bind m (fun _ => k))
  (at level 61, right associativity) : py_scope.
Local Open Scope py_scope.

(** A new object, at the first free address. *)
Definition alloc (objs : list record) : M ref :=
  fun h => (Ok (List.length h), h ++ [objs]).

Definition load (r : ref) : M (list record) :=
  fun h =>
    match nth_error h r with
    | Some objs => (Ok objs, h)
    | None => (Unmodelled, h)
    end.

Fixpoint update (r : ref) (objs : list record) (h : heap) : heap :=
  match h, r with
  | [], _ => []
  | _ :: h', O => objs :: h'
  | x :: h', S r' => x :: update r' objs h'
  end.

Definition store (r : ref) (objs : list record) : M unit :=
  fun h =>
    if (r <? List.length h)%nat then (Ok tt, update r objs h)
    else (Unmodelled, h).

(** [for x in l: body(x)], over the list as it stands when the loop
    starts.  A Python loop reads the list as it goes; the loops below
    append to the response they have just allocated and to nothing else
    ([for_each_collect], [local_for_each]), so the list under the loop
    stays as it was. *)
Fixpoint for_each {A : Type} (l : list A) (body : A -> M unit) : M unit :=
  match l with
  | [] => ret tt
  | x :: l' => body x ;; for_each l' body
  end.

(** ** opdb.py: OpResponse *)

Module OpResponse.

(** What [OpResponse(copy_from)] is given: a list, as decoded from
    JSON, or another [OpResponse]. *)
Inductive iterable : Type :=
| PyList (l : list record)
| Response (r : ref).

Definition iter (it : iterable) : M (list record) :=
  match it with
  | PyList l => ret l
  | Response r => load r
  end.

(** [self._objects = [] if copy_from is None else [obj for obj in copy_from]] *)
Definition __init__ (copy_from : option iterable) : M ref :=
  match copy_from with
  | None => alloc []
  | Some source => objs <- iter source ;; alloc objs
  end.

Definition __iter__ (self : ref) : M (list record) := load self.

Definition __contains__ (self : ref) (obj : record) : M bool :=
  objs <- load self ;; ret (py_in obj objs).

Definition __len__ (self : ref) : M nat :=
  objs <- load self ;; ret (List.length objs).

Definition add (self : ref) (obj : record) : M unit :=
  objs <- load self ;;
  if negb (py_in obj objs) then store self (objs ++ [obj]) else ret tt.

Definition __and__ (self other : ref) : M ref :=
  response <- __init__ None ;;
  objs <- __iter__ self ;;
  for_each objs (fun obj =>
    found <- __contains__ other obj ;;
    if found then add response (dict_copy obj) else ret tt) ;;
  ret response.

Definition __or__ (self other : ref) : M ref :=
  response <- __init__ None ;;
  objs <- __iter__ other ;;
  for_each objs (fun obj =>
    found <- __contains__ self obj ;;
    add response (if found then dict_copy obj else obj)) ;;
  objs <- __iter__ self ;;
  for_each objs (fun obj =>
    found <- __contains__ response obj ;;
    if negb found then add response obj else ret tt) ;;
  ret response.

Definition copy (self : ref) : M ref := __init__ (Some (Response self)).

(** [d = obj; for key in tag.split('.'): d = d[key]] *)
Fixpoint walk (d : value) (keys : list string) : outcome value :=
  match keys with
  | [] => Ok d
  | key :: more =>
      match subscript d key with
      | Ok d' => walk d' more
      | other => other
      end
  end.

Definition _find_value_by_key (obj : record) (tag : string) : outcome value :=
  walk (VDict obj) (str_split "." tag).

(** The test [_find_value] makes of one [val] of its loop. *)
Fixpoint _find_value_in (cmp_func : scalar -> outcome bool) (val : value)
  : outcome bool :=
  match val with
  | VBool b => cmp_func (SBool b)
  | VInt z => cmp_func (SInt z)
  | VStr s => cmp_func (SStr s)
  | VDict items =>
      (fix loop (items : list (string * value)) : outcome bool :=
         match items with
         | [] => Ok false
         | (_, v) :: more =>
             match _find_value_in cmp_func v with
             | Ok false => loop more
             | other => other
             end
         end) items
  | VList elems =>
      (fix loop (elems : list value) : outcome bool :=
         match elems with
         | [] => Ok false
         | v :: more =>
             match _find_value_in cmp_func v with
             | Ok false => loop more
             | other => other
             end
         end) elems
  | VNone => Ok false
  end.

Fixpoint _find_value (obj_values : list value) (cmp_func : scalar -> outcome bool)
  : outcome bool :=
  match obj_values with
  | [] => Ok false
  | val :: more =>
      match _find_value_in cmp_func val with
      | Ok false => _find_value more cmp_func
      | other => other
      end
  end.

Definition filter (self : ref) (tag : string) (cmp_func : value -> outcome bool)
  : M ref :=
  matching <- __init__ None ;;
  objs <- __iter__ self ;;
  for_each objs (fun obj =>
    match _find_value_by_key obj tag with
    | Raise (KeyError _) => ret tt                       (* continue *)
    | Ok tag_value =>
        hit <- lift (cmp_func tag_value) ;;
        if hit then add matching obj else ret tt
    | Raise e => lift (Raise e)
    | Unmodelled => lift Unmodelled
    end) ;;
  ret matching.

Definition fuzzy (self : ref) (cmp_func : scalar -> outcome bool) : M ref :=
  matching <- __init__ None ;;
  objs <- __iter__ self ;;
  for_each objs (fun obj =>
    hit <- lift (_find_value (dict_values obj) cmp_func) ;;
    if hit then add matching obj else ret tt) ;;
  ret matching.

End OpResponse.

(** ** opdb.py: OpDatabase *)

Module OpDatabase.

Record t : Type := { _objects : OpResponse.iterable }.

(** [_evaluate_expression] on an expression node, with
    [_evaluate_filter], [_evaluate_fuzzy], [_evaluate_union] and
    [_evaluate_intersection] in place. *)
Fixpoint evaluate (objects : ref) (e : expr) : M ref :=
  match e with
  | OpFilter name value =>
      OpResponse.filter objects name (OpFilter_match value)
  | OpFuzzy value =>
      OpResponse.fuzzy objects (OpFuzzy_match value)
  | OpUnionOperator l r =>
      left <- evaluate objects l ;;
      right <- evaluate objects r ;;
      OpResponse.__or__ left right
  | OpIntersectionOperator l r =>
      left <- evaluate objects l ;;
      right <- evaluate objects r ;;
      OpResponse.__and__ left right
  end.

(** [_evaluate_expression]: the chain of [isinstance] tests has no
    [else], so an [expression] that is [None] falls through and the
    method returns [None]. *)
Definition _evaluate_expression (objects : ref) (expression : option expr)
  : M (option ref) :=
  match expression with
  | Some e => r <- evaluate objects e ;; ret (Some r)
  | None => ret None
  end.

Definition _evaluate_ast (self : t) (ast : OpTqlAst) : M (option ref) :=
  objects <- OpResponse.__init__ (Some (_objects self)) ;;
  _evaluate_expression objects (expression ast).

(** [raw_query(tql)] for [tql] a string or [None]. *)
Definition raw_query (self : t) (tql : option string) : M (option ref) :=
  match tql with
  | Some text =>
      ast <- lift (OpTqlParser.parse text) ;;
      _evaluate_ast self ast
  | None =>
      r <- OpResponse.__init__ (Some (_objects self)) ;; ret (Some r)
  end.

End OpDatabase.

(** What a caller sees of a query over the records [objs]:
    [list(OpDatabase(OpResponse(objs)).raw_query(tql))]; [list(None)] is
    a [TypeError]. *)
Definition query (objs : list record) (tql : option string) : outcome (list record) :=
  let run :=
    items <- OpResponse.__init__ (Some (OpResponse.PyList objs)) ;;
    result <- OpDatabase.raw_query
                {| OpDatabase._objects := OpResponse.Response items |} tql ;;
    match result with
    | Some r => OpResponse.__iter__ r
    | None => lift (Raise TypeError)
    end in
  fst (run []).

(** ** Chains of leaves, to state how operators group

    A query without parentheses is a leaf followed by operators and
    leaves. *)

Module Chain.
Import OpTqlLexer.

Inductive leaf : Type :=
| bare_STRING (s : string)                        (* "s" *)
| bare_NAME (s : string)                          (* s *)
| bare_NUMBER (n : N)                             (* n *)
| pair_STRING (name : string) (s : string)        (* name="s" *)
| pair_NUMBER (name : string) (n : N).            (* name=n *)

Definition number (n : N) : LexToken := {| type := NUMBER; value := IntVal n |}.

Definition leaf_tokens (l : leaf) : list LexToken :=
  match l with
  | bare_STRING s => [tok STRING s]
  | bare_NAME s => [tok NAME s]
  | bare_NUMBER n => [number n]
  | pair_STRING name s => [tok NAME name; tok EQUALS "="; tok STRING s]
  | pair_NUMBER name n => [tok NAME name; tok EQUALS "="; number n]
  end.

Definition leaf_expr (l : leaf) : expr :=
  match l with
  | bare_STRING s | bare_NAME s => new_OpFuzzy (StrVal s)
  | bare_NUMBER n => new_OpFuzzy (IntVal n)
  | pair_STRING name s => new_OpFilter name (StrVal s)
  | pair_NUMBER name n => new_OpFilter name (IntVal n)
  end.

Inductive operator : Type := or_ | and_.

Definition operator_token (op : operator) : LexToken :=
  match op with
  | or_ => tok OR "|"
  | and_ => tok AND "&"
  end.

Definition node (op : operator) (l r : expr) : expr :=
  match op with
  | or_ => OpUnionOperator l r
  | and_ => OpIntersectionOperator l r
  end.

Definition tail_tokens (more : list (operator * leaf)) : list LexToken :=
  flat_map (fun ol => operator_token (fst ol) :: leaf_tokens (snd ol)) more.

(** The tokens of [first op1 leaf1 op2 leaf2 ...]. *)
Definition chain_tokens (first : leaf) (more : list (operator * leaf))
  : list LexToken :=
  leaf_tokens first ++ tail_tokens more.

(** The tree that groups the chain from the left:
    [((first op1 leaf1) op2 leaf2) ...]. *)
Definition group_left (acc : expr) (more : list (operator * leaf)) : expr :=
  fold_left (fun acc ol => node (fst ol) acc (leaf_expr (snd ol))) more acc.

End Chain.

(** ** The matching the specification describes for a leaf

    Written from the words of the specification, to compare the patterns
    of [anchored] with: each [*] of the literal stands for any sequence of
    characters, every other character for itself, and the literal has to
    account for the whole target.  [ignorecase] is set for fuzzy leaves. *)

Module Spec.

Fixpoint whole_match (ignorecase : bool) (literal : string) (target : list ascii)
  : bool :=
  match literal with
  | EmptyString => match target with [] => true | _ :: _ => false end
  | String c literal' =>
      if is_char "*" c then
        (fix any (t : list ascii) : bool :=
           whole_match ignorecase literal' t
           || match t with
              | _ :: t' => any t'
              | [] => false
              end) target
      else
        match target with
        | x :: target' =>
            re.same_char ignorecase c x && whole_match ignorecase literal' target'
        | [] => false
        end
  end.

(** The characters of a literal other than the dot: those of [t_STRING],
    which include those of [t_NAME] and of [t_NUMBER]. *)
Definition plain (c : ascii) : bool :=
  OpTqlLexer.string_char c && negb (is_char "." c).

Definition all_chars (p : ascii -> bool) (s : string) : bool :=
  forallb p (list_ascii_of_string s).

Definition one_line (s : string) : bool :=
  all_chars (fun c => negb (is_char newline c)) s.

End Spec.

(** ** The loops of OpResponse, as functions on lists

    Each method of [OpResponse] that builds a collection allocates a new
    response and adds to it, record by record.  [collect] is that loop on
    the list the new response holds: [step] tells, from the list built so
    far and the record under the loop, whether the body adds a record,
    passes, or raises. *)

Definition add_to (acc : list record) (obj : record) : list record :=
  if py_in obj acc then acc else acc ++ [obj].

Fixpoint collect (step : list record -> record -> outcome (option record))
  (objs acc : list record) : outcome unit * list record :=
  match objs with
  | [] => (Ok tt, acc)
  | obj :: more =>
      match step acc obj with
      | Ok (Some x) => collect step more (add_to acc x)
      | Ok None => collect step more acc
      | Raise e => (Raise e, acc)
      | Unmodelled => (Unmodelled, acc)
      end
  end.

(** The decision of the body of [filter] and of [fuzzy]. *)
Definition filter_step (tag : string) (cmp_func : value -> outcome bool)
  (obj : record) : outcome (option record) :=
  match OpResponse._find_value_by_key obj tag with
  | Raise (KeyError _) => Ok None
  | Ok tag_value =>
      match cmp_func tag_value with
      | Ok hit => Ok (if hit then Some obj else None)
      | Raise e => Raise e
      | Unmodelled => Unmodelled
      end
  | Raise e => Raise e
  | Unmodelled => Unmodelled
  end.

Definition fuzzy_step (cmp_func : scalar -> outcome bool) (obj : record)
  : outcome (option record) :=
  match OpResponse._find_value (dict_values obj) cmp_func with
  | Ok hit => Ok (if hit then Some obj else None)
  | Raise e => Raise e
  | Unmodelled => Unmodelled
  end.

(** ** The uniqueness invariant

    No two records of a collection are equal, in either order of the
    operands of [==]. *)

Definition differ (a b : record) : bool :=
  negb (record_eq a b) && negb (record_eq b a).

Fixpoint unique (objs : list record) : bool :=
  match objs with
  | [] => true
  | x :: more => forallb (differ x) more && unique more
  end.

(** The same, by position. *)
Definition duplicate_free (objs : list record) : Prop :=
  forall i j a b,
    i <> j -> nth_error objs i = Some a -> nth_error objs j = Some b ->
    record_eq a b = false.

Definition well_formed_records (objs : list record) : bool :=
  forallb well_formed_record objs.

Definition well_formed_heap (h : heap) : bool :=
  forallb well_formed_records h.

(** [m] run on a store that ends with a new response touches that
    response only, and its result satisfies [Q]. *)
Definition local {A : Type} (h : heap) (Q : A -> Prop) (m : M A) : Prop :=
  forall acc, exists o acc',
    m (h ++ [acc]) = (o, h ++ [acc']) /\ forall a, o = Ok a -> Q a.

(** The pieces [re.compile] makes of the pattern of a literal. *)
Fixpoint pieces (literal : string) : list re.piece :=
  match literal with
  | EmptyString => []
  | String c rest =>
      (if is_char "*" c then re.Many re.Dot else re.One (re.atom_of c)) :: pieces rest
  end.

(** Named forms of the two inner loops of [py_eq]. *)
Fixpoint list_eq (xs ys : list value) : bool :=
  match xs, ys with
  | [], [] => true
  | x :: xs', y :: ys' => py_eq x y && list_eq xs' ys'
  | _, _ => false
  end.

Fixpoint dict_sub (ys xs : list (string * value)) : bool :=
  match xs with
  | [] => true
  | (k, x) :: xs' =>
      match dict_get k ys with
      | Some y => py_eq x y
      | None => false
      end && dict_sub ys xs'
  end.

(** The decisions of the bodies of [__and__] and [__or__], and what a
    round of a loop leaves in the store. *)

Definition commit (h : heap) (acc : list record) (r : outcome (option record))
  : outcome unit * heap :=
  match r with
  | Ok (Some x) => (Ok tt, h ++ [add_to acc x])
  | Ok None => (Ok tt, h ++ [acc])
  | Raise e => (Raise e, h ++ [acc])
  | Unmodelled => (Unmodelled, h ++ [acc])
  end.

(** What a finished loop returns: the new response, unless the loop raised. *)
Definition finish {A : Type} (o : outcome unit) (a : A) : outcome A :=
  match o with
  | Ok _ => Ok a
  | Raise e => Raise e
  | Unmodelled => Unmodelled
  end.

Definition and_step (B : list record) (_ : list record) (obj : record)
  : outcome (option record) :=
  Ok (if py_in obj B then Some (dict_copy obj) else None).

Definition or_first_step (A : list record) (_ : list record) (obj : record)
  : outcome (option record) :=
  Ok (Some (if py_in obj A then dict_copy obj else obj)).

Definition or_second_step (acc : list record) (obj : record)
  : outcome (option record) :=
  Ok (if negb (py_in obj acc) then Some obj else None).

(** ** What a run leaves behind *)

(** Every object of [h] is still in [h'], at its address, with the same
    records in the same order. *)
Definition unchanged (h h' : heap) : Prop :=
  forall r objs, nth_error h r = Some objs -> nth_error h' r = Some objs.

(** A returned response is an object that [h] did not hold. *)
Definition new_in (h : heap) (o : outcome ref) : Prop :=
  match o with
  | Ok r => nth_error h r = None
  | _ => True
  end.

(** The records of the response a run returns. *)
Definition contents_of (run : outcome ref * heap) : outcome (list record) :=
  match run with
  | (Ok r, h') =>
      match nth_error h' r with
      | Some objs => Ok objs
      | None => Unmodelled
      end
  | (Raise e, _) => Raise e
  | (Unmodelled, _) => Unmodelled
  end.

(** The walk along the path stops on a key that a dict does not have:
    the [KeyError] that [filter] catches.  A walk that runs into a value
    that is not a dict stops too, on a [TypeError]; it is not counted
    here, since [filter] does not catch it ([path_through_a_string]). *)
Definition key_absent (obj : record) (tag : string) : bool :=
  match OpResponse._find_value_by_key obj tag with
  | Raise (KeyError _) => true
  | _ => false
  end.

(** A quoted string of a query: ["s"]. *)
Definition quoted (s : string) : string :=
  String dquote (s ++ String dquote EmptyString).

(** Three records, for examples. *)
Definition github : record := [("title", VStr "Github")].
Definition gitlab : record := [("title", VStr "Gitlab")].
Definition email : record := [("title", VStr "Email")].

(** ** The shapes the lexer and the parser maintain *)

(** The literals the lexer lets through. *)
Definition good_literal (v : token_value) : bool :=
  match v with
  | IntVal _ => true
  | StrVal s => Spec.all_chars OpTqlLexer.string_char s
  end.

(** A token as the lexer makes it: a number carries an int, a string or a
    name its characters, an operator its own character. *)
Definition good_token (t : OpTqlLexer.LexToken) : bool :=
  match OpTqlLexer.type t, OpTqlLexer.value t with
  | OpTqlLexer.NUMBER, IntVal _ => true
  | OpTqlLexer.STRING, StrVal s => Spec.all_chars OpTqlLexer.string_char s
  | OpTqlLexer.NAME, StrVal s => Spec.all_chars OpTqlLexer.string_char s
  | OpTqlLexer.OR, StrVal s => String.eqb s "|"
  | OpTqlLexer.AND, StrVal s => String.eqb s "&"
  | OpTqlLexer.EQUALS, StrVal _ => true
  | OpTqlLexer.LPAREN, StrVal _ => true
  | OpTqlLexer.RPAREN, StrVal _ => true
  | _, _ => false
  end.

Definition compiles (pattern : string) : bool :=
  match re.compile (list_ascii_of_string pattern) with
  | Some _ => true
  | None => false
  end.

Fixpoint expr_compiles (e : expr) : bool :=
  match e with
  | OpFilter _ value => compiles value
  | OpFuzzy value => compiles value
  | OpUnionOperator l r => expr_compiles l && expr_compiles r
  | OpIntersectionOperator l r => expr_compiles l && expr_compiles r
  end.

Definition ast_compiles (ast : OpTqlAst) : bool :=
  match expression ast with
  | Some e => expr_compiles e
  | None => true
  end.

Module Shape.
Import OpTqlLexer OpTqlParser.

(** The states in which an expression may start. *)
Definition opening (q : state) : bool :=
  match q with
  | q0 | q_LPAREN | q_expr_OR | q_expr_AND => true
  | _ => false
  end.

Definition state_eqb (a b : state) : bool :=
  match a, b with
  | q0, q0 | q_input, q_input | q_expr, q_expr | q_STRING, q_STRING
  | q_NAME, q_NAME | q_NUMBER, q_NUMBER | q_LPAREN, q_LPAREN
  | q_expr_OR, q_expr_OR | q_expr_AND, q_expr_AND
  | q_NAME_EQUALS, q_NAME_EQUALS | q_LPAREN_expr, q_LPAREN_expr
  | q_expr_OR_expr, q_expr_OR_expr | q_expr_AND_expr, q_expr_AND_expr
  | q_NAME_EQUALS_STRING, q_NAME_EQUALS_STRING
  | q_NAME_EQUALS_NUMBER, q_NAME_EQUALS_NUMBER
  | q_LPAREN_expr_RPAREN, q_LPAREN_expr_RPAREN => true
  | _, _ => false
  end.

(** An entry of the stack in state [q] with value [v], over the state
    [below]: the value is of the kind of the symbol that leads to [q],
    and [q] follows [below] in the automaton. *)
Definition entry_ok (below q : state) (v : symval) : bool :=
  match q, v with
  | q_STRING, TokenVal t | q_NUMBER, TokenVal t => opening below && good_literal t
  | q_NAME, TokenVal (StrVal s) => opening below && good_literal (StrVal s)
  | q_LPAREN, TokenVal _ => opening below
  | q_expr, ExprVal e => state_eqb below q0 && expr_compiles e
  | q_input, AstVal a => state_eqb below q0 && ast_compiles a
  | q_LPAREN_expr, ExprVal e => state_eqb below q_LPAREN && expr_compiles e
  | q_expr_OR_expr, ExprVal e => state_eqb below q_expr_OR && expr_compiles e
  | q_expr_AND_expr, ExprVal e => state_eqb below q_expr_AND && expr_compiles e
  | q_expr_OR, TokenVal (StrVal s) =>
      (state_eqb below q_expr || state_eqb below q_LPAREN_expr) && String.eqb s "|"
  | q_expr_AND, TokenVal (StrVal s) =>
      (state_eqb below q_expr || state_eqb below q_LPAREN_expr) && String.eqb s "&"
  | q_NAME_EQUALS, TokenVal _ => state_eqb below q_NAME
  | q_NAME_EQUALS_STRING, TokenVal t | q_NAME_EQUALS_NUMBER, TokenVal t =>
      state_eqb below q_NAME_EQUALS && good_literal t
  | q_LPAREN_expr_RPAREN, TokenVal _ => state_eqb below q_LPAREN_expr
  | _, _ => false
  end.

Fixpoint valid (st : stack) : bool :=
  match st with
  | [] => true
  | (q, v) :: below => entry_ok (current below) q v && valid below
  end.

(** How many reductions may still follow in a state. *)
Definition rank (q : state) : nat :=
  match q with
  | q_STRING | q_NAME | q_NUMBER
  | q_NAME_EQUALS_STRING | q_NAME_EQUALS_NUMBER | q_LPAREN_expr_RPAREN => 3
  | q_expr_OR_expr | q_expr_AND_expr => 2
  | q_expr | q_LPAREN_expr => 1
  | _ => 0
  end.

End Shape.

(** What a leaf may do with a record: keep it, pass, or raise [TypeError]. *)
Definition plain_outcome {A : Type} (o : outcome A) : Prop :=
  match o with
  | Ok _ | Raise TypeError => True
  | _ => False
  end.

(** A response the evaluator returns is an object of the new store. *)
Definition returned_in (h : heap) (o : outcome ref) : Prop :=
  match o with
  | Ok r => r < List.length h
  | Raise TypeError => True
  | _ => False
  end.

(** ** Terms: queries as the grammar reads them

    A term is an atom followed by operators and atoms; an atom is a leaf
    or a term in parentheses. *)

Module Term.
Import OpTqlLexer OpTqlParser.

Inductive term : Type :=
| t_atom (a : atom)
| t_bin (t : term) (op : Chain.operator) (a : atom)
with atom : Type :=
| a_leaf (l : Chain.leaf)
| a_paren (t : term).

Fixpoint term_tokens (t : term) : list LexToken :=
  match t with
  | t_atom a => atom_tokens a
  | t_bin t op a => term_tokens t ++ Chain.operator_token op :: atom_tokens a
  end
with atom_tokens (a : atom) : list LexToken :=
  match a with
  | a_leaf l => Chain.leaf_tokens l
  | a_paren t => tok LPAREN "(" :: term_tokens t ++ [tok RPAREN ")"]
  end.

(** The tree of a term: operators group from the left, a term in
    parentheses is one operand. *)
Fixpoint term_expr (t : term) : expr :=
  match t with
  | t_atom a => atom_expr a
  | t_bin t op a => Chain.node op (term_expr t) (atom_expr a)
  end
with atom_expr (a : atom) : expr :=
  match a with
  | a_leaf l => Chain.leaf_expr l
  | a_paren t => term_expr t
  end.

(** The stacks on which a term may start: the empty one, or one that
    ends with an open parenthesis. *)
Definition base (st : OpTqlParser.stack) : bool :=
  match st with
  | [] => true
  | (OpTqlParser.q_LPAREN, _) :: _ => true
  | _ => false
  end.

(** The state of an expression over a base. *)
Definition over (b : OpTqlParser.stack) : OpTqlParser.state :=
  match b with
  | [] => OpTqlParser.q_expr
  | _ => OpTqlParser.q_LPAREN_expr
  end.

(** What may follow a term: the end of the input, an operator, or a
    closing parenthesis. *)
Definition ends (rest : list LexToken) : bool :=
  match rest with
  | [] => true
  | t :: _ =>
      match type t with
      | OR | AND | RPAREN => true
      | _ => false
      end
  end.

(** The stacks on which an atom may start: a base, or a base with an
    expression and an operator on it. *)
Inductive context : stack -> stack -> Prop :=
| context_base b : base b = true -> context b b
| context_op b op e :
    base b = true ->
    context b ((match op with Chain.or_ => q_expr_OR | Chain.and_ => q_expr_AND end,
                TokenVal (value (Chain.operator_token op)))
               :: (over b, ExprVal e) :: b).

(** The stack once the atom is read, where the operator waits. *)
Definition pushed (st : stack) (e : expr) : stack :=
  match st with
  | (q_expr_OR, _) :: _ => (q_expr_OR_expr, ExprVal e) :: st
  | (q_expr_AND, _) :: _ => (q_expr_AND_expr, ExprVal e) :: st
  | _ => (over st, ExprVal e) :: st
  end.

Scheme term_mutual_ind := Induction for term Sort Prop
  with atom_mutual_ind := Induction for atom Sort Prop.
Combined Scheme term_atom_ind from term_mutual_ind, atom_mutual_ind.

End Term.

(** No [AstVal] of the stack is an AST without expression. *)
Definition asts_full (st : OpTqlParser.stack) : bool :=
  forallb (fun entry =>
             match snd entry with
             | OpTqlParser.AstVal a =>
                 match expression a with Some _ => true | None => false end
             | _ => true
             end) st.

(** ** Tokens as the lexer makes them, and their text *)

Definition nonempty (s : string) : bool :=
  match s with
  | EmptyString => false
  | String _ _ => true
  end.

(** A number carries an int; a string and a name carry a non-empty run of
    the characters of their rule; an operator carries its character. *)
Definition lexed (t : OpTqlLexer.LexToken) : bool :=
  match OpTqlLexer.type t, OpTqlLexer.value t with
  | OpTqlLexer.NUMBER, IntVal _ => true
  | OpTqlLexer.STRING, StrVal s =>
      nonempty s && Spec.all_chars OpTqlLexer.string_char s
  | OpTqlLexer.NAME, StrVal s =>
      nonempty s && Spec.all_chars OpTqlLexer.name_char s
  | OpTqlLexer.EQUALS, StrVal s => String.eqb s "="
  | OpTqlLexer.AND, StrVal s => String.eqb s "&"
  | OpTqlLexer.OR, StrVal s => String.eqb s "|"
  | OpTqlLexer.LPAREN, StrVal s => String.eqb s "("
  | OpTqlLexer.RPAREN, StrVal s => String.eqb s ")"
  | _, _ => false
  end.

(** The text of a token: a number in decimal, a string between quotes,
    the other tokens as they are. *)
Definition token_text (t : OpTqlLexer.LexToken) : string :=
  match OpTqlLexer.type t with
  | OpTqlLexer.STRING => quoted (py_str (OpTqlLexer.value t))
  | _ => py_str (OpTqlLexer.value t)
  end.

(** The tokens written one after the other, a space after each. *)
Fixpoint tokens_text (toks : list OpTqlLexer.LexToken) : string :=
  match toks with
  | [] => EmptyString
  | t :: more => token_text t ++ String " " (tokens_text more)
  end.

(** One step of [int_of_digits]. *)
Definition digit_step (acc : N) (c : ascii) : N := (acc * 10 + digit_value c)%N.

(** ** Literals and targets *)

(** Two strings that differ by the case of their letters at most. *)
Definition same_letters (s t : string) : Prop :=
  map re.lower (list_ascii_of_string s) = map re.lower (list_ascii_of_string t).

Definition star_free (s : string) : bool :=
  Spec.all_chars (fun c => negb (is_char "*" c)) s.

(** ** The leaves and the paths of a record *)

(** The scalar leaves of a value, depth first, in the order of the items
    and of the elements; [None] is no leaf, and neither are the keys. *)
Fixpoint scalars (v : value) : list scalar :=
  match v with
  | VNone => []
  | VBool b => [SBool b]
  | VInt z => [SInt z]
  | VStr s => [SStr s]
  | VList elems => flat_map scalars elems
  | VDict items => flat_map (fun kv => scalars (snd kv)) items
  end.

(** The first answer of [cmp_func] that is not [False]. *)
Fixpoint first_hit (cmp_func : scalar -> outcome bool) (leaves : list scalar)
  : outcome bool :=
  match leaves with
  | [] => Ok false
  | x :: more =>
      match cmp_func x with
      | Ok false => first_hit cmp_func more
      | other => other
      end
  end.

Definition has_dot (s : string) : bool :=
  existsb (is_char ".") (list_ascii_of_string s).

(** ** Order *)

(** [l] is [l'] with some elements left out. *)
Inductive subsequence {A : Type} : list A -> list A -> Prop :=
| subsequence_nil : subsequence [] []
| subsequence_skip x l l' : subsequence l l' -> subsequence l (x :: l')
| subsequence_take x l l' : subsequence l l' -> subsequence (x :: l) (x :: l').

(** ** What an expression stands for *)

(** What a leaf decides for one record. *)
Definition filter_test (name value : string) (obj : record) : outcome bool :=
  match OpResponse._find_value_by_key obj name with
  | Raise (KeyError _) => Ok false
  | Ok tag_value => OpFilter_match value tag_value
  | Raise e => Raise e
  | Unmodelled => Unmodelled
  end.

Definition fuzzy_test (value : string) (obj : record) : outcome bool :=
  OpResponse._find_value (dict_values obj) (OpFuzzy_match value).

(** The records a test keeps, in order; the first exception of a test
    is the exception of the selection. *)
Fixpoint select (test : record -> outcome bool) (objs : list record)
  : outcome (list record) :=
  match objs with
  | [] => Ok []
  | obj :: more =>
      match test obj with
      | Ok hit =>
          match select test more with
          | Ok kept => Ok (if hit then obj :: kept else kept)
          | other => other
          end
      | Raise e => Raise e
      | Unmodelled => Unmodelled
      end
  end.

(** The records an expression stands for, over the records [objs] of
    the database. *)
Fixpoint denote (e : expr) (objs : list record) : outcome (list record) :=
  match e with
  | OpFilter name value => select (filter_test name value) objs
  | OpFuzzy value => select (fuzzy_test value) objs
  | OpUnionOperator l r =>
      match denote l objs with
      | Ok L =>
          match denote r objs with
          | Ok R => Ok (R ++ List.filter (fun a => negb (py_in a R)) L)
          | other => other
          end
      | other => other
      end
  | OpIntersectionOperator l r =>
      match denote l objs with
      | Ok L =>
          match denote r objs with
          | Ok R => Ok (List.filter (fun a => py_in a R) L)
          | other => other
          end
      | other => other
      end
  end.

Definition step_of (test : record -> outcome bool) (obj : record)
  : outcome (option record) :=
  match test obj with
  | Ok hit => Ok (if hit then Some obj else None)
  | Raise e => Raise e
  | Unmodelled => Unmodelled
  end.

(** The tokens an operand may start with. *)
Definition starts_operand (t : OpTqlLexer.LexToken) : bool :=
  match OpTqlLexer.type t with
  | OpTqlLexer.STRING | OpTqlLexer.NAME | OpTqlLexer.NUMBER | OpTqlLexer.LPAREN => true
  | _ => false
  end.

(** ** Printing *)

(** [sep.join(items)]: every item has to be a [str]. *)
Fixpoint str_join (sep : string) (items : list (option value)) : outcome string :=
  match items with
  | [] => Ok ""
  | item :: more =>
      match item with
      | Some (VStr s) =>
          match more with
          | [] => Ok s
          | _ :: _ =>
              match str_join sep more with
              | Ok rest => Ok (s ++ sep ++ rest)%string
              | other => other
              end
          end
      | _ => Raise TypeError
      end
  end.

(** [OpResponse.__repr__]: [obj.get('uuid')] is [None] for a record
    without the key. *)
Definition OpResponse__repr__ (self : ref) : M string :=
  objs <- load self ;;
  names <- lift (str_join ", " (map (dict_get "uuid") objs)) ;;
  ret ("<OpResponse [" ++ names ++ "]>")%string.

(** The records [__repr__] can name. *)
Definition named (obj : record) : bool :=
  match dict_get "uuid" obj with
  | Some (VStr _) => true
  | _ => false
  end.

Definition uuid_of (obj : record) : string :=
  match dict_get "uuid" obj with
  | Some (VStr s) => s
  | _ => ""
  end.

(** [OpFilter.__repr__], [OpFuzzy.__repr__] and
    [OpBinaryOperator.__repr__] with the [SYMBOL] of each class. *)
Fixpoint expr__repr__ (e : expr) : string :=
  match e with
  | OpFilter name value => (name ++ "=" ++ value)%string
  | OpFuzzy value => value
  | OpUnionOperator l r => (expr__repr__ l ++ "|" ++ expr__repr__ r)%string
  | OpIntersectionOperator l r => (expr__repr__ l ++ "&" ++ expr__repr__ r)%string
  end.

(** ** opcli.py: the settings of the command line *)

Module OnePasswordCLI.

(** [do_setvault]: the new value of [self.vault], [None] for the names
    that stand for no vault. *)
Definition do_setvault (args : string) : option string :=
  if existsb (String.eqb args) ["null"; "None"; "None"; ""] then None else Some args.

(** The truth value of [self.vault]. *)
Definition truthy (vault : option string) : bool :=
  match vault with
  | Some (String _ _) => true
  | _ => false
  end.

(** [tmp_file_name]: ['{}-{}'.format(self.temp_file, self.vault)] with
    a vault, [self.temp_file] without. *)
Definition tmp_file_name (temp_file : string) (vault : option string) : string :=
  match vault with
  | Some v => if truthy vault then (temp_file ++ "-" ++ v)%string else temp_file
  | None => temp_file
  end.

(** [password[:size] + b'\xce' * (size - len(password))]: a slice stops
    at the end of the bytes, and a count below one repeats nothing. *)
Definition padded (password : list Byte.byte) (size : nat) : list Byte.byte :=
  firstn size password ++ repeat Byte.xce (size - List.length password).

(** [_get_encryption_key]: [bytes(None, 'utf-8')] is a [TypeError];
    [encodebytes] stands for [base64.encodebytes]. *)
Definition _get_encryption_key (encodebytes : list Byte.byte -> list Byte.byte)
  (op_session : option string) (size : nat) : outcome (list Byte.byte) :=
  match op_session with
  | None => Raise TypeError
  | Some session => Ok (encodebytes (padded (list_byte_of_string session) size))
  end.

End OnePasswordCLI.

(** ** opcli.py: the item the command line displays *)

Module Item.

(** The exceptions of [_get_item]: those of the query language, and
    [AttributeError]. *)
Inductive failure : Type :=
| Exn (e : exn)
| AttributeError.

Inductive attempt (A : Type) : Type :=
| Done (a : A)
| Failed (f : failure).
Arguments Done {A} a.
Arguments Failed {A} f.

Definition and_then {A B : Type} (m : attempt A) (k : A -> attempt B) : attempt B :=
  match m with
  | Done a => k a
  | Failed f => Failed f
  end.

(** [d[key]] for a string key. *)
Definition item_at (d : value) (key : string) : attempt value :=
  match d with
  | VDict items =>
      match dict_get key items with
      | Some v => Done v
      | None => Failed (Exn (KeyError key))
      end
  | _ => Failed (Exn TypeError)
  end.

(** [d.get(key, default)]: a method of dicts only. *)
Definition get (d : value) (key : string) (default : value) : attempt value :=
  match d with
  | VDict items =>
      Done match dict_get key items with
           | Some v => v
           | None => default
           end
  | _ => Failed AttributeError
  end.

(** [needle in s] for two strings. *)
Fixpoint substring_of (needle s : string) : bool :=
  String.prefix needle s
  || match s with
     | EmptyString => false
     | String _ rest => substring_of needle rest
     end.

(** [needle in container] for a string [needle]: a key of a dict, an
    element of a list, a part of a string. *)
Definition contains (needle : string) (container : value) : attempt bool :=
  match container with
  | VDict items => Done (existsb (String.eqb needle) (map fst items))
  | VList elems => Done (existsb (fun x => py_eq x (VStr needle)) elems)
  | VStr s => Done (substring_of needle s)
  | _ => Failed (Exn TypeError)
  end.

(** What [for field in fields] runs over. *)
Definition iterate (fields : value) : attempt (list value) :=
  match fields with
  | VList elems => Done elems
  | VDict items => Done (map (fun kv => VStr (fst kv)) items)
  | VStr s => Done (map (fun c => VStr (String c EmptyString)) (list_ascii_of_string s))
  | _ => Failed (Exn TypeError)
  end.

(** [[field for field in fields if field.get('designation') == name]] *)
Fixpoint designated (name : string) (fields : list value) : attempt (list value) :=
  match fields with
  | [] => Done []
  | field :: more =>
      and_then (get field "designation" VNone) (fun d =>
      and_then (designated name more) (fun rest =>
      Done (if py_eq d (VStr name) then field :: rest else rest)))
  end.

(** The two [if key in raw_item.get('overview', {})] blocks. *)
Definition from_overview (raw_item : value) (key : string) (item : record)
  : attempt record :=
  and_then (get raw_item "overview" (VDict [])) (fun overview =>
  and_then (contains key overview) (fun found =>
  if found then
    and_then (item_at raw_item "overview") (fun overview =>
    and_then (item_at overview key) (fun v =>
    Done (item ++ [(key, v)])))
  else Done item)).

(** The two blocks on the fields of a designation. *)
Definition from_fields (raw_item : value) (name : string) (item : record)
  : attempt record :=
  and_then (get raw_item "details" (VDict [])) (fun details =>
  and_then (get details "fields" VNone) (fun fields =>
  and_then (iterate fields) (fun elems =>
  and_then (designated name elems) (fun found =>
  match found with
  | first :: _ =>
      and_then (item_at first "value") (fun v => Done (item ++ [(name, v)]))
  | [] => Done item
  end)))).

(** [_get_item], from the output of [op get item]: [out] is the decoded
    JSON, or [None] when the command printed nothing. *)
Definition _get_item (out : option value) : attempt (option record) :=
  match out with
  | None => Done None
  | Some raw_item =>
      and_then (item_at raw_item "uuid") (fun uuid =>
      and_then (from_overview raw_item "title" [("uuid", uuid)]) (fun item =>
      and_then (from_overview raw_item "url" item) (fun item =>
      and_then (from_fields raw_item "username" item) (fun item =>
      and_then (from_fields raw_item "password" item) (fun item =>
      Done (Some item))))))
  end.

End Item.


(** * Properties

    ** Equality of records *)

Section value_induction.
Variable P : value -> Prop.
Hypothesis HNone : P VNone.
Hypothesis HBool : forall b, P (VBool b).
Hypothesis HInt : forall z, P (VInt z).
Hypothesis HStr : forall s, P (VStr s).
Hypothesis HList : forall elems, Forall P elems -> P (VList elems).
Hypothesis HDict :
  forall items, Forall (fun kv => P (snd kv)) items -> P (VDict items).

Fixpoint value_nested_ind (v : value) : P v :=
  match v with
  | VNone => HNone
  | VBool b => HBool b
  | VInt z => HInt z
  | VStr s => HStr s
  | VList elems =>
      HList elems
        ((fix each (l : list value) : Forall P l :=
            match l with
            | [] => Forall_nil P
            | x :: l' => Forall_cons x (value_nested_ind x) (each l')
            end) elems)
  | VDict items =>
      HDict items
        ((fix each (l : list (string * value)) : Forall (fun kv => P (snd kv)) l :=
            match l with
            | [] => Forall_nil _
            | kv :: l' => Forall_cons kv (value_nested_ind (snd kv)) (each l')
            end) items)
  end.
End value_induction.


Lemma py_eq_list xs ys : py_eq (VList xs) (VList ys) = list_eq xs ys.
Proof.
  revert ys. induction xs as [|x xs IH]; intros [|y ys]; reflexivity.
Qed.

Lemma py_eq_dict xs ys :
  py_eq (VDict xs) (VDict ys)
  = (List.length xs =? List.length ys)%nat && dict_sub ys xs.
Proof.
  cbn [py_eq]. f_equal.
  induction xs as [|[k x] xs IH]; [reflexivity|].
  cbn [dict_sub]. rewrite <- IH. reflexivity.
Qed.


Lemma well_formed_list elems :
  well_formed (VList elems) = forallb well_formed elems.
Proof.
  induction elems as [|x l IH]; [reflexivity|].
  cbn [forallb]. rewrite <- IH. reflexivity.
Qed.

Lemma well_formed_dict items :
  well_formed (VDict items)
  = unique_keys (map fst items) && forallb (fun kv => well_formed (snd kv)) items.
Proof.
  cbn [well_formed]. f_equal.
  induction items as [|[k x] l IH]; [reflexivity|].
  cbn [forallb snd]. rewrite <- IH. reflexivity.
Qed.

Lemma unique_keys_NoDup keys : unique_keys keys = true -> NoDup keys.
Proof.
  induction keys as [|k keys IH]; intros H; [constructor|].
  cbn [unique_keys] in H. apply andb_prop in H. destruct H as [Hk Hrest].
  constructor; [|auto].
  intros Hin. apply negb_true_iff in Hk.
  assert (existsb (String.eqb k) keys = true) as E.
  { apply existsb_exists. exists k. split; [assumption | apply String.eqb_refl]. }
  congruence.
Qed.

Lemma dict_get_In key items v :
  dict_get key items = Some v -> In (key, v) items.
Proof.
  induction items as [|[k x] items IH]; cbn [dict_get]; [discriminate|].
  destruct (String.eqb_spec k key) as [->|Hne].
  - intros [= ->]. now left.
  - intros H. right. auto.
Qed.

Lemma dict_get_key key items :
  In key (map fst items) -> exists v, dict_get key items = Some v.
Proof.
  induction items as [|[k x] items IH]; cbn [dict_get map fst]; [intros []|].
  destruct (String.eqb_spec k key) as [->|Hne].
  - intros _. now exists x.
  - intros [H|H]; [contradiction | auto].
Qed.

Lemma dict_get_NoDup key v items :
  NoDup (map fst items) -> In (key, v) items -> dict_get key items = Some v.
Proof.
  induction items as [|[k x] items IH]; cbn [dict_get map fst]; [intros _ []|].
  intros Hnd [Heq|Hin].
  - injection Heq as -> ->. now rewrite String.eqb_refl.
  - inversion Hnd as [|? ? Hk Hnd']; subst.
    destruct (String.eqb_spec k key) as [->|Hne].
    + exfalso. apply Hk. exact (in_map fst _ _ Hin).
    + auto.
Qed.

Lemma dict_sub_spec ys xs :
  dict_sub ys xs = true <->
  forall k x, In (k, x) xs -> exists y, dict_get k ys = Some y /\ py_eq x y = true.
Proof.
  induction xs as [|[k x] xs IH]; cbn [dict_sub].
  - split; [intros _ ? ? [] | reflexivity].
  - rewrite andb_true_iff, IH. split.
    + intros [H1 H2] k' x' [Heq|Hin].
      * injection Heq as <- <-. destruct (dict_get k ys); [eauto | discriminate].
      * auto.
    + intros H. split.
      * destruct (H k x (or_introl eq_refl)) as (y & -> & Hy). exact Hy.
      * intros k' x' Hin. apply H. now right.
Qed.

Lemma py_eq_refl v : well_formed v = true -> py_eq v v = true.
Proof.
  induction v as [| | | |elems IH|items IH] using value_nested_ind; intros Hwf.
  - reflexivity.
  - apply Bool.eqb_reflx.
  - apply Z.eqb_refl.
  - apply String.eqb_refl.
  - rewrite py_eq_list. rewrite well_formed_list in Hwf.
    induction IH as [|x l Hx _ IHl]; [reflexivity|].
    cbn [forallb] in Hwf. apply andb_prop in Hwf. destruct Hwf as [Hwx Hwl].
    cbn [list_eq]. rewrite Hx, IHl by assumption. reflexivity.
  - rewrite py_eq_dict, Nat.eqb_refl. cbn [andb].
    rewrite well_formed_dict in Hwf. apply andb_prop in Hwf.
    destruct Hwf as [Hkeys Hvals]. apply unique_keys_NoDup in Hkeys.
    apply dict_sub_spec. intros k x Hin. exists x. split.
    + now apply dict_get_NoDup.
    + rewrite Forall_forall in IH. apply (IH (k, x) Hin).
      rewrite forallb_forall in Hvals. apply (Hvals (k, x) Hin).
Qed.

Lemma py_eq_sym_true a : forall b,
  well_formed a = true -> well_formed b = true ->
  py_eq a b = true -> py_eq b a = true.
Proof.
  induction a as [| | | |elems IH|items IH] using value_nested_ind;
    intros other Hwa Hwb; destruct other;
    try (cbn [py_eq]; discriminate); try (cbn [py_eq]; intros _; reflexivity).
  - cbn [py_eq]. rewrite Bool.eqb_true_iff. intros ->. apply Bool.eqb_reflx.
  - cbn [py_eq]. rewrite Z.eqb_sym. auto.
  - cbn [py_eq]. rewrite Z.eqb_sym. auto.
  - cbn [py_eq]. rewrite Z.eqb_sym. auto.
  - cbn [py_eq]. rewrite String.eqb_sym. auto.
  - rewrite !py_eq_list. rewrite well_formed_list in Hwa, Hwb.
    revert elems0 Hwb. induction IH as [|x l Hx _ IHl]; intros [|y ys] Hwb; cbn [list_eq]; auto.
    cbn [forallb] in Hwa, Hwb.
    apply andb_prop in Hwa. destruct Hwa as [Hwx Hwl].
    apply andb_prop in Hwb. destruct Hwb as [Hwy Hwys].
    rewrite !andb_true_iff. intros [H1 H2]. split; auto.
  - rewrite !py_eq_dict. rewrite well_formed_dict in Hwa, Hwb.
    apply andb_prop in Hwa. destruct Hwa as [Hka Hva].
    apply andb_prop in Hwb. destruct Hwb as [Hkb Hvb].
    apply unique_keys_NoDup in Hka, Hkb.
    rewrite forallb_forall in Hva, Hvb. rewrite Forall_forall in IH.
    rewrite !andb_true_iff, !Nat.eqb_eq, !dict_sub_spec.
    intros [Hlen Hsub]. split; [congruence|].
    intros k y Hin.
    assert (incl (map fst items0) (map fst items)) as Hincl.
    { apply NoDup_length_incl; [assumption | rewrite !length_map; lia |].
      intros k' Hk'. apply in_map_iff in Hk'. destruct Hk' as ([k'' x] & <- & Hx).
      destruct (Hsub _ _ Hx) as (y' & Hy' & _). apply dict_get_In in Hy'.
      exact (in_map fst _ _ Hy'). }
    assert (In k (map fst items)) as Hk.
    { apply Hincl. exact (in_map fst _ _ Hin). }
    destruct (dict_get_key _ _ Hk) as (x & Hx). exists x. split; [assumption|].
    pose proof (dict_get_In _ _ _ Hx) as Hxin.
    destruct (Hsub _ _ Hxin) as (y' & Hy' & Hxy).
    rewrite (dict_get_NoDup _ _ _ Hkb Hin) in Hy'. injection Hy' as <-.
    apply (IH (k, x) Hxin); [apply (Hva (k, x) Hxin) | apply (Hvb (k, y) Hin) | assumption].
Qed.

Lemma py_eq_sym a b :
  well_formed a = true -> well_formed b = true -> py_eq a b = py_eq b a.
Proof.
  intros Ha Hb.
  destruct (py_eq a b) eqn:E1, (py_eq b a) eqn:E2; try reflexivity.
  - apply py_eq_sym_true in E1; auto. congruence.
  - apply py_eq_sym_true in E2; auto. congruence.
Qed.

(** ** Patterns of plain literals *)


Lemma plain_atom c :
  Spec.plain c = true -> re.atom_of c = re.Lit c.
Proof.
  destruct c as [[] [] [] [] [] [] [] []]; cbv; intros; try discriminate; reflexivity.
Qed.

Lemma string_char_atom c :
  OpTqlLexer.string_char c = true -> is_char "*" c = false ->
  re.special c = false /\ re.repeatable (re.atom_of c) = true.
Proof.
  destruct c as [[] [] [] [] [] [] [] []]; cbv; intros; try discriminate; split; reflexivity.
Qed.

Lemma plain_string_char literal :
  Spec.all_chars Spec.plain literal = true ->
  Spec.all_chars OpTqlLexer.string_char literal = true.
Proof.
  unfold Spec.all_chars. rewrite !forallb_forall. intros H c Hc.
  specialize (H c Hc). unfold Spec.plain in H. now apply andb_prop in H.
Qed.

(** The pattern of every literal the lexer lets through compiles. *)
Lemma compile_literal literal :
  Spec.all_chars OpTqlLexer.string_char literal = true ->
  re.compile (list_ascii_of_string (replace_star literal ++ "$"))
  = Some (pieces literal ++ [re.One re.Dollar])%list.
Proof.
  induction literal as [|c rest IH]; intros Hp.
  - reflexivity.
  - unfold Spec.all_chars in Hp. cbn [list_ascii_of_string forallb] in Hp.
    apply andb_prop in Hp. destruct Hp as [Hc Hrest].
    specialize (IH Hrest).
    cbn [replace_star pieces].
    destruct (is_char "*" c) eqn:Hstar.
    + cbn. cbn in IH. rewrite IH. reflexivity.
    + destruct (string_char_atom c Hc Hstar) as [Hs _].
      cbn [append list_ascii_of_string re.compile].
      rewrite Hs, Hstar. cbn [orb].
      destruct rest as [|c2 rest2].
      * reflexivity.
      * cbn [replace_star] in *.
        destruct (is_char "*" c2) eqn:Hstar2.
        -- cbn [append list_ascii_of_string] in *.
           change (is_char "*" ".") with false. cbn iota.
           rewrite IH. reflexivity.
        -- cbn [append list_ascii_of_string] in *.
           rewrite Hstar2. rewrite IH. reflexivity.
Qed.

Lemma matches_literal ic literal :
  Spec.all_chars Spec.plain literal = true ->
  forall start target,
    forallb (fun c => negb (is_char newline c)) target = true ->
    re.matches ic (pieces literal ++ [re.One re.Dollar]) start target
    = Spec.whole_match ic literal target.
Proof.
  induction literal as [|c rest IH]; intros Hp start target Hnl.
  - destruct target as [|x [|y target]]; try reflexivity.
    cbn [forallb] in Hnl. apply andb_prop in Hnl. destruct Hnl as [Hx _].
    cbn [pieces app re.matches re.at_end Spec.whole_match].
    destruct (is_char newline x); [discriminate | reflexivity].
  - unfold Spec.all_chars in Hp. cbn [list_ascii_of_string forallb] in Hp.
    apply andb_prop in Hp. destruct Hp as [Hc Hrest].
    specialize (IH Hrest).
    cbn [pieces app Spec.whole_match]. rewrite (plain_atom c Hc).
    destruct (is_char "*" c) eqn:Hstar.
    + cbn [re.matches].
      revert start. induction target as [|x target IHt]; intros start.
      * rewrite IH by assumption. reflexivity.
      * cbn [forallb] in Hnl. apply andb_prop in Hnl. destruct Hnl as [Hx Hnl].
        rewrite IH by (cbn [forallb]; rewrite Hx; assumption).
        cbn [re.takes]. rewrite Hx. cbn [andb].
        rewrite IHt by assumption. reflexivity.
    + cbn [re.matches]. destruct target as [|x target]; [reflexivity|].
      cbn [forallb] in Hnl. apply andb_prop in Hnl. destruct Hnl as [_ Hnl].
      cbn [re.takes]. rewrite IH by assumption. reflexivity.
Qed.

Lemma head_of_literal literal :
  exists c r, list_ascii_of_string (replace_star literal ++ "$") = c :: r
              /\ is_char "*" c = false.
Proof.
  destruct literal as [|c rest].
  - exists "$"%char, []. split; reflexivity.
  - cbn [replace_star]. destruct (is_char "*" c) eqn:Hstar.
    + eexists _, _. split; reflexivity.
    + eexists _, _. split; [reflexivity | assumption].
Qed.

Lemma match_anchored ic v target :
  Spec.all_chars Spec.plain (py_str v) = true ->
  Spec.one_line target = true ->
  re.match_ (anchored v) target ic
  = Ok (Spec.whole_match ic (py_str v) (list_ascii_of_string target)).
Proof.
  intros Hp Hnl. unfold re.match_, anchored.
  cbn [append list_ascii_of_string re.compile].
  destruct (head_of_literal (py_str v)) as (c & r & Hhead & Hc).
  pose proof (compile_literal _ (plain_string_char _ Hp)) as Hcomp.
  rewrite Hhead in *. change (re.special "^" || is_char "*" "^") with false.
  cbn iota. rewrite Hc. change (re.atom_of "^") with re.Caret.
  rewrite Hcomp. cbn [option_map re.matches andb].
  rewrite matches_literal by assumption. reflexivity.
Qed.

Lemma digits_plain d : Spec.all_chars Spec.plain (NilEmpty.string_of_uint d) = true.
Proof. induction d; cbn; auto. Qed.

Lemma number_plain n : Spec.all_chars Spec.plain (py_str (IntVal n)) = true.
Proof.
  unfold py_str, NilZero.string_of_uint.
  destruct (N.to_uint n); try reflexivity; apply digits_plain.
Qed.

(** ** The methods of OpResponse and their loops *)

(** *** The store *)

Lemma nth_error_last (h : heap) acc : nth_error (h ++ [acc]) (List.length h) = Some acc.
Proof. rewrite nth_error_app2, Nat.sub_diag by lia. reflexivity. Qed.

Lemma nth_error_old (h : heap) ext r objs :
  nth_error h r = Some objs -> nth_error (h ++ ext) r = Some objs.
Proof.
  intros H. rewrite nth_error_app1; [assumption|].
  apply nth_error_Some. congruence.
Qed.

Lemma update_last (h : heap) acc acc' :
  update (List.length h) acc' (h ++ [acc]) = h ++ [acc'].
Proof. induction h as [|x h IH]; cbn; [reflexivity | now rewrite IH]. Qed.

Lemma add_last h acc obj :
  OpResponse.add (List.length h) obj (h ++ [acc]) = (Ok tt, h ++ [add_to acc obj]).
Proof.
  unfold OpResponse.add, bind, load, add_to. rewrite nth_error_last.
  destruct (py_in obj acc); cbn [negb]; [reflexivity|].
  unfold store. rewrite length_app. cbn [List.length].
  replace (List.length h <? List.length h + 1)%nat with true
    by (symmetry; apply Nat.ltb_lt; lia).
  now rewrite update_last.
Qed.

Lemma contains_at h r objs obj :
  nth_error h r = Some objs ->
  OpResponse.__contains__ r obj h = (Ok (py_in obj objs), h).
Proof. intros H. unfold OpResponse.__contains__, bind, load. now rewrite H. Qed.


Lemma for_each_collect h step (body : record -> M unit) :
  (forall obj acc, body obj (h ++ [acc]) = commit h acc (step acc obj)) ->
  forall objs acc,
    for_each objs body (h ++ [acc])
    = (fst (collect step objs acc), h ++ [snd (collect step objs acc)]).
Proof.
  intros Hbody objs. induction objs as [|obj more IH]; intros acc.
  - reflexivity.
  - cbn [for_each collect]. unfold bind at 1. rewrite Hbody.
    destruct (step acc obj) as [[x|]|e|]; cbn [commit]; try reflexivity; apply IH.
Qed.

Lemma collect_total step :
  (forall acc obj, exists r, step acc obj = Ok r) ->
  forall objs acc, fst (collect step objs acc) = Ok tt.
Proof.
  intros Hstep objs. induction objs as [|obj more IH]; intros acc; [reflexivity|].
  cbn [collect]. destruct (Hstep acc obj) as [[x|] ->]; apply IH.
Qed.





Lemma and_run h self other A B :
  nth_error h self = Some A -> nth_error h other = Some B ->
  OpResponse.__and__ self other h
  = (Ok (List.length h), h ++ [snd (collect (and_step B) A [])]).
Proof.
  intros HA HB. unfold OpResponse.__and__, OpResponse.__init__, OpResponse.__iter__.
  unfold bind at 1, alloc. unfold bind at 1, load.
  rewrite (nth_error_old _ _ _ _ HA). unfold bind at 1.
  rewrite (for_each_collect h (and_step B)).
  - rewrite collect_total by (intros; eexists; reflexivity). reflexivity.
  - intros obj acc. unfold bind at 1.
    rewrite (contains_at _ _ B) by now apply nth_error_old.
    unfold and_step. destruct (py_in obj B); [apply add_last | reflexivity].
Qed.

Lemma or_run h self other A B :
  nth_error h self = Some A -> nth_error h other = Some B ->
  OpResponse.__or__ self other h
  = (Ok (List.length h),
     h ++ [snd (collect or_second_step A (snd (collect (or_first_step A) B [])))]).
Proof.
  intros HA HB. unfold OpResponse.__or__, OpResponse.__init__, OpResponse.__iter__.
  unfold bind at 1, alloc. unfold bind at 1, load.
  rewrite (nth_error_old _ _ _ _ HB). unfold bind at 1.
  rewrite (for_each_collect h (or_first_step A)).
  - rewrite collect_total by (intros; eexists; reflexivity).
    unfold bind at 1. rewrite (nth_error_old _ _ _ _ HA). unfold bind at 1.
    rewrite (for_each_collect h or_second_step).
    + rewrite collect_total by (intros; eexists; reflexivity). reflexivity.
    + intros obj acc. unfold bind at 1.
      rewrite (contains_at _ _ acc) by apply nth_error_last.
      unfold or_second_step. destruct (py_in obj acc); cbn [negb];
        [reflexivity | apply add_last].
  - intros obj acc. unfold bind at 1.
    rewrite (contains_at _ _ A) by now apply nth_error_old.
    unfold or_first_step. apply add_last.
Qed.

Lemma filter_run h self tag cmp_func A :
  nth_error h self = Some A ->
  OpResponse.filter self tag cmp_func h
  = (finish (fst (collect (fun _ => filter_step tag cmp_func) A [])) (List.length h),
     h ++ [snd (collect (fun _ => filter_step tag cmp_func) A [])]).
Proof.
  intros HA. unfold OpResponse.filter, OpResponse.__init__, OpResponse.__iter__.
  unfold bind at 1, alloc. unfold bind at 1, load.
  rewrite (nth_error_old _ _ _ _ HA). unfold bind at 1.
  rewrite (for_each_collect h (fun _ => filter_step tag cmp_func)).
  - destruct (fst (collect _ A [])); reflexivity.
  - intros obj acc. unfold filter_step.
    destruct (OpResponse._find_value_by_key obj tag) as [v|[]|]; try reflexivity.
    unfold bind, lift. destruct (cmp_func v) as [[]|e|]; try reflexivity.
    apply add_last.
Qed.

Lemma fuzzy_run h self cmp_func A :
  nth_error h self = Some A ->
  OpResponse.fuzzy self cmp_func h
  = (finish (fst (collect (fun _ => fuzzy_step cmp_func) A [])) (List.length h),
     h ++ [snd (collect (fun _ => fuzzy_step cmp_func) A [])]).
Proof.
  intros HA. unfold OpResponse.fuzzy, OpResponse.__init__, OpResponse.__iter__.
  unfold bind at 1, alloc. unfold bind at 1, load.
  rewrite (nth_error_old _ _ _ _ HA). unfold bind at 1.
  rewrite (for_each_collect h (fun _ => fuzzy_step cmp_func)).
  - destruct (fst (collect _ A [])); reflexivity.
  - intros obj acc. unfold fuzzy_step, bind, lift.
    destruct (OpResponse._find_value (dict_values obj) cmp_func) as [[]|e|];
      try reflexivity.
    apply add_last.
Qed.

(** *** Membership and uniqueness *)

Lemma py_in_app x l1 l2 : py_in x (l1 ++ l2) = py_in x l1 || py_in x l2.
Proof. apply existsb_app. Qed.

Lemma py_in_one x a : py_in x [a] = record_eq a x.
Proof. unfold py_in. cbn [existsb]. apply orb_false_r. Qed.

Lemma differ_true a b :
  differ a b = true -> record_eq a b = false /\ record_eq b a = false.
Proof.
  unfold differ. rewrite andb_true_iff, !negb_true_iff. tauto.
Qed.

Lemma unique_cons x more :
  unique (x :: more) = true ->
  (forall y, In y more -> record_eq x y = false /\ record_eq y x = false)
  /\ unique more = true.
Proof.
  cbn [unique]. rewrite andb_true_iff, forallb_forall.
  intros [H1 H2]. split; [|assumption]. intros y Hy. now apply differ_true, H1.
Qed.

Lemma add_to_new acc x : py_in x acc = false -> add_to acc x = acc ++ [x].
Proof. unfold add_to. now intros ->. Qed.

Lemma collect_and B : forall A acc,
  unique A = true ->
  (forall a, In a A -> py_in a acc = false) ->
  collect (and_step B) A acc = (Ok tt, acc ++ List.filter (fun a => py_in a B) A).
Proof.
  induction A as [|a A IH]; intros acc Hu Hacc.
  - cbn. now rewrite app_nil_r.
  - apply unique_cons in Hu. destruct Hu as [Ha Hu].
    cbn [collect List.filter and_step]. destruct (py_in a B).
    + unfold dict_copy. rewrite add_to_new by (apply Hacc; now left).
      rewrite IH; [now rewrite <- app_assoc | assumption |].
      intros a' Ha'. rewrite py_in_app, py_in_one.
      rewrite (Hacc a') by now right. now rewrite (proj1 (Ha a' Ha')).
    + apply IH; [assumption|]. intros a' Ha'. apply Hacc. now right.
Qed.

Lemma collect_or_first A : forall B acc,
  unique B = true ->
  (forall b, In b B -> py_in b acc = false) ->
  collect (or_first_step A) B acc = (Ok tt, acc ++ B).
Proof.
  induction B as [|b B IH]; intros acc Hu Hacc.
  - cbn. now rewrite app_nil_r.
  - apply unique_cons in Hu. destruct Hu as [Hb Hu].
    cbn [collect or_first_step]. unfold dict_copy.
    replace (if py_in b A then b else b) with b by now destruct (py_in b A).
    rewrite add_to_new by (apply Hacc; now left).
    rewrite IH; [now rewrite <- app_assoc | assumption |].
    intros b' Hb'. rewrite py_in_app, py_in_one.
    rewrite (Hacc b') by now right. now rewrite (proj1 (Hb b' Hb')).
Qed.

Lemma collect_or_second B : forall A added,
  unique A = true ->
  (forall a, In a A -> py_in a added = false) ->
  collect or_second_step A (B ++ added)
  = (Ok tt, B ++ added ++ List.filter (fun a => negb (py_in a B)) A).
Proof.
  induction A as [|a A IH]; intros added Hu Hadded.
  - cbn. now rewrite app_nil_r.
  - apply unique_cons in Hu. destruct Hu as [Ha Hu].
    cbn [collect List.filter or_second_step].
    rewrite py_in_app, (Hadded a) by now left. rewrite orb_false_r.
    destruct (py_in a B) eqn:HaB; cbn [negb].
    + apply IH; [assumption|]. intros a' Ha'. apply Hadded. now right.
    + rewrite add_to_new
        by (rewrite py_in_app, HaB; apply Hadded; now left).
      rewrite <- app_assoc. rewrite IH; [now rewrite <- app_assoc | assumption |].
      intros a' Ha'. rewrite py_in_app, py_in_one.
      rewrite (Hadded a') by now right. now rewrite (proj1 (Ha a' Ha')).
Qed.

Lemma unique_snoc acc x :
  unique acc = true -> forallb (fun item => differ item x) acc = true ->
  unique (acc ++ [x]) = true.
Proof.
  induction acc as [|a acc IH]; intros Hu Hx; [reflexivity|].
  cbn [unique app] in *. apply andb_prop in Hu. destruct Hu as [Ha Hu].
  cbn [forallb] in Hx. apply andb_prop in Hx. destruct Hx as [Hax Hx].
  rewrite forallb_app, Ha, IH by assumption. cbn [forallb]. now rewrite Hax.
Qed.

Lemma unique_duplicate_free objs : unique objs = true -> duplicate_free objs.
Proof.
  induction objs as [|x more IH]; intros Hu i j a b Hij Hi Hj.
  - destruct i; discriminate.
  - apply unique_cons in Hu. destruct Hu as [Hx Hu].
    destruct i as [|i], j as [|j]; cbn [nth_error] in Hi, Hj.
    + congruence.
    + injection Hi as <-. apply nth_error_In in Hj. apply (Hx b Hj).
    + injection Hj as <-. apply nth_error_In in Hi. apply (Hx a Hi).
    + apply (IH Hu i j); auto.
Qed.

Lemma duplicate_free_unique objs : duplicate_free objs -> unique objs = true.
Proof.
  induction objs as [|x more IH]; intros Hd; [reflexivity|].
  cbn [unique]. apply andb_true_intro. split.
  - apply forallb_forall. intros y Hy.
    apply In_nth_error in Hy. destruct Hy as [n Hn].
    unfold differ. rewrite (Hd 0 (S n) x y), (Hd (S n) 0 y x); auto.
  - apply IH. intros i j a b Hij Hi Hj. apply (Hd (S i) (S j)); auto.
Qed.

(** ** Uniqueness and locality *)

Lemma record_eq_refl a : well_formed_record a = true -> record_eq a a = true.
Proof. apply py_eq_refl. Qed.

Lemma record_eq_sym a b :
  well_formed_record a = true -> well_formed_record b = true ->
  record_eq a b = record_eq b a.
Proof. apply py_eq_sym. Qed.

Lemma py_in_false x acc :
  py_in x acc = false -> forall item, In item acc -> record_eq item x = false.
Proof.
  unfold py_in. intros H item Hin.
  destruct (record_eq item x) eqn:E; [|reflexivity].
  assert (existsb (fun item => record_eq item x) acc = true) as C
    by (apply existsb_exists; eauto).
  congruence.
Qed.

Lemma py_in_self x objs :
  well_formed_record x = true -> In x objs -> py_in x objs = true.
Proof.
  intros Hwf Hin. apply existsb_exists. exists x. split; [assumption|].
  now apply record_eq_refl.
Qed.

Lemma add_to_unique acc x :
  well_formed_records acc = true -> well_formed_record x = true ->
  unique acc = true ->
  unique (add_to acc x) = true /\ well_formed_records (add_to acc x) = true.
Proof.
  intros Hwa Hwx Hu. unfold add_to. destruct (py_in x acc) eqn:Hin; [auto|].
  split.
  - apply unique_snoc; [assumption|]. apply forallb_forall. intros item Hitem.
    unfold differ. unfold well_formed_records in Hwa. rewrite forallb_forall in Hwa.
    rewrite <- (record_eq_sym item x) by auto.
    now rewrite (py_in_false _ _ Hin item Hitem).
  - unfold well_formed_records in *. rewrite forallb_app, Hwa. cbn [forallb andb]. now rewrite Hwx.
Qed.

(** A loop of additions builds a collection without duplicates, whatever
    it adds. *)
Lemma collect_unique step :
  (forall acc obj x, step acc obj = Ok (Some x) -> x = obj) ->
  forall objs acc,
    well_formed_records objs = true -> well_formed_records acc = true ->
    unique acc = true ->
    unique (snd (collect step objs acc)) = true
    /\ well_formed_records (snd (collect step objs acc)) = true.
Proof.
  intros Hstep objs. induction objs as [|obj more IH]; intros acc Hwo Hwa Hu.
  - auto.
  - cbn [well_formed_records forallb] in Hwo. apply andb_prop in Hwo.
    destruct Hwo as [Hobj Hmore]. cbn [collect].
    destruct (step acc obj) as [[x|]|e|] eqn:E; auto.
    apply Hstep in E. subst x.
    destruct (add_to_unique acc obj Hwa Hobj Hu). now apply IH.
Qed.

(** *** Locality *)

Lemma local_ret {A} h (Q : A -> Prop) a : Q a -> local h Q (ret a).
Proof. intros HQ acc. exists (Ok a), acc. split; [reflexivity|]. now intros ? [= <-]. Qed.

Lemma local_lift {A} h (o : outcome A) : local h (fun _ => True) (lift o).
Proof. intros acc. exists o, acc. auto. Qed.

Lemma local_bind {A B} h (Q : A -> Prop) (R : B -> Prop) m k :
  local h Q m -> (forall a, Q a -> local h R (k a)) -> local h R (bind m k).
Proof.
  intros Hm Hk acc. destruct (Hm acc) as (o & acc1 & E & HQ).
  unfold bind. rewrite E. destruct o as [a|e|].
  - apply (Hk a (HQ a eq_refl)).
  - exists (Raise e), acc1. split; [reflexivity | discriminate].
  - exists Unmodelled, acc1. split; [reflexivity | discriminate].
Qed.

Lemma local_weaken {A} h (Q R : A -> Prop) m :
  local h Q m -> (forall a, Q a -> R a) -> local h R m.
Proof.
  intros Hm HQR acc. destruct (Hm acc) as (o & acc' & E & HQ).
  exists o, acc'. auto.
Qed.

Lemma local_load h r : local h (fun _ => True) (load r).
Proof.
  intros acc. unfold load. destruct (nth_error (h ++ [acc]) r).
  - eexists _, acc. auto.
  - exists Unmodelled, acc. auto.
Qed.

Lemma local_contains h r obj : local h (fun _ => True) (OpResponse.__contains__ r obj).
Proof.
  unfold OpResponse.__contains__.
  eapply local_bind; [apply local_load|]. intros objs _. now apply local_ret.
Qed.

Lemma local_add h obj : local h (fun _ => True) (OpResponse.add (List.length h) obj).
Proof. intros acc. rewrite add_last. eexists _, _. auto. Qed.

Lemma local_for_each {A} h (l : list A) body :
  (forall x, local h (fun _ => True) (body x)) ->
  local h (fun _ => True) (for_each l body).
Proof.
  intros Hbody. induction l as [|x l IH]; cbn [for_each].
  - now apply local_ret.
  - eapply local_bind; [apply Hbody | auto].
Qed.

(** A method that starts by allocating its response and then stays local
    extends the store by that response. *)
Lemma new_then_local {A} h (Q : A -> Prop) (k : ref -> M A) :
  local h Q (k (List.length h)) ->
  exists o res,
    bind (OpResponse.__init__ None) k h = (o, h ++ [res])
    /\ forall a, o = Ok a -> Q a.
Proof. intros Hk. apply (Hk []). Qed.

Lemma and_frame self other h :
  exists o res,
    OpResponse.__and__ self other h = (o, h ++ [res])
    /\ forall r, o = Ok r -> r = List.length h.
Proof.
  apply new_then_local. unfold OpResponse.__iter__.
  eapply local_bind; [apply local_load|]. intros objs _.
  eapply local_bind; [|intros; now apply local_ret].
  apply local_for_each. intros obj.
  eapply local_bind; [apply local_contains|]. intros [] _; [apply local_add | now apply local_ret].
Qed.

Lemma or_frame self other h :
  exists o res,
    OpResponse.__or__ self other h = (o, h ++ [res])
    /\ forall r, o = Ok r -> r = List.length h.
Proof.
  apply new_then_local. unfold OpResponse.__iter__.
  eapply local_bind; [apply local_load|]. intros objs _.
  eapply local_bind.
  { apply local_for_each. intros obj.
    eapply local_bind; [apply local_contains|]. intros found _. apply local_add. }
  intros _ _. eapply local_bind; [apply local_load|]. intros objs' _.
  eapply local_bind; [|intros; now apply local_ret].
  apply local_for_each. intros obj.
  eapply local_bind; [apply local_contains|].
  intros [] _; cbn [negb]; [now apply local_ret | apply local_add].
Qed.

Lemma filter_frame self tag cmp_func h :
  exists o res,
    OpResponse.filter self tag cmp_func h = (o, h ++ [res])
    /\ forall r, o = Ok r -> r = List.length h.
Proof.
  apply new_then_local. unfold OpResponse.__iter__.
  eapply local_bind; [apply local_load|]. intros objs _.
  eapply local_bind; [|intros; now apply local_ret].
  apply local_for_each. intros obj.
  destruct (OpResponse._find_value_by_key obj tag) as [v|[]|];
    try apply local_lift; try now apply local_ret.
  eapply local_bind; [apply local_lift|].
  intros [] _; [apply local_add | now apply local_ret].
Qed.

Lemma fuzzy_frame self cmp_func h :
  exists o res,
    OpResponse.fuzzy self cmp_func h = (o, h ++ [res])
    /\ forall r, o = Ok r -> r = List.length h.
Proof.
  apply new_then_local. unfold OpResponse.__iter__.
  eapply local_bind; [apply local_load|]. intros objs _.
  eapply local_bind; [|intros; now apply local_ret].
  apply local_for_each. intros obj.
  eapply local_bind; [apply local_lift|].
  intros [] _; [apply local_add | now apply local_ret].
Qed.

(** ** The evaluator extends the store *)

Lemma unchanged_app (h : heap) ext : unchanged h (h ++ ext).
Proof. intros r objs H. now apply nth_error_old. Qed.

Lemma new_at_end (h : heap) : nth_error h (List.length h) = None.
Proof. apply nth_error_None. lia. Qed.

Lemma evaluate_frame e : forall objects h,
  exists o ext,
    OpDatabase.evaluate objects e h = (o, h ++ ext) /\ new_in h o.
Proof.
  induction e as [name value|value|l IHl r IHr|l IHl r IHr]; intros objects h.
  - destruct (filter_frame objects name (OpFilter_match value) h) as (o & res & E & Hr).
    exists o, [res]. split; [assumption|].
    destruct o; cbn; auto. rewrite (Hr a eq_refl). apply new_at_end.
  - destruct (fuzzy_frame objects (OpFuzzy_match value) h) as (o & res & E & Hr).
    exists o, [res]. split; [assumption|].
    destruct o; cbn; auto. rewrite (Hr a eq_refl). apply new_at_end.
  - cbn [OpDatabase.evaluate]. unfold bind at 1.
    destruct (IHl objects h) as (o1 & ext1 & E1 & _). rewrite E1.
    destruct o1 as [left|e|]; [|exists (Raise e), ext1; cbn; auto|exists Unmodelled, ext1; cbn; auto].
    unfold bind at 1.
    destruct (IHr objects (h ++ ext1)) as (o2 & ext2 & E2 & _). rewrite E2.
    rewrite <- app_assoc.
    destruct o2 as [right|e|]; [|exists (Raise e), (ext1 ++ ext2); cbn; auto|exists Unmodelled, (ext1 ++ ext2); cbn; auto].
    destruct (or_frame left right (h ++ ext1 ++ ext2)) as (o & res & E & Hr).
    exists o, (ext1 ++ ext2 ++ [res]). rewrite E, <- !app_assoc. split; [reflexivity|].
    destruct o; cbn; auto. rewrite (Hr a eq_refl).
    apply nth_error_None. rewrite !length_app. lia.
  - cbn [OpDatabase.evaluate]. unfold bind at 1.
    destruct (IHl objects h) as (o1 & ext1 & E1 & _). rewrite E1.
    destruct o1 as [left|e|]; [|exists (Raise e), ext1; cbn; auto|exists Unmodelled, ext1; cbn; auto].
    unfold bind at 1.
    destruct (IHr objects (h ++ ext1)) as (o2 & ext2 & E2 & _). rewrite E2.
    rewrite <- app_assoc.
    destruct o2 as [right|e|]; [|exists (Raise e), (ext1 ++ ext2); cbn; auto|exists Unmodelled, (ext1 ++ ext2); cbn; auto].
    destruct (and_frame left right (h ++ ext1 ++ ext2)) as (o & res & E & Hr).
    exists o, (ext1 ++ ext2 ++ [res]). rewrite E, <- !app_assoc. split; [reflexivity|].
    destruct o; cbn; auto. rewrite (Hr a eq_refl).
    apply nth_error_None. rewrite !length_app. lia.
Qed.

Lemma init_frame source h :
  exists o ext, OpResponse.__init__ source h = (o, h ++ ext) /\ new_in h o.
Proof.
  destruct source as [[l|r]|]; cbn [OpResponse.__init__ OpResponse.iter].
  - exists (Ok (List.length h)), [l]. split; [reflexivity | apply new_at_end].
  - unfold bind, load. destruct (nth_error h r) as [objs|].
    + exists (Ok (List.length h)), [objs]. split; [reflexivity | apply new_at_end].
    + exists Unmodelled, []. rewrite app_nil_r. split; [reflexivity | exact I].
  - exists (Ok (List.length h)), [[]]. split; [reflexivity | apply new_at_end].
Qed.

Lemma raw_query_frame self tql h :
  exists o ext, OpDatabase.raw_query self tql h = (o, h ++ ext).
Proof.
  destruct tql as [text|]; cbn [OpDatabase.raw_query].
  - unfold bind at 1, lift.
    destruct (OpTqlParser.parse text) as [ast|e|];
      [|exists (Raise e), []; now rewrite app_nil_r
       |exists Unmodelled, []; now rewrite app_nil_r].
    unfold OpDatabase._evaluate_ast, bind at 1.
    destruct (init_frame (Some (OpDatabase._objects self)) h) as (o1 & ext1 & E1 & _).
    rewrite E1. destruct o1 as [objects|e|]; [|now eexists _, _|now eexists _, _].
    unfold OpDatabase._evaluate_expression.
    destruct (expression ast) as [e|]; [|now eexists _, _].
    unfold bind. destruct (evaluate_frame e objects (h ++ ext1)) as (o2 & ext2 & E2 & _).
    rewrite E2, <- app_assoc. destruct o2; now eexists _, _.
  - unfold bind.
    destruct (init_frame (Some (OpDatabase._objects self)) h) as (o1 & ext1 & E1 & _).
    rewrite E1. destruct o1; now eexists _, _.
Qed.

(** ** The run stays in the model *)

Section ParserShapes.
Import OpTqlLexer OpTqlParser Shape.

Lemma compile_anchored v :
  good_literal v = true ->
  re.compile (list_ascii_of_string (anchored v))
  = Some (re.One re.Caret :: pieces (py_str v) ++ [re.One re.Dollar]).
Proof.
  intros Hv.
  assert (Spec.all_chars OpTqlLexer.string_char (py_str v) = true) as Hp.
  { destruct v as [n|s]; [|exact Hv]. apply plain_string_char, number_plain. }
  unfold anchored. cbn [append list_ascii_of_string re.compile].
  destruct (head_of_literal (py_str v)) as (c & r & Hhead & Hc).
  pose proof (compile_literal _ Hp) as Hcomp. rewrite Hhead in *.
  change (re.special "^" || is_char "*" "^") with false.
  cbn iota. rewrite Hc. change (re.atom_of "^") with re.Caret.
  now rewrite Hcomp.
Qed.

Lemma anchored_compiles v : good_literal v = true -> compiles (anchored v) = true.
Proof. intros Hv. unfold compiles. now rewrite compile_anchored. Qed.

Ltac split_ands :=
  repeat match goal with
    | H : _ && _ = true |- _ => apply andb_prop in H; destruct H
    | H : _ || _ = true |- _ => apply orb_prop in H; destruct H
    end.

(** Opens the top entry of a valid stack: its value and the state below. *)
Ltac open_top H :=
  match type of H with
  | valid ((?q, ?v) :: ?below) = true =>
      let E := fresh "Hentry" in
      let V := fresh "Hbelow" in
      cbn [valid] in H; apply andb_prop in H; destruct H as [E V];
      destruct v as [[?|?]|?|?]; try discriminate E;
      (destruct below as [|[? ?] ?]; cbn [current] in E;
       [|match type of E with
         | context [entry_ok ?q2 _ _] => destruct q2
         end]);
      try discriminate E; cbn [entry_ok opening state_eqb andb orb] in E
  end.

Ltac use_hyps :=
  repeat match goal with
    | H : ?x = true |- context [?x] => rewrite H
    end.

Lemma valid_cons q v st :
  valid ((q, v) :: st) = entry_ok (current st) q v && valid st.
Proof. reflexivity. Qed.

Ltac close_reduction :=
  repeat match goal with
    | H : String.eqb _ _ = true |- _ => apply String.eqb_eq in H; subst
    end;
  eexists; split; [reflexivity|]; split; [|cbn; lia];
  rewrite valid_cons;
  cbn [skipn rhs_length current entry_ok state_eqb opening andb orb];
  cbn [expr_compiles new_OpFuzzy new_OpFilter ast_compiles expression];
  split_ands; rewrite ?anchored_compiles by assumption;
  use_hyps; reflexivity.

Ltac open_next :=
  match goal with
  | H : valid (_ :: _) = true |- _ => open_top H
  end.

Lemma reduction_valid st la p :
  valid st = true ->
  lr_action (current st) la = reduce p ->
  exists st',
    reduction p st = Some st' /\ valid st' = true
    /\ rank (current st') < rank (current st).
Proof.
  intros Hv Ha. destruct st as [|[q v] st].
  - destruct la as [[]|]; discriminate.
  - cbn [current] in Ha.
    destruct q; destruct la as [[]|]; try discriminate Ha;
      cbn in Ha; injection Ha as <-.
    all: open_next; try (close_reduction; fail).
    all: open_next; try (close_reduction; fail).
    all: open_next; try (close_reduction; fail).
Qed.

Lemma reductions_valid la : forall n st,
  valid st = true -> rank (current st) < n ->
  exists a st',
    reductions n st la = Some (a, st') /\ valid st' = true
    /\ lr_action (current st') la = a /\ forall p, a <> reduce p.
Proof.
  induction n as [|n IH]; intros st Hv Hr; [lia|].
  cbn [reductions]. destruct (lr_action (current st) la) as [q|p| |] eqn:Ha.
  - exists (shift q), st. repeat split; auto; discriminate.
  - destruct (reduction_valid st la p Hv Ha) as (st' & -> & Hv' & Hr').
    apply IH; [assumption | lia].
  - exists accept, st. repeat split; auto; discriminate.
  - exists error, st. repeat split; auto; discriminate.
Qed.

Lemma settle_valid st la :
  valid st = true ->
  exists a st',
    settle st la = Some (a, st') /\ valid st' = true
    /\ lr_action (current st') la = a /\ forall p, a <> reduce p.
Proof.
  intros Hv. apply reductions_valid; [assumption|].
  destruct (current st); cbn; lia.
Qed.

Lemma shift_valid st t q :
  valid st = true -> good_token t = true ->
  lr_action (current st) (Some (type t)) = shift q ->
  valid ((q, TokenVal (value t)) :: st) = true.
Proof.
  intros Hv Ht Ha. rewrite valid_cons, Hv, andb_true_r.
  destruct t as [ty v]. unfold good_token in Ht. cbn [type value] in *.
  destruct (current st); destruct ty; try discriminate Ha;
    cbn in Ha; injection Ha as <-;
    destruct v as [n|s]; try discriminate Ht;
    cbn [entry_ok opening state_eqb good_literal andb orb]; auto.
Qed.

Lemma accept_shape st :
  valid st = true -> lr_action (current st) None = accept ->
  exists ast rest, st = (q_input, AstVal ast) :: rest /\ ast_compiles ast = true.
Proof.
  intros Hv Ha. destruct st as [|[q v] rest]; [discriminate|].
  cbn [current] in Ha. destruct q; try discriminate Ha.
  rewrite valid_cons in Hv. apply andb_prop in Hv. destruct Hv as [He _].
  destruct v as [t|e|a]; try discriminate He.
  exists a, rest. split; [reflexivity|].
  cbn [entry_ok] in He. now apply andb_prop in He.
Qed.

(** The parser always returns a tree whose patterns compile, or raises
    [ParsingError]. *)
Lemma parse_loop_total : forall toks st,
  forallb good_token toks = true -> valid st = true ->
  match parse_loop toks st with
  | Ok ast => ast_compiles ast = true
  | Raise (ParsingError _) => True
  | _ => False
  end.
Proof.
  induction toks as [|t rest IH]; intros st Ht Hv; cbn [parse_loop].
  - destruct (settle_valid st None Hv) as (a & st' & -> & Hv' & Ha & Hnr).
    destruct a as [q|p| |].
    + destruct (current st') as []; discriminate Ha.
    + now destruct (Hnr p).
    + destruct (accept_shape st' Hv' Ha) as (ast & more & -> & Hast). exact Hast.
    + exact I.
  - cbn [forallb] in Ht. apply andb_prop in Ht. destruct Ht as [Hgood Hrest].
    destruct (settle_valid st (Some (type t)) Hv) as (a & st' & -> & Hv' & Ha & Hnr).
    destruct a as [q|p| |].
    + apply IH; [assumption|]. now apply shift_valid.
    + now destruct (Hnr p).
    + destruct (current st') as []; destruct (type t); discriminate Ha.
    + exact I.
Qed.

(** *** The lexer makes good tokens *)

Lemma span_all p s : forallb p (fst (span p s)) = true.
Proof.
  induction s as [|c rest IH]; [reflexivity|].
  cbn [span]. destruct (p c) eqn:E; [|reflexivity].
  destruct (span p rest) as [run tl]. cbn [fst forallb] in *. now rewrite E.
Qed.

Lemma all_chars_of_list p cs :
  forallb p cs = true -> Spec.all_chars p (string_of_list_ascii cs) = true.
Proof. unfold Spec.all_chars. now rewrite list_ascii_of_string_of_list_ascii. Qed.

Lemma name_is_string_char c : name_char c = true -> string_char c = true.
Proof.
  unfold name_char, string_char. intros H. apply orb_prop in H.
  destruct H as [-> | ->]; [reflexivity | apply orb_true_r].
Qed.

Lemma scan_good c rest t n :
  scan c rest = (Some t, n) -> good_token t = true.
Proof.
  unfold scan.
  destruct (ignored c); [discriminate|].
  destruct (is_digit c).
  { destruct (span is_digit (c :: rest)). now intros [= <- _]. }
  destruct (is_char dquote c).
  { pose proof (span_all string_char rest) as Hall.
    destruct (span string_char rest) as [body after]. cbn [fst] in Hall.
    destruct body as [|b body]; [discriminate|].
    destruct after as [|q after]; [discriminate|].
    destruct (is_char dquote q); [|discriminate].
    intros [= <- _]. exact (all_chars_of_list string_char (b :: body) Hall). }
  destruct (is_char newline c).
  { destruct (span (is_char newline) (c :: rest)). discriminate. }
  destruct (name_char c).
  { pose proof (span_all name_char (c :: rest)) as Hall.
    destruct (span name_char (c :: rest)) as [cs tl]. cbn [fst] in Hall.
    intros [= <- _]. apply (all_chars_of_list string_char cs).
    rewrite forallb_forall in *. intros x Hx. apply name_is_string_char. auto. }
  repeat match goal with
    | |- (if ?b then _ else _) = _ -> _ => destruct b; [now intros [= <- _]|]
    end.
  discriminate.
Qed.

Lemma tokens_from_good s : forall skip,
  forallb good_token (tokens_from s skip) = true.
Proof.
  induction s as [|c rest IH]; intros skip; [reflexivity|].
  cbn [tokens_from]. destruct skip as [|k]; [|apply IH].
  destruct (scan c rest) as [[t|] n] eqn:E; [|apply IH].
  cbn [forallb]. now rewrite (scan_good _ _ _ _ E), IH.
Qed.

Lemma parse_total text :
  match parse text with
  | Ok ast => ast_compiles ast = true
  | Raise (ParsingError _) => True
  | _ => False
  end.
Proof. apply parse_loop_total; [apply tokens_from_good | reflexivity]. Qed.

End ParserShapes.

(** *** Evaluation stays in the model *)

Lemma match_compiles pattern s ignorecase :
  compiles pattern = true -> exists b, re.match_ pattern s ignorecase = Ok b.
Proof.
  unfold compiles, re.match_.
  destruct (re.compile (list_ascii_of_string pattern)); [eauto | discriminate].
Qed.

Lemma find_value_in_total cmp_func :
  (forall v, exists b, cmp_func v = Ok b) ->
  forall val, exists b, OpResponse._find_value_in cmp_func val = Ok b.
Proof.
  intros Hcmp val.
  induction val as [| | | |elems IH|items IH] using value_nested_ind;
    cbn [OpResponse._find_value_in]; eauto.
  - induction IH as [|x l [b Hx] _ [b' IHl]]; [eauto|].
    rewrite Hx. destruct b; eauto.
  - induction IH as [|[k x] l [b Hx] _ [b' IHl]]; [eauto|].
    cbn [snd] in Hx. rewrite Hx. destruct b; eauto.
Qed.

Lemma find_value_total cmp_func :
  (forall v, exists b, cmp_func v = Ok b) ->
  forall vals, exists b, OpResponse._find_value vals cmp_func = Ok b.
Proof.
  intros Hcmp vals. induction vals as [|val more [b' IH]]; [cbn; eauto|].
  cbn [OpResponse._find_value].
  destruct (find_value_in_total cmp_func Hcmp val) as [b ->]. destruct b; eauto.
Qed.


Lemma filter_step_plain tag pattern obj :
  compiles pattern = true ->
  plain_outcome (filter_step tag (OpFilter_match pattern) obj).
Proof.
  intros Hc. unfold filter_step.
  destruct (OpResponse._find_value_by_key obj tag) as [v|[]|] eqn:E; cbn; auto.
  - destruct v; cbn; auto.
    destruct (match_compiles pattern s false Hc) as [b ->]. exact I.
  - revert E. unfold OpResponse._find_value_by_key.
    generalize (VDict obj) as d. generalize (str_split "." tag) as keys.
    induction keys as [|key more IH]; intros d; cbn [OpResponse.walk]; [discriminate|].
    unfold subscript at 1. destruct d; try discriminate.
    destruct (dict_get key items); [apply IH | discriminate].
  - revert E. unfold OpResponse._find_value_by_key.
    generalize (VDict obj) as d. generalize (str_split "." tag) as keys.
    induction keys as [|key more IH]; intros d; cbn [OpResponse.walk]; [discriminate|].
    unfold subscript at 1. destruct d; try discriminate.
    destruct (dict_get key items); [apply IH | discriminate].
Qed.

Lemma fuzzy_step_plain pattern obj :
  compiles pattern = true ->
  plain_outcome (fuzzy_step (OpFuzzy_match pattern) obj).
Proof.
  intros Hc. unfold fuzzy_step.
  destruct (find_value_total (OpFuzzy_match pattern)
              (fun v => match_compiles pattern (format v) true Hc)
              (dict_values obj)) as [b ->].
  exact I.
Qed.

Lemma collect_plain step :
  (forall acc obj, plain_outcome (step acc obj)) ->
  forall objs acc, plain_outcome (fst (collect step objs acc)).
Proof.
  intros Hstep objs. induction objs as [|obj more IH]; intros acc; [exact I|].
  cbn [collect]. specialize (Hstep acc obj).
  destruct (step acc obj) as [[x|]|[]|]; cbn in *; auto; contradiction.
Qed.


Lemma in_heap (h : heap) r : r < List.length h -> exists objs, nth_error h r = Some objs.
Proof.
  intros Hr. destruct (nth_error h r) eqn:E; [eauto|].
  apply nth_error_None in E. lia.
Qed.

Lemma evaluate_modelled e : expr_compiles e = true ->
  forall objects h, objects < List.length h ->
  exists o ext,
    OpDatabase.evaluate objects e h = (o, h ++ ext) /\ returned_in (h ++ ext) o.
Proof.
  induction e as [name value|value|l IHl r IHr|l IHl r IHr];
    cbn [expr_compiles]; intros Hc objects h Hobj.
  - destruct (in_heap h objects Hobj) as [A HA].
    cbn [OpDatabase.evaluate]. rewrite (filter_run _ _ _ _ _ HA).
    eexists _, [_]. split; [reflexivity|].
    pose proof (collect_plain (fun _ => filter_step name (OpFilter_match value))
                  (fun _ obj => filter_step_plain name value obj Hc) A []) as Hp.
    destruct (fst (collect _ A [])) as [[]|[]|]; cbn in *; try contradiction; auto.
    rewrite length_app. cbn. lia.
  - destruct (in_heap h objects Hobj) as [A HA].
    cbn [OpDatabase.evaluate]. rewrite (fuzzy_run _ _ _ _ HA).
    eexists _, [_]. split; [reflexivity|].
    pose proof (collect_plain (fun _ => fuzzy_step (OpFuzzy_match value))
                  (fun _ obj => fuzzy_step_plain value obj Hc) A []) as Hp.
    destruct (fst (collect _ A [])) as [[]|[]|]; cbn in *; try contradiction; auto.
    rewrite length_app. cbn. lia.
  - apply andb_prop in Hc. destruct Hc as [Hl Hr].
    cbn [OpDatabase.evaluate]. unfold bind at 1.
    destruct (IHl Hl objects h Hobj) as (o1 & ext1 & -> & R1).
    destruct o1 as [left|[]|]; cbn in R1; try contradiction;
      [|exists (Raise TypeError), ext1; cbn; auto].
    unfold bind at 1.
    destruct (IHr Hr objects (h ++ ext1)) as (o2 & ext2 & -> & R2);
      [rewrite length_app; lia|].
    destruct o2 as [right|[]|]; cbn in R2; try contradiction;
      [|exists (Raise TypeError), (ext1 ++ ext2); rewrite app_assoc; cbn; auto].
    destruct (in_heap _ left R1) as [A HA]. destruct (in_heap _ right R2) as [B HB].
    rewrite (or_run _ _ _ _ _ (nth_error_old _ ext2 _ _ HA) HB).
    eexists _, (ext1 ++ ext2 ++ [_]). rewrite <- !app_assoc. split; [reflexivity|].
    cbn. rewrite !length_app. cbn. lia.
  - apply andb_prop in Hc. destruct Hc as [Hl Hr].
    cbn [OpDatabase.evaluate]. unfold bind at 1.
    destruct (IHl Hl objects h Hobj) as (o1 & ext1 & -> & R1).
    destruct o1 as [left|[]|]; cbn in R1; try contradiction;
      [|exists (Raise TypeError), ext1; cbn; auto].
    unfold bind at 1.
    destruct (IHr Hr objects (h ++ ext1)) as (o2 & ext2 & -> & R2);
      [rewrite length_app; lia|].
    destruct o2 as [right|[]|]; cbn in R2; try contradiction;
      [|exists (Raise TypeError), (ext1 ++ ext2); rewrite app_assoc; cbn; auto].
    destruct (in_heap _ left R1) as [A HA]. destruct (in_heap _ right R2) as [B HB].
    rewrite (and_run _ _ _ _ _ (nth_error_old _ ext2 _ _ HA) HB).
    eexists _, (ext1 ++ ext2 ++ [_]). rewrite <- !app_assoc. split; [reflexivity|].
    cbn. rewrite !length_app. cbn. lia.
Qed.

Lemma query_text objs text :
  query objs (Some text)
  = match OpTqlParser.parse text with
    | Ok ast =>
        match expression ast with
        | Some e => contents_of (OpDatabase.evaluate 1 e [objs; objs])
        | None => Raise TypeError
        end
    | Raise e => Raise e
    | Unmodelled => Unmodelled
    end.
Proof.
  unfold query, OpDatabase.raw_query, OpDatabase._evaluate_ast,
    OpDatabase._evaluate_expression, OpResponse.__init__, OpResponse.iter,
    OpResponse.__iter__, bind, ret, lift, alloc, load, contents_of.
  cbn [app List.length nth_error OpDatabase._objects fst].
  destruct (OpTqlParser.parse text) as [ast|e|]; try reflexivity.
  cbn [app List.length nth_error OpDatabase._objects fst].
  destruct (expression ast) as [e|]; [|reflexivity].
  destruct (OpDatabase.evaluate 1 e [objs; objs]) as [[r|e'|] h']; try reflexivity.
  destruct (nth_error h' r); reflexivity.
Qed.

(** X25: a query over any records, in any text, returns records or raises
    [ParsingError] or [TypeError]: the run never leaves the model, and no
    [KeyError] escapes. *)
Theorem query_stays_in_the_model objs tql :
  match query objs tql with
  | Ok _ | Raise (ParsingError _) | Raise TypeError => True
  | _ => False
  end.
Proof.
  destruct tql as [text|]; [|exact I]. rewrite query_text.
  pose proof (parse_total text) as Hp.
  destruct (OpTqlParser.parse text) as [ast|[]|]; try contradiction; auto.
  unfold ast_compiles in Hp. destruct (expression ast) as [e|]; [|exact I].
  destruct (evaluate_modelled e Hp 1 [objs; objs]) as (o & ext & -> & R); [cbn; lia|].
  unfold contents_of, returned_in in *.
  destruct o as [r|[]|]; try contradiction; auto.
  destruct (in_heap _ r R) as [res ->]. exact I.
Qed.

(** ** The claims about the parser and the leaves *)

(** *** The parser *)

Lemma parse_tail more : forall acc,
  OpTqlParser.parse_loop (Chain.tail_tokens more) [(OpTqlParser.q_expr, OpTqlParser.ExprVal acc)]
  = Ok {| expression := Some (Chain.group_left acc more) |}.
Proof.
  induction more as [|[op l] more IH]; intros acc.
  - reflexivity.
  - destruct more as [|[op' l'] more'].
    + destruct op, l; reflexivity.
    + specialize (IH (Chain.node op acc (Chain.leaf_expr l))).
      destruct op, l, op'; exact IH.
Qed.

Lemma parse_chain first more :
  OpTqlParser.parse_loop (Chain.chain_tokens first more) []
  = Ok {| expression := Some (Chain.group_left (Chain.leaf_expr first) more) |}.
Proof.
  rewrite <- parse_tail.
  destruct more as [|[op l] more]; destruct first; try destruct op; reflexivity.
Qed.

(** C3, as the specification states it, fails on its second example: a
    bare word after [=] is a NAME, and the grammar wants a STRING or a
    NUMBER there. *)
Lemma unquoted_filter_is_rejected :
  OpTqlParser.parse "name=a|name=b&name=c"
  = Raise (ParsingError (Some (StrVal "a"))).
Proof. reflexivity. Qed.

(** C3 (amended): OR and AND share one precedence level and associate to
    the left, so a chain of leaves without parentheses groups from the
    left, whatever the operators; [a&b|c] parses as [(a&b)|c], and
    [name="a"|name="b"&name="c"] as [(name="a"|name="b")&name="c"]. *)
Theorem operators_group_left :
  OpTqlParser.prec OpTqlLexer.OR = OpTqlParser.prec OpTqlLexer.AND
  /\ fst (OpTqlParser.prec OpTqlLexer.OR) = OpTqlParser.Left
  /\ (forall first more,
        OpTqlParser.parse_loop (Chain.chain_tokens first more) []
        = Ok {| expression := Some (Chain.group_left (Chain.leaf_expr first) more) |})
  /\ OpTqlParser.parse "a&b|c"
     = Ok {| expression :=
               Some (OpUnionOperator
                       (OpIntersectionOperator (OpFuzzy "^a$") (OpFuzzy "^b$"))
                       (OpFuzzy "^c$")) |}
  /\ OpTqlParser.parse "a&b|c" = OpTqlParser.parse "(a&b)|c"
  /\ OpTqlParser.parse
       ("name=" ++ quoted "a" ++ "|name=" ++ quoted "b" ++ "&name=" ++ quoted "c")
     = Ok {| expression :=
               Some (OpIntersectionOperator
                       (OpUnionOperator (OpFilter "name" "^a$") (OpFilter "name" "^b$"))
                       (OpFilter "name" "^c$")) |}
  /\ OpTqlParser.parse
       ("name=" ++ quoted "a" ++ "|name=" ++ quoted "b" ++ "&name=" ++ quoted "c")
     = OpTqlParser.parse
         ("(name=" ++ quoted "a" ++ "|name=" ++ quoted "b" ++ ")&name=" ++ quoted "c").
Proof.
  repeat split; try reflexivity. apply parse_chain.
Qed.

(** C1: the empty query.  The grammar has no empty alternative for
    [input], so the end of the input in the first state is a syntax error;
    and an AST without expression, were one built, evaluates to [None],
    not to a collection.  Only [raw_query(None)] returns the copy of the
    whole collection. *)
Theorem empty_query_is_a_syntax_error :
  OpTqlParser.parse "" = Raise (ParsingError None)
  /\ (forall objs, query objs (Some "") = Raise (ParsingError None))
  /\ (forall objs h,
        OpDatabase._evaluate_ast
          {| OpDatabase._objects := OpResponse.PyList objs |}
          {| expression := None |} h
        = (Ok None, h ++ [objs]))
  /\ (forall objs, query objs None = Ok objs).
Proof. repeat split. Qed.

(** *** Leaves *)



(** C6, as the specification states it, fails three ways: a dot of the
    literal matches any character; a fuzzy leaf ignores case; and a
    newline in the target is neither matched by a star nor, when it is the
    last character, required by the end of the pattern. *)
Lemma anchored_pattern_is_not_literal :
  OpFilter_match (anchored (StrVal "a.b")) (VStr "axb") = Ok true
  /\ Spec.whole_match false "a.b" (list_ascii_of_string "axb") = false
  /\ OpFuzzy_match (anchored (StrVal "git")) (SStr "GIT") = Ok true
  /\ Spec.whole_match false "git" (list_ascii_of_string "GIT") = false
  /\ OpFilter_match (anchored (StrVal "a")) (VStr (String "a" (String newline ""))) = Ok true
  /\ Spec.whole_match false "a" ["a"; newline]%char = false
  /\ OpFilter_match (anchored (StrVal "a*")) (VStr (String "a" (String newline "b"))) = Ok false
  /\ Spec.whole_match false "a*" ["a"; newline; "b"]%char = true.
Proof. repeat split. Qed.

(** C6 (amended): for a literal without a dot and a target without a
    newline, the pattern of a leaf matches exactly when the literal, each
    [*] standing for any sequence of characters and every other character
    for itself, accounts for the whole target; a fuzzy leaf compares
    letters without regard to case. *)
Theorem anchored_matches_whole_target (literal : token_value) (target : string) :
  Spec.all_chars Spec.plain (py_str literal) = true ->
  Spec.one_line target = true ->
  OpFilter_match (anchored literal) (VStr target)
  = Ok (Spec.whole_match false (py_str literal) (list_ascii_of_string target))
  /\ OpFuzzy_match (anchored literal) (SStr target)
     = Ok (Spec.whole_match true (py_str literal) (list_ascii_of_string target)).
Proof.
  intros Hp Hl. split.
  - now apply match_anchored.
  - unfold OpFuzzy_match. now apply match_anchored.
Qed.

Lemma anchored_matches_whole_target_witness :
  OpFilter_match (anchored (StrVal "Git*")) (VStr "Github")
  = Ok (Spec.whole_match false "Git*" (list_ascii_of_string "Github"))
  /\ OpFuzzy_match (anchored (StrVal "Git*")) (SStr "Github")
     = Ok (Spec.whole_match true "Git*" (list_ascii_of_string "Github")).
Proof.
  apply (anchored_matches_whole_target (StrVal "Git*") "Github"); reflexivity.
Defined.

(** C7: a filter with a numeric literal.  [OpFilter.match] hands the field
    value to [re.match] without turning it into a string, as
    [OpFuzzy.match] does: a field that holds the number 5 raises
    [TypeError] instead of matching [field=5].  A field that holds the
    string "5" matches, and so does one that holds "5" and a newline. *)
Theorem numeric_field_raises_TypeError :
  query [[("field", VInt 5)]] (Some "field=5") = Raise TypeError
  /\ (forall pattern z, OpFilter_match pattern (VInt z) = Raise TypeError)
  /\ query [[("field", VStr "5")]] (Some "field=5") = Ok [[("field", VStr "5")]]
  /\ query [[("field", VInt 5)]] (Some "5") = Ok [[("field", VInt 5)]]
  /\ OpFilter_match (anchored (IntVal 5)) (VStr (String "5" (String newline "")))
     = Ok true.
Proof. repeat split. Qed.

(** ** The claims about collections *)

(** *** Collections *)


Lemma collect_subset step :
  (forall acc obj x, step acc obj = Ok (Some x) -> x = obj) ->
  forall objs acc x,
    In x (snd (collect step objs acc)) ->
    In x acc \/ (In x objs /\ exists acc', step acc' x = Ok (Some x)).
Proof.
  intros Hstep objs. induction objs as [|obj more IH]; intros acc x Hin.
  - now left.
  - cbn [collect] in Hin. destruct (step acc obj) as [[y|]|e|] eqn:E; auto.
    + pose proof (Hstep _ _ _ E) as ->.
      destruct (IH _ _ Hin) as [Hacc|[Hm Hs]].
      * unfold add_to in Hacc. destruct (py_in obj acc); auto.
        apply in_app_or in Hacc. destruct Hacc as [|[<-|[]]]; auto.
        right. split; [now left | eauto].
      * right. split; [now right | assumption].
    + destruct (IH _ _ Hin) as [Hacc|[Hm Hs]]; auto.
      right. split; [now right | assumption].
Qed.

Lemma filter_step_keeps tag cmp_func obj x :
  filter_step tag cmp_func obj = Ok (Some x) -> x = obj /\ key_absent obj tag = false.
Proof.
  unfold filter_step, key_absent.
  destruct (OpResponse._find_value_by_key obj tag) as [v|[]|]; try discriminate.
  destruct (cmp_func v) as [[]|e|]; try discriminate. now intros [= ->].
Qed.









Lemma and_result h self other A B :
  nth_error h self = Some A -> nth_error h other = Some B ->
  unique A = true ->
  OpResponse.__and__ self other h
  = (Ok (List.length h), h ++ [List.filter (fun a => py_in a B) A]).
Proof.
  intros HA HB Hu. rewrite (and_run _ _ _ _ _ HA HB).
  rewrite collect_and by (auto; intros; reflexivity). reflexivity.
Qed.

Lemma or_result h self other A B :
  nth_error h self = Some A -> nth_error h other = Some B ->
  unique A = true -> unique B = true ->
  OpResponse.__or__ self other h
  = (Ok (List.length h), h ++ [B ++ List.filter (fun a => negb (py_in a B)) A]).
Proof.
  intros HA HB HuA HuB. rewrite (or_run _ _ _ _ _ HA HB).
  rewrite collect_or_first by (auto; intros; reflexivity). cbn [snd app].
  rewrite <- (app_nil_r B) at 1.
  rewrite collect_or_second by (auto; intros; reflexivity). reflexivity.
Qed.

Lemma filter_all {A} (p : A -> bool) l :
  (forall x, In x l -> p x = true) -> List.filter p l = l.
Proof.
  induction l as [|x l IH]; intros H; [reflexivity|].
  cbn [List.filter]. rewrite (H x) by now left. f_equal. apply IH.
  intros y Hy. apply H. now right.
Qed.

Lemma filter_none {A} (p : A -> bool) l :
  (forall x, In x l -> p x = false) -> List.filter p l = [].
Proof.
  induction l as [|x l IH]; intros H; [reflexivity|].
  cbn [List.filter]. rewrite (H x) by now left. apply IH.
  intros y Hy. apply H. now right.
Qed.


(** On a collection that breaks the uniqueness invariant, [add] drops the
    repetitions. *)
Example and_drops_repetitions :
  OpResponse.__and__ 0 1 [[github; github]; [github]]
  = (Ok 2, [[github; github]; [github]; [github]]).
Proof. reflexivity. Qed.

(** The scenario of the specification, with the literals quoted. *)
Example scenario :
  query [github; gitlab; email] (Some ("title=" ++ quoted "Git*")%string)
  = Ok [github; gitlab]
  /\ query [github; gitlab; email]
       (Some ("title=" ++ quoted "Git*" ++ "|title=" ++ quoted "Email")%string)
     = Ok [email; github; gitlab]
  /\ query [github; gitlab; email] (Some ("nothing.here=" ++ quoted "x")%string)
     = Ok [].
Proof. repeat split. Qed.

(** C5: the intersection of two collections is the records of the first
    that are in the second, in the order of the first.  The first
    collection satisfies the uniqueness invariant of the data model. *)
Theorem and_is_the_subsequence_of_self
  (h : heap) (self other : ref) (A B : list record) :
  nth_error h self = Some A ->
  nth_error h other = Some B ->
  unique A = true ->
  OpResponse.__and__ self other h
  = (Ok (List.length h), h ++ [List.filter (fun a => py_in a B) A]).
Proof. apply and_result. Qed.

Lemma and_is_the_subsequence_of_self_witness :
  OpResponse.__and__ 0 1 [[github; gitlab; email]; [email; github]]
  = (Ok 2, [[github; gitlab; email]; [email; github]; [github; email]]).
Proof.
  apply (and_is_the_subsequence_of_self
           [[github; gitlab; email]; [email; github]] 0 1
           [github; gitlab; email] [email; github]); reflexivity.
Defined.

(** C4: the union of two collections is the records of the second, in its
    order, then the records of the first that are not in the second, in
    the order of the first; a record of the first that is in the second
    does not come again.  Both collections satisfy the uniqueness
    invariant of the data model. *)
Theorem or_puts_other_first
  (h : heap) (self other : ref) (A B : list record) :
  nth_error h self = Some A ->
  nth_error h other = Some B ->
  unique A = true ->
  unique B = true ->
  OpResponse.__or__ self other h
  = (Ok (List.length h), h ++ [B ++ List.filter (fun a => negb (py_in a B)) A])
  /\ forall a, In a A -> py_in a B = true ->
       ~ In a (List.filter (fun a => negb (py_in a B)) A).
Proof.
  intros HA HB HuA HuB. split.
  - now apply or_result.
  - intros a _ HaB Hin. apply filter_In in Hin. destruct Hin as [_ Hn].
    rewrite HaB in Hn. discriminate.
Qed.

Lemma or_puts_other_first_witness :
  OpResponse.__or__ 0 1 [[github; gitlab]; [email; github]]
  = (Ok 2, [[github; gitlab]; [email; github]; [email; github; gitlab]]).
Proof.
  apply (proj1 (or_puts_other_first
                  [[github; gitlab]; [email; github]] 0 1
                  [github; gitlab] [email; github]
                  eq_refl eq_refl eq_refl eq_refl)).
Defined.

(** C10: union and intersection of a collection without duplicates with
    itself, or with a collection holding the same records, give back its
    records in their order.  The records are Python dicts: their keys are
    pairwise distinct. *)
Theorem or_and_idempotent (h : heap) (self other : ref) (A : list record) :
  nth_error h self = Some A ->
  nth_error h other = Some A ->
  well_formed_records A = true ->
  unique A = true ->
  OpResponse.__or__ self other h = (Ok (List.length h), h ++ [A])
  /\ OpResponse.__and__ self other h = (Ok (List.length h), h ++ [A]).
Proof.
  intros Hs Ho Hwf Hu.
  assert (forall a, In a A -> py_in a A = true) as Hin.
  { intros a Ha. apply py_in_self; [|assumption].
    unfold well_formed_records in Hwf. rewrite forallb_forall in Hwf. auto. }
  split.
  - rewrite (or_result _ _ _ _ _ Hs Ho Hu Hu).
    rewrite filter_none, app_nil_r; [reflexivity|].
    intros a Ha. now rewrite Hin.
  - rewrite (and_result _ _ _ _ _ Hs Ho Hu).
    now rewrite filter_all.
Qed.

Lemma or_and_idempotent_witness :
  OpResponse.__or__ 0 0 [[github; gitlab; email]]
  = (Ok 1, [[github; gitlab; email]; [github; gitlab; email]])
  /\ OpResponse.__and__ 0 0 [[github; gitlab; email]]
     = (Ok 1, [[github; gitlab; email]; [github; gitlab; email]]).
Proof.
  apply (or_and_idempotent [[github; gitlab; email]] 0 0 [github; gitlab; email]);
    reflexivity.
Defined.

(** ** The claims about the invariant and the store *)

Lemma heap_records_well_formed h r objs :
  well_formed_heap h = true -> nth_error h r = Some objs ->
  well_formed_records objs = true.
Proof.
  unfold well_formed_heap. rewrite forallb_forall. intros Hh Hr.
  apply Hh. eapply nth_error_In, Hr.
Qed.

Lemma nth_error_update_same (h : heap) r objs :
  (r < List.length h)%nat -> nth_error (update r objs h) r = Some objs.
Proof.
  revert r. induction h as [|x h IH]; intros [|r] Hr; cbn in *; try lia; auto.
  apply IH. lia.
Qed.

Lemma add_at h self objs obj :
  nth_error h self = Some objs ->
  exists h', OpResponse.add self obj h = (Ok tt, h')
             /\ nth_error h' self = Some (add_to objs obj).
Proof.
  intros Hs. unfold OpResponse.add, bind, load, add_to. rewrite Hs.
  destruct (py_in obj objs); cbn [negb].
  - exists h. auto.
  - unfold store.
    assert (self < List.length h)%nat as Hlt by (apply nth_error_Some; congruence).
    rewrite (proj2 (Nat.ltb_lt _ _) Hlt).
    eexists. split; [reflexivity|]. now apply nth_error_update_same.
Qed.

Lemma filter_step_same tag cmp_func (acc : list record) obj x :
  filter_step tag cmp_func obj = Ok (Some x) -> x = obj.
Proof. intros H. now apply filter_step_keeps in H. Qed.

Lemma fuzzy_step_same cmp_func (acc : list record) obj x :
  fuzzy_step cmp_func obj = Ok (Some x) -> x = obj.
Proof.
  unfold fuzzy_step.
  destruct (OpResponse._find_value (dict_values obj) cmp_func) as [[]|e|];
    try discriminate. now intros [= ->].
Qed.

Lemma and_step_same B (acc : list record) obj x :
  and_step B acc obj = Ok (Some x) -> x = obj.
Proof. unfold and_step, dict_copy. destruct (py_in obj B); [now intros [= ->] | discriminate]. Qed.

Lemma or_first_step_same A (acc : list record) obj x :
  or_first_step A acc obj = Ok (Some x) -> x = obj.
Proof. unfold or_first_step, dict_copy. destruct (py_in obj A); now intros [= ->]. Qed.

Lemma or_second_step_same (acc : list record) obj x :
  or_second_step acc obj = Ok (Some x) -> x = obj.
Proof.
  unfold or_second_step. destruct (negb (py_in obj acc)); [now intros [= ->] | discriminate].
Qed.

(** C8, as the specification states it, fails for construction:
    [OpResponse(copy_from)] takes the records of its source as they come,
    and a source with twice the same record gives a collection with twice
    that record. *)
Lemma construction_keeps_duplicates :
  OpResponse.__init__ (Some (OpResponse.PyList [github; github])) []
  = (Ok 0, [[github; github]])
  /\ record_eq github github = true
  /\ unique [github; github] = false
  /\ query [github; github] None = Ok [github; github].
Proof. repeat split. Qed.

(** C8 (amended): [add] keeps a collection free of duplicates, and the
    collections that [filter], [fuzzy], [__or__] and [__and__] build are
    free of duplicates whatever their arguments hold; construction and
    [copy] give the records of their source, as many times as the source
    has them. *)
Theorem operations_keep_collections_unique (h : heap) :
  well_formed_heap h = true ->
  (forall source,
     OpResponse.__init__ (Some (OpResponse.PyList source)) h
     = (Ok (List.length h), h ++ [source])
     /\ (unique source = true -> duplicate_free source))
  /\ (forall self objs,
        nth_error h self = Some objs ->
        OpResponse.copy self h = (Ok (List.length h), h ++ [objs])
        /\ (unique objs = true -> duplicate_free objs))
  /\ (forall self objs obj,
        nth_error h self = Some objs ->
        unique objs = true ->
        well_formed_record obj = true ->
        exists h' objs',
          OpResponse.add self obj h = (Ok tt, h')
          /\ nth_error h' self = Some objs'
          /\ duplicate_free objs')
  /\ (forall self objs tag cmp_func,
        nth_error h self = Some objs ->
        exists o res,
          OpResponse.filter self tag cmp_func h = (o, h ++ [res])
          /\ duplicate_free res)
  /\ (forall self objs cmp_func,
        nth_error h self = Some objs ->
        exists o res,
          OpResponse.fuzzy self cmp_func h = (o, h ++ [res])
          /\ duplicate_free res)
  /\ (forall self other A B,
        nth_error h self = Some A ->
        nth_error h other = Some B ->
        exists res,
          OpResponse.__or__ self other h = (Ok (List.length h), h ++ [res])
          /\ duplicate_free res)
  /\ (forall self other A B,
        nth_error h self = Some A ->
        nth_error h other = Some B ->
        exists res,
          OpResponse.__and__ self other h = (Ok (List.length h), h ++ [res])
          /\ duplicate_free res).
Proof.
  intros Hh. repeat apply conj.
  - intros source. split; [reflexivity | apply unique_duplicate_free].
  - intros self objs Hs. split; [|apply unique_duplicate_free].
    unfold OpResponse.copy, OpResponse.__init__, OpResponse.iter, bind, load.
    now rewrite Hs.
  - intros self objs obj Hs Hu Hobj.
    destruct (add_at h self objs obj Hs) as (h' & E & Hn).
    exists h', (add_to objs obj). repeat split; try assumption.
    apply unique_duplicate_free.
    apply add_to_unique; auto. eapply heap_records_well_formed; eauto.
  - intros self objs tag cmp_func Hs. rewrite (filter_run _ _ _ _ _ Hs).
    eexists _, _. split; [reflexivity|]. apply unique_duplicate_free.
    apply collect_unique; auto.
    + intros acc obj x. apply filter_step_same; exact acc.
    + eapply heap_records_well_formed; eauto.
  - intros self objs cmp_func Hs. rewrite (fuzzy_run _ _ _ _ Hs).
    eexists _, _. split; [reflexivity|]. apply unique_duplicate_free.
    apply collect_unique; auto.
    + intros acc obj x. apply fuzzy_step_same; exact acc.
    + eapply heap_records_well_formed; eauto.
  - intros self other A B HA HB. rewrite (or_run _ _ _ _ _ HA HB).
    eexists. split; [reflexivity|]. apply unique_duplicate_free.
    pose proof (heap_records_well_formed _ _ _ Hh HA) as HwA.
    pose proof (heap_records_well_formed _ _ _ Hh HB) as HwB.
    destruct (collect_unique (or_first_step A) (or_first_step_same A) B []) as [Hu Hw]; auto.
    apply collect_unique; auto. apply or_second_step_same.
  - intros self other A B HA HB. rewrite (and_run _ _ _ _ _ HA HB).
    eexists. split; [reflexivity|]. apply unique_duplicate_free.
    apply collect_unique; auto.
    + apply and_step_same.
    + eapply heap_records_well_formed; eauto.
Qed.

Lemma operations_keep_collections_unique_witness :
  exists res,
    OpResponse.__or__ 0 1 [[github; github; gitlab]; [email; github; email]]
    = (Ok 2, [[github; github; gitlab]; [email; github; email]; res])
    /\ duplicate_free res.
Proof.
  apply (proj1 (proj2 (proj2 (proj2 (proj2 (proj2
           (operations_keep_collections_unique
              [[github; github; gitlab]; [email; github; email]] eq_refl))))))
           0 1 [github; github; gitlab] [email; github; email] eq_refl eq_refl).
Defined.

(** C9: no method that builds a collection, and no evaluation, changes an
    object the store already holds: the store after the call, whether the
    call returns or raises, has every former object at its address with
    the same records in the same order, and the response returned is a
    new object. *)
Theorem evaluation_leaves_collections_unchanged (h : heap) :
  (forall self tag cmp_func,
     unchanged h (snd (OpResponse.filter self tag cmp_func h))
     /\ new_in h (fst (OpResponse.filter self tag cmp_func h)))
  /\ (forall self cmp_func,
        unchanged h (snd (OpResponse.fuzzy self cmp_func h))
        /\ new_in h (fst (OpResponse.fuzzy self cmp_func h)))
  /\ (forall self other,
        unchanged h (snd (OpResponse.__or__ self other h))
        /\ new_in h (fst (OpResponse.__or__ self other h)))
  /\ (forall self other,
        unchanged h (snd (OpResponse.__and__ self other h))
        /\ new_in h (fst (OpResponse.__and__ self other h)))
  /\ (forall objects e,
        unchanged h (snd (OpDatabase.evaluate objects e h))
        /\ new_in h (fst (OpDatabase.evaluate objects e h)))
  /\ (forall self tql, unchanged h (snd (OpDatabase.raw_query self tql h))).
Proof.
  assert (forall o res (m : outcome ref * heap),
            m = (o, h ++ [res]) /\ (forall r, o = Ok r -> r = List.length h) ->
            unchanged h (snd m) /\ new_in h (fst m)) as Hop.
  { intros o res m [-> Hr]. split; [apply unchanged_app|].
    destruct o; cbn; auto. rewrite (Hr a eq_refl). apply new_at_end. }
  repeat apply conj.
  - intros self tag cmp_func.
    destruct (filter_frame self tag cmp_func h) as (o & res & H). eapply Hop, H.
  - intros self cmp_func.
    destruct (fuzzy_frame self cmp_func h) as (o & res & H). eapply Hop, H.
  - intros self other.
    destruct (or_frame self other h) as (o & res & H). eapply Hop, H.
  - intros self other.
    destruct (and_frame self other h) as (o & res & H). eapply Hop, H.
  - intros objects e.
    destruct (evaluate_frame e objects h) as (o & ext & -> & Hn).
    split; [apply unchanged_app | exact Hn].
  - intros self tql.
    destruct (raw_query_frame self tql h) as (o & ext & ->). apply unchanged_app.
Qed.

(** ** The parser on terms *)

Section ParserTerms.
Import OpTqlLexer OpTqlParser Term.

(** Two stacks that settle alike parse alike. *)
Lemma parse_loop_settle rest st1 st2 :
  (forall la, settle st1 la = settle st2 la) ->
  parse_loop rest st1 = parse_loop rest st2.
Proof. intros H. destruct rest as [|t rest]; cbn [parse_loop]; now rewrite H. Qed.

Lemma parse_loop_settle_ends rest st1 st2 :
  ends rest = true ->
  (forall la, match la with
              | None | Some OR | Some AND | Some RPAREN => settle st1 la = settle st2 la
              | _ => True
              end) ->
  parse_loop rest st1 = parse_loop rest st2.
Proof.
  intros He H. destruct rest as [|[ty v] rest]; cbn [parse_loop type].
  - now rewrite (H None).
  - cbn [ends type] in He. destruct ty; try discriminate He.
    + now rewrite (H (Some AND)).
    + now rewrite (H (Some OR)).
    + now rewrite (H (Some RPAREN)).
Qed.

Lemma leaf_parse l b st rest :
  context b st -> ends rest = true ->
  parse_loop (Chain.leaf_tokens l ++ rest) st
  = parse_loop rest (pushed st (Chain.leaf_expr l)).
Proof.
  intros Hc He.
  destruct Hc as [b Hb|b op e Hb];
    destruct b as [|[[] v] b]; try discriminate Hb; try destruct op;
    destruct l; cbn [Chain.leaf_tokens app parse_loop];
    apply parse_loop_settle_ends; try assumption;
    intros [[]|]; try exact I; reflexivity.
Qed.

Lemma pushed_context b st e :
  context b st -> exists q, pushed st e = (q, ExprVal e) :: st.
Proof.
  intros [b' Hb|b' op e' Hb].
  - destruct b' as [|[[] v] b']; try discriminate Hb; eexists; reflexivity.
  - destruct op; eexists; reflexivity.
Qed.

(** Reading a term, or an atom, leaves its tree on the stack. *)
Lemma term_atom_parse :
  (forall t b rest,
      base b = true -> ends rest = true ->
      parse_loop (term_tokens t ++ rest) b
      = parse_loop rest ((over b, ExprVal (term_expr t)) :: b))
  /\ (forall a b st rest,
        context b st -> ends rest = true ->
        parse_loop (atom_tokens a ++ rest) st
        = parse_loop rest (pushed st (atom_expr a))).
Proof.
  apply term_atom_ind.
  - (* an atom as a term *)
    intros a IH b rest Hb He. cbn [term_tokens term_expr].
    rewrite (IH b b rest (context_base b Hb) He).
    destruct b as [|[[] v] b]; try discriminate Hb; reflexivity.
  - (* term, operator, atom *)
    intros t IHt op a IHa b rest Hb He. cbn [term_tokens term_expr].
    rewrite <- app_assoc. cbn [app].
    rewrite IHt; [|assumption|destruct op; reflexivity].
    transitivity
      (parse_loop (atom_tokens a ++ rest)
         ((match op with Chain.or_ => q_expr_OR | Chain.and_ => q_expr_AND end,
           TokenVal (value (Chain.operator_token op)))
          :: (over b, ExprVal (term_expr t)) :: b)).
    { destruct b as [|[[] v] b]; try discriminate Hb; destruct op; reflexivity. }
    rewrite (IHa b _ rest (context_op b op (term_expr t) Hb) He).
    apply parse_loop_settle_ends; [assumption|].
    destruct b as [|[[] v] b]; try discriminate Hb; destruct op;
      intros [[]|]; try exact I; reflexivity.
  - (* a leaf *)
    intros l b st rest Hc He. now apply (leaf_parse l b).
  - (* a term in parentheses *)
    intros t IHt b st rest Hc He. cbn [atom_tokens atom_expr].
    cbn [app]. rewrite <- app_assoc. cbn [app].
    transitivity
      (parse_loop (term_tokens t ++ tok RPAREN ")" :: rest)
         ((q_LPAREN, TokenVal (StrVal "(")) :: st)).
    { destruct Hc as [b Hb|b op e Hb];
        [destruct b as [|[[] v] b]; try discriminate Hb | destruct op];
        reflexivity. }
    rewrite IHt by reflexivity. cbn [over].
    transitivity
      (parse_loop rest
         ((q_LPAREN_expr_RPAREN, TokenVal (StrVal ")"))
          :: (q_LPAREN_expr, ExprVal (term_expr t))
          :: (q_LPAREN, TokenVal (StrVal "(")) :: st)).
    { reflexivity. }
    apply parse_loop_settle_ends; [assumption|].
    destruct Hc as [b Hb|b op e Hb];
      [destruct b as [|[[] v] b]; try discriminate Hb | destruct b as [|[[] v] b]; try discriminate Hb; destruct op];
      intros [[]|]; try exact I; reflexivity.
Qed.

Lemma parse_term_tokens t :
  parse_loop (term_tokens t) []
  = Ok {| expression := Some (term_expr t) |}.
Proof.
  rewrite <- (app_nil_r (term_tokens t)).
  rewrite (proj1 term_atom_parse t [] [] eq_refl eq_refl). reflexivity.
Qed.

(** *** No tree without expression *)

Lemma callable_ast p args a :
  callable p args = Some (AstVal a) -> args <> [] -> expression a <> None.
Proof.
  destruct p; cbn [callable]; intros Ev Hne;
    unfold p_input, p_expr_fuzzy, p_expr_pair, p_expr_par, p_expr_binary in Ev;
    repeat match type of Ev with
      | (match ?l with _ => _ end) = _ => destruct l; try discriminate Ev
      | (if ?b then _ else _) = _ => destruct b; try discriminate Ev
      end.
  all: try congruence.
  all: try (inversion Ev; subst; cbn; discriminate).
Qed.

Lemma reduction_asts_full p st st' :
  reduction p st = Some st' -> asts_full st = true -> asts_full st' = true.
Proof.
  unfold reduction.
  destruct (rhs_length p <=? List.length st)%nat eqn:Hlen; [|discriminate].
  destruct (callable p (rev (map snd (firstn (rhs_length p) st)))) as [v|] eqn:Ev;
    [|discriminate].
  destruct (lr_goto (current (skipn (rhs_length p) st)) (lhs p)) as [q|]; [|discriminate].
  intros [= <-] Hfull.
  assert (asts_full (skipn (rhs_length p) st) = true) as Hskip.
  { unfold asts_full in *. rewrite forallb_forall in *. intros x Hx.
    apply Hfull. rewrite <- (firstn_skipn (rhs_length p) st). apply in_or_app. now right. }
  unfold asts_full in *. cbn [forallb snd]. rewrite Hskip, andb_true_r.
  destruct v as [t|e|a]; try reflexivity.
  apply callable_ast in Ev.
  - destruct (expression a); [reflexivity | congruence].
  - apply Nat.leb_le in Hlen. destruct st as [|x st]; [destruct p; cbn in Hlen; lia|].
    destruct p; cbn; intros H; apply (f_equal (@List.length _)) in H;
      rewrite ?length_app in H; cbn in H; lia.
Qed.

Lemma reductions_asts_full la : forall n st a st',
  reductions n st la = Some (a, st') -> asts_full st = true -> asts_full st' = true.
Proof.
  induction n as [|n IH]; intros st a st'; cbn [reductions]; [discriminate|].
  destruct (lr_action (current st) la) as [q|p| |] eqn:Ha;
    try (intros [= _ <-]; auto; fail).
  destruct (reduction p st) as [st1|] eqn:Hr; [|discriminate].
  intros H Hfull. apply (IH _ _ _ H). eapply reduction_asts_full; eauto.
Qed.

Lemma parse_loop_full : forall toks st ast,
  asts_full st = true -> parse_loop toks st = Ok ast -> expression ast <> None.
Proof.
  induction toks as [|t rest IH]; intros st ast Hfull; cbn [parse_loop].
  - destruct (settle st None) as [[a st']|] eqn:Hs; [|discriminate].
    apply reductions_asts_full in Hs; [|assumption].
    destruct a; try discriminate.
    destruct st' as [|[q [v|e|a]] st']; try discriminate.
    intros [= <-]. cbn in Hs. destruct (expression a); [discriminate | discriminate Hs].
  - destruct (settle st (Some (type t))) as [[a st']|] eqn:Hs; [|discriminate].
    apply reductions_asts_full in Hs; [|assumption].
    destruct a; try discriminate. apply IH. cbn. exact Hs.
Qed.
End ParserTerms.

(** ** The lexer: the shape of the tokens, and their text *)

Section LexerFacts.
Import OpTqlLexer.

Lemma span_head p c rest :
  p c = true -> exists run, fst (span p (c :: rest)) = c :: run.
Proof.
  intros H. cbn [span]. rewrite H. destruct (span p rest). eexists. reflexivity.
Qed.

Lemma scan_lexed c rest t n : scan c rest = (Some t, n) -> lexed t = true.
Proof.
  unfold scan.
  destruct (ignored c); [discriminate|].
  destruct (is_digit c).
  { destruct (span is_digit (c :: rest)). now intros [= <- _]. }
  destruct (is_char dquote c).
  { pose proof (span_all string_char rest) as Hall.
    destruct (span string_char rest) as [body after]. cbn [fst] in Hall.
    destruct body as [|b body]; [discriminate|].
    destruct after as [|q after]; [discriminate|].
    destruct (is_char dquote q); [|discriminate].
    intros [= <- _]. unfold lexed, tok. cbn [type value string_of_list_ascii nonempty andb].
    change (String b (string_of_list_ascii body)) with (string_of_list_ascii (b :: body)).
    unfold Spec.all_chars. now rewrite list_ascii_of_string_of_list_ascii. }
  destruct (is_char newline c).
  { destruct (span (is_char newline) (c :: rest)). discriminate. }
  destruct (name_char c) eqn:Hc.
  { pose proof (span_all name_char (c :: rest)) as Hall.
    destruct (span_head name_char c rest Hc) as [run Hrun].
    destruct (span name_char (c :: rest)) as [cs tl]. cbn [fst] in Hall, Hrun. subst cs.
    intros [= <- _]. unfold lexed, tok. cbn [type value string_of_list_ascii nonempty andb].
    change (String c (string_of_list_ascii run)) with (string_of_list_ascii (c :: run)).
    unfold Spec.all_chars. now rewrite list_ascii_of_string_of_list_ascii. }
  repeat match goal with
    | |- (if ?b then _ else _) = _ -> _ => destruct b; [now intros [= <- _]|]
    end.
  discriminate.
Qed.

Lemma tokens_from_lexed s : forall skip, forallb lexed (tokens_from s skip) = true.
Proof.
  induction s as [|c rest IH]; intros skip; [reflexivity|].
  cbn [tokens_from]. destruct skip as [|k]; [|apply IH].
  destruct (scan c rest) as [[t|] n] eqn:E; [|apply IH].
  cbn [forallb]. now rewrite (scan_lexed _ _ _ _ E), IH.
Qed.

Lemma tokens_from_length s : forall skip,
  List.length (tokens_from s skip) <= List.length s.
Proof.
  induction s as [|c rest IH]; intros skip; [cbn; lia|].
  cbn [tokens_from List.length]. destruct skip as [|k].
  - destruct (scan c rest) as [[t|] n]; cbn [List.length];
      specialize (IH (pred n)); lia.
  - specialize (IH k). lia.
Qed.


(** *** Lexing the text of tokens *)

Lemma span_app p run c rest :
  forallb p run = true -> p c = false ->
  span p (run ++ c :: rest) = (run, c :: rest).
Proof.
  intros Hrun Hc. induction run as [|x run IH]; cbn [app span].
  - now rewrite Hc.
  - cbn [forallb] in Hrun. apply andb_prop in Hrun. destruct Hrun as [Hx Hrun].
    now rewrite Hx, IH.
Qed.

Lemma tokens_from_skip pre more :
  tokens_from (pre ++ more) (List.length pre) = tokens_from more 0.
Proof. induction pre as [|x pre IH]; [reflexivity | exact IH]. Qed.

Lemma tokens_from_token c cs rest t :
  scan c (cs ++ " "%char :: rest) = (Some t, S (List.length cs)) ->
  tokens_from (c :: cs ++ " "%char :: rest) 0 = t :: tokens_from rest 0.
Proof.
  intros Hs. cbn [tokens_from]. rewrite Hs. cbn [pred].
  now rewrite tokens_from_skip.
Qed.

Lemma digit_step_pos acc k c :
  digit_value c = Npos k ->
  digit_step (Npos acc) c = Npos (Pos.add k (Pos.mul 10 acc)).
Proof. unfold digit_step. intros ->. lia. Qed.

Lemma digit_step_zero acc c :
  digit_value c = 0%N -> digit_step (Npos acc) c = Npos (Pos.mul 10 acc).
Proof. unfold digit_step. intros ->. lia. Qed.

Lemma digits_acc d : forall acc,
  fold_left digit_step (list_ascii_of_string (NilEmpty.string_of_uint d)) (Npos acc)
  = Npos (Pos.of_uint_acc d acc).
Proof.
  induction d; intros acc;
    cbn [NilEmpty.string_of_uint list_ascii_of_string fold_left Pos.of_uint_acc];
    try reflexivity;
    first [ rewrite digit_step_zero by reflexivity
          | erewrite digit_step_pos by reflexivity ];
    apply IHd.
Qed.

Lemma digits_value d :
  int_of_digits (list_ascii_of_string (NilEmpty.string_of_uint d)) = N.of_uint d.
Proof.
  unfold int_of_digits. change (fun acc c => (acc * 10 + digit_value c)%N) with digit_step.
  induction d;
    cbn [NilEmpty.string_of_uint list_ascii_of_string fold_left N.of_uint Pos.of_uint];
    try reflexivity.
  - exact IHd.
  - apply (digits_acc d).
  - apply (digits_acc d).
  - apply (digits_acc d).
  - apply (digits_acc d).
  - apply (digits_acc d).
  - apply (digits_acc d).
  - apply (digits_acc d).
  - apply (digits_acc d).
  - apply (digits_acc d).
Qed.

Lemma digits_all d :
  forallb is_digit (list_ascii_of_string (NilEmpty.string_of_uint d)) = true.
Proof. induction d; cbn; auto. Qed.

Lemma number_string n :
  py_str (IntVal n) = "0" /\ n = 0%N
  \/ py_str (IntVal n) = NilEmpty.string_of_uint (N.to_uint n)
     /\ N.to_uint n <> Decimal.Nil.
Proof.
  unfold py_str, NilZero.string_of_uint.
  pose proof (DecimalN.Unsigned.of_to n) as Hn.
  destruct (N.to_uint n) eqn:E; try (right; split; [reflexivity | discriminate]).
  left. split; [reflexivity | now rewrite <- Hn].
Qed.

(** [int(str(n)) == n], and [str(n)] is a non-empty run of digits. *)
Lemma number_text n :
  exists c cs,
    list_ascii_of_string (py_str (IntVal n)) = c :: cs
    /\ forallb is_digit (c :: cs) = true
    /\ int_of_digits (c :: cs) = n.
Proof.
  destruct (number_string n) as [[-> ->]|[-> Hne]].
  - exists "0"%char, []. repeat split.
  - pose proof (digits_all (N.to_uint n)) as Hall.
    pose proof (digits_value (N.to_uint n)) as Hval.
    rewrite DecimalN.Unsigned.of_to in Hval.
    destruct (list_ascii_of_string (NilEmpty.string_of_uint (N.to_uint n))) as [|c cs] eqn:E.
    + destruct (N.to_uint n); try discriminate E. now destruct Hne.
    + now exists c, cs.
Qed.

Lemma chars_app a b :
  list_ascii_of_string (a ++ b) = list_ascii_of_string a ++ list_ascii_of_string b.
Proof. induction a as [|c a IH]; [reflexivity | cbn; now rewrite IH]. Qed.

Lemma digit_facts c : is_digit c = true -> ignored c = false.
Proof. destruct c as [[] [] [] [] [] [] [] []]; cbv; intros; try discriminate; reflexivity. Qed.

Lemma name_facts c :
  name_char c = true ->
  ignored c = false /\ is_digit c = false /\ is_char dquote c = false
  /\ is_char newline c = false.
Proof.
  destruct c as [[] [] [] [] [] [] [] []]; cbv; intros; try discriminate;
    repeat split; reflexivity.
Qed.

Lemma lex_token t rest :
  lexed t = true ->
  tokens_from (list_ascii_of_string (token_text t) ++ " "%char :: rest) 0
  = t :: tokens_from rest 0.
Proof.
  destruct t as [ty v]. unfold lexed, token_text. cbn [type value].
  destruct ty; destruct v as [n|s]; try discriminate; intros Hl.
  - (* NUMBER *)
    destruct (number_text n) as (c & cs & -> & Hall & Hval).
    cbn [app]. apply tokens_from_token. unfold scan.
    assert (is_digit c = true) as Hc by (cbn [forallb] in Hall; now apply andb_prop in Hall).
    rewrite (digit_facts c Hc), Hc.
    change (c :: cs ++ " "%char :: rest) with ((c :: cs) ++ " "%char :: rest).
    rewrite (span_app is_digit (c :: cs) " " rest Hall eq_refl).
    now rewrite Hval.
  - (* STRING *)
    apply andb_prop in Hl. destruct Hl as [Hne Hall].
    cbn [py_str]. unfold quoted. cbn [list_ascii_of_string app].
    rewrite chars_app. cbn [list_ascii_of_string].
    apply tokens_from_token. unfold scan.
    change (ignored dquote) with false. change (is_digit dquote) with false.
    change (is_char dquote dquote) with true. cbn iota.
    rewrite <- app_assoc. cbn [app].
    rewrite (span_app string_char (list_ascii_of_string s) dquote _ Hall eq_refl).
    destruct (list_ascii_of_string s) as [|b body] eqn:E.
    { destruct s; discriminate. }
    change (is_char dquote dquote) with true. cbn iota.
    rewrite <- E, string_of_list_ascii_of_string. unfold tok.
    f_equal. rewrite length_app. cbn [List.length]. lia.
  - (* NAME *)
    apply andb_prop in Hl. destruct Hl as [Hne Hall].
    cbn [py_str]. destruct s as [|c s]; [discriminate|].
    cbn [list_ascii_of_string app]. apply tokens_from_token. unfold scan.
    assert (name_char c = true) as Hc.
    { unfold Spec.all_chars in Hall. cbn [list_ascii_of_string forallb] in Hall.
      now apply andb_prop in Hall. }
    destruct (name_facts c Hc) as (-> & -> & -> & ->). rewrite Hc.
    change (c :: list_ascii_of_string s ++ " "%char :: rest)
      with ((c :: list_ascii_of_string s) ++ " "%char :: rest).
    rewrite (span_app name_char (c :: list_ascii_of_string s) " " rest Hall eq_refl).
    change (c :: list_ascii_of_string s) with (list_ascii_of_string (String c s)).
    now rewrite string_of_list_ascii_of_string.
  - apply String.eqb_eq in Hl. subst s. reflexivity.
  - apply String.eqb_eq in Hl. subst s. reflexivity.
  - apply String.eqb_eq in Hl. subst s. reflexivity.
  - apply String.eqb_eq in Hl. subst s. reflexivity.
  - apply String.eqb_eq in Hl. subst s. reflexivity.
Qed.

Lemma tokens_of_text toks :
  forallb lexed toks = true -> tokens (tokens_text toks) = toks.
Proof.
  unfold tokens. induction toks as [|t more IH]; intros Hl; [reflexivity|].
  cbn [forallb] in Hl. apply andb_prop in Hl. destruct Hl as [Ht Hmore].
  cbn [tokens_text]. rewrite chars_app. cbn [list_ascii_of_string].
  rewrite (lex_token t _ Ht). now rewrite IH.
Qed.

End LexerFacts.

Lemma chars_length (s : string) :
  List.length (list_ascii_of_string s) = String.length s.
Proof. induction s as [|c s IH]; cbn; [reflexivity | now rewrite IH]. Qed.

(** X1: every token the lexer makes of an input has the shape of its rule:
    a NUMBER carries an int, a STRING a non-empty run of the characters
    allowed between quotes (the quotes are stripped), a NAME a non-empty
    run of letters and dots, an operator or a parenthesis its own
    character; and an input yields at most as many tokens as it has
    characters. *)
Theorem tokens_are_well_shaped (input : string) :
  forallb lexed (OpTqlLexer.tokens input) = true
  /\ List.length (OpTqlLexer.tokens input) <= String.length input.
Proof.
  unfold OpTqlLexer.tokens. split.
  - apply tokens_from_lexed.
  - rewrite <- chars_length. apply tokens_from_length.
Qed.

(** X2: the lexer reads back what is written: tokens of the shape of
    their rules, written one after the other with a space after each
    (a number in decimal, a string between quotes), are lexed into
    exactly these tokens. *)
Theorem lexing_inverts_printing (toks : list OpTqlLexer.LexToken) :
  forallb lexed toks = true ->
  OpTqlLexer.tokens (tokens_text toks) = toks.
Proof.
  intros H. apply tokens_of_text. exact H.
Qed.

Lemma lexing_inverts_printing_witness :
  OpTqlLexer.tokens ("title = " ++ quoted "Git*" ++ " & 42 ")%string
  = [OpTqlLexer.tok OpTqlLexer.NAME "title"; OpTqlLexer.tok OpTqlLexer.EQUALS "=";
     OpTqlLexer.tok OpTqlLexer.STRING "Git*"; OpTqlLexer.tok OpTqlLexer.AND "&";
     Chain.number 42].
Proof.
  exact (lexing_inverts_printing
           [OpTqlLexer.tok OpTqlLexer.NAME "title"; OpTqlLexer.tok OpTqlLexer.EQUALS "=";
            OpTqlLexer.tok OpTqlLexer.STRING "Git*"; OpTqlLexer.tok OpTqlLexer.AND "&";
            Chain.number 42] eq_refl).
Defined.

(** ** Matching: case and equality *)

Lemma lower_newline c : is_char newline (re.lower c) = is_char newline c.
Proof. destruct c as [[] [] [] [] [] [] [] []]; reflexivity. Qed.

Lemma takes_lower a c c' :
  re.lower c = re.lower c' -> re.takes true a c = re.takes true a c'.
Proof.
  intros H. destruct a as [l| | |]; cbn [re.takes re.same_char]; try reflexivity.
  - now rewrite H.
  - now rewrite <- (lower_newline c), <- (lower_newline c'), H.
Qed.

Lemma at_end_lower s s' :
  map re.lower s = map re.lower s' -> re.at_end s = re.at_end s'.
Proof.
  destruct s as [|c [|d s]]; destruct s' as [|c' [|d' s']]; try discriminate; try reflexivity.
  cbn [map re.at_end]. intros H. injection H as H.
  now rewrite <- (lower_newline c), <- (lower_newline c'), H.
Qed.

Lemma matches_lower ps : forall start s s',
  map re.lower s = map re.lower s' ->
  re.matches true ps start s = re.matches true ps start s'.
Proof.
  induction ps as [|p ps IH]; intros start s s' H; [reflexivity|].
  destruct p as [a|a].
  - destruct a as [l| | |].
    + cbn [re.matches]. destruct s as [|c s]; destruct s' as [|c' s']; try discriminate;
        [reflexivity|].
      cbn [map] in H. injection H as Hc Hs.
      now rewrite (takes_lower (re.Lit l) c c' Hc), (IH false s s' Hs).
    + cbn [re.matches]. destruct s as [|c s]; destruct s' as [|c' s']; try discriminate;
        [reflexivity|].
      cbn [map] in H. injection H as Hc Hs.
      now rewrite (takes_lower re.Dot c c' Hc), (IH false s s' Hs).
    + cbn [re.matches]. now rewrite (IH start s s' H).
    + cbn [re.matches]. now rewrite (IH start s s' H), (at_end_lower s s' H).
  - cbn [re.matches]. revert start s' H.
    induction s as [|c s IHs]; intros start [|c' s'] H; try discriminate.
    + reflexivity.
    + cbn [map] in H. injection H as Hc Hs.
      rewrite (IH start (c :: s) (c' :: s')) by (cbn [map]; now rewrite Hc, Hs).
      now rewrite (takes_lower a c c' Hc), (IHs false s' Hs).
Qed.


Lemma lower_star c : is_char "*" (re.lower c) = is_char "*" c.
Proof. destruct c as [[] [] [] [] [] [] [] []]; reflexivity. Qed.

Lemma upper_atom c :
  is_upper c = true ->
  re.atom_of c = re.Lit c /\ re.atom_of (re.lower c) = re.Lit (re.lower c)
  /\ is_upper (re.lower c) = false.
Proof.
  destruct c as [[] [] [] [] [] [] [] []]; intros H; try discriminate H;
    repeat split; reflexivity.
Qed.

Lemma lower_lower c : re.lower (re.lower c) = re.lower c.
Proof. destruct c as [[] [] [] [] [] [] [] []]; reflexivity. Qed.

Lemma lower_fixed c : is_upper c = false -> re.lower c = c.
Proof. unfold re.lower. now intros ->. Qed.

Lemma lower_injective_upper c c' :
  is_upper c = true -> is_upper c' = true -> re.lower c = re.lower c' -> c = c'.
Proof.
  destruct c as [[] [] [] [] [] [] [] []]; intros H; try discriminate H; clear H;
    destruct c' as [[] [] [] [] [] [] [] []]; intros H; try discriminate H; clear H;
    intros H; try discriminate H; reflexivity.
Qed.

Lemma atoms_lower c c' :
  re.lower c = re.lower c' ->
  (re.atom_of c = re.atom_of c')
  \/ (exists l l', re.atom_of c = re.Lit l /\ re.atom_of c' = re.Lit l'
                   /\ re.lower l = re.lower l').
Proof.
  intros H. destruct (is_upper c) eqn:U; destruct (is_upper c') eqn:U'.
  - left. now rewrite (lower_injective_upper c c' U U' H).
  - right. destruct (upper_atom c U) as (A1 & A2 & _).
    rewrite (lower_fixed c' U') in H. subst c'.
    exists c, (re.lower c). repeat split; try assumption. now rewrite lower_lower.
  - right. destruct (upper_atom c' U') as (A1 & A2 & _).
    rewrite (lower_fixed c U) in H. subst c.
    exists (re.lower c'), c'. repeat split; try assumption. now rewrite lower_lower.
  - left. rewrite (lower_fixed c U), (lower_fixed c' U') in H. now subst.
Qed.

Lemma pieces_lower tail : forall lit lit' start s,
  same_letters lit lit' ->
  re.matches true (pieces lit ++ tail) start s
  = re.matches true (pieces lit' ++ tail) start s.
Proof.
  unfold same_letters.
  induction lit as [|c lit IH]; intros [|c' lit'] start s H; try discriminate H;
    [reflexivity|].
  cbn [list_ascii_of_string map] in H. injection H as Hc Hs.
  cbn [pieces app].
  rewrite <- (lower_star c), <- (lower_star c'), Hc.
  destruct (is_char "*" (re.lower c')).
  - cbn [re.matches]. revert start.
    induction s as [|x s IHs]; intros start.
    + now rewrite (IH lit' start [] Hs).
    + now rewrite (IH lit' start (x :: s) Hs), (IHs false).
  - destruct (atoms_lower c c' Hc) as [E|(l & l' & E & E' & Hl)].
    + rewrite E. destruct (re.atom_of c'); cbn [re.matches];
        try (destruct s as [|x s]; [reflexivity|]);
        now rewrite (IH lit' _ _ Hs).
    + rewrite E, E'. cbn [re.matches]. destruct s as [|x s]; [reflexivity|].
      cbn [re.takes re.same_char]. rewrite Hl. now rewrite (IH lit' _ _ Hs).
Qed.

(** X7: a fuzzy leaf ignores the case of letters, in its literal and in
    the value it is matched against: two literals of the lexer that
    differ by case only, matched against two values whose texts differ by
    case only, give the same answer. *)
Theorem fuzzy_ignores_case (literal literal' : string) (v v' : scalar) :
  Spec.all_chars OpTqlLexer.string_char literal = true ->
  Spec.all_chars OpTqlLexer.string_char literal' = true ->
  same_letters literal literal' ->
  same_letters (format v) (format v') ->
  OpFuzzy_match (anchored (StrVal literal)) v
  = OpFuzzy_match (anchored (StrVal literal')) v'.
Proof.
  intros G G' L V. unfold OpFuzzy_match, re.match_.
  rewrite (compile_anchored (StrVal literal) G), (compile_anchored (StrVal literal') G').
  f_equal. cbn [py_str].
  rewrite (matches_lower _ true _ _ V).
  cbn [re.matches andb]. now apply pieces_lower.
Qed.

Lemma fuzzy_ignores_case_witness :
  OpFuzzy_match (anchored (StrVal "Git*")) (SStr "GITHUB")
  = OpFuzzy_match (anchored (StrVal "gIT*")) (SStr "github").
Proof. apply fuzzy_ignores_case; reflexivity. Defined.

Lemma pieces_exact : forall lit start s,
  Spec.all_chars Spec.plain lit = true -> star_free lit = true ->
  re.matches false (pieces lit ++ [re.One re.Dollar]) start (list_ascii_of_string s)
  = String.eqb lit s || String.eqb (lit ++ String newline "") s.
Proof.
  unfold Spec.all_chars, star_free, Spec.all_chars.
  induction lit as [|c lit IH]; intros start s P F.
  - cbn [pieces app re.matches String.append].
    destruct s as [|x [|y s]]; cbn [list_ascii_of_string re.at_end String.eqb andb orb];
      try reflexivity.
    all: unfold is_char; now destruct (Ascii.eqb newline x).
  - cbn [list_ascii_of_string forallb] in P, F.
    apply andb_prop in P. destruct P as [Pc P].
    apply andb_prop in F. destruct F as [Fc F].
    apply negb_true_iff in Fc.
    cbn [pieces app String.append]. rewrite Fc, (plain_atom c Pc).
    cbn [re.matches]. destruct s as [|x s]; cbn [list_ascii_of_string String.eqb];
      [reflexivity|].
    cbn [re.takes re.same_char]. rewrite (IH false s P F).
    now destruct (Ascii.eqb c x).
Qed.

(** X8: a filter whose literal has no [*] and no dot is an equality
    test: it matches a string field exactly when the field is the
    literal, or the literal followed by one newline, which [$] lets
    through at the end of the target. *)
Theorem filter_without_star_is_equality (v : token_value) (target : string) :
  Spec.all_chars Spec.plain (py_str v) = true ->
  star_free (py_str v) = true ->
  OpFilter_match (anchored v) (VStr target)
  = Ok (String.eqb (py_str v) target
        || String.eqb (py_str v ++ String newline "") target).
Proof.
  intros P F. unfold OpFilter_match, re.match_.
  assert (good_literal v = true) as G.
  { destruct v; [reflexivity|]. now apply plain_string_char. }
  rewrite (compile_anchored v G). cbn [re.matches andb].
  now rewrite pieces_exact.
Qed.

Lemma filter_without_star_is_equality_witness :
  OpFilter_match (anchored (StrVal "Github")) (VStr "Github")
  = Ok (String.eqb "Github" "Github" || String.eqb ("Github" ++ String newline "") "Github").
Proof. apply (filter_without_star_is_equality (StrVal "Github")); reflexivity. Defined.

(** ** Records: leaves and paths *)


Lemma first_hit_app cmp_func l1 l2 :
  first_hit cmp_func (l1 ++ l2)
  = match first_hit cmp_func l1 with
    | Ok false => first_hit cmp_func l2
    | other => other
    end.
Proof.
  induction l1 as [|x l1 IH]; [reflexivity|].
  cbn [app first_hit]. destruct (cmp_func x) as [[]| |]; try reflexivity. exact IH.
Qed.

Lemma find_value_in_scalars cmp_func val :
  OpResponse._find_value_in cmp_func val = first_hit cmp_func (scalars val).
Proof.
  induction val as [| | | |elems IH|items IH] using value_nested_ind.
  - reflexivity.
  - cbn. now destruct (cmp_func (SBool b)) as [[]| |].
  - cbn. now destruct (cmp_func (SInt z)) as [[]| |].
  - cbn. now destruct (cmp_func (SStr s)) as [[]| |].
  - cbn [OpResponse._find_value_in scalars].
    induction IH as [|x l Hx _ IHl]; [reflexivity|].
    cbn [flat_map]. rewrite first_hit_app, <- Hx. 
    destruct (OpResponse._find_value_in cmp_func x) as [[]| |]; try reflexivity.
    exact IHl.
  - cbn [OpResponse._find_value_in scalars].
    induction IH as [|[k x] l Hx _ IHl]; [reflexivity|].
    cbn [flat_map snd] in *. rewrite first_hit_app, <- Hx.
    destruct (OpResponse._find_value_in cmp_func x) as [[]| |]; try reflexivity.
    exact IHl.
Qed.

(** X9: [_find_value] is a search through the scalar leaves of the
    values, depth first and in order, down dicts and lists at any depth:
    it returns the first answer of [cmp_func] that is not [False], an
    exception included, and [False] when there is none.  Keys are not
    searched and [None] is no leaf.  With a comparison that never raises,
    the result is whether some leaf satisfies it. *)
Theorem find_value_scans_the_leaves (obj_values : list value)
  (cmp_func : scalar -> outcome bool) :
  OpResponse._find_value obj_values cmp_func
  = first_hit cmp_func (flat_map scalars obj_values)
  /\ forall p : scalar -> bool,
       OpResponse._find_value obj_values (fun x => Ok (p x))
       = Ok (existsb p (flat_map scalars obj_values)).
Proof.
  assert (forall c, OpResponse._find_value obj_values c
                    = first_hit c (flat_map scalars obj_values)) as H.
  { intros c. induction obj_values as [|val more IH]; [reflexivity|].
    cbn [OpResponse._find_value flat_map].
    rewrite first_hit_app, <- find_value_in_scalars.
    destruct (OpResponse._find_value_in c val) as [[]| |]; try reflexivity.
    exact IH. }
  split; [apply H|].
  intros p. rewrite H. clear H.
  induction (flat_map scalars obj_values) as [|x l IH]; [reflexivity|].
  cbn [first_hit existsb]. destruct (p x); [reflexivity|exact IH].
Qed.

(** Paths *)

Lemma str_split_cons sep s : exists first more, str_split sep s = first :: more.
Proof.
  induction s as [|c s (f & m & E)]; [now exists "", []|].
  cbn [str_split]. destruct (Ascii.eqb c sep); [now exists "", (str_split sep s)|].
  rewrite E. now exists (String c f), m.
Qed.

Lemma str_split_plain k :
  has_dot k = false -> str_split "." k = [k].
Proof.
  unfold has_dot. induction k as [|c k IH]; [reflexivity|].
  cbn [list_ascii_of_string existsb str_split]. intros H.
  apply orb_false_iff in H. destruct H as [Hc Hk].
  unfold is_char in Hc. rewrite Ascii.eqb_sym in Hc. rewrite Hc.
  now rewrite (IH Hk).
Qed.

Lemma str_split_path k rest :
  has_dot k = false ->
  str_split "." (k ++ String "." rest) = k :: str_split "." rest.
Proof.
  unfold has_dot. induction k as [|c k IH].
  - reflexivity.
  - cbn [list_ascii_of_string existsb str_split String.append]. intros H.
    apply orb_false_iff in H. destruct H as [Hc Hk].
    unfold is_char in Hc. rewrite Ascii.eqb_sym in Hc. rewrite Hc.
    now rewrite (IH Hk).
Qed.

Lemma str_split_no_dot s : forallb (fun k => negb (has_dot k)) (str_split "." s) = true.
Proof.
  induction s as [|c s IH]; [reflexivity|].
  cbn [str_split]. destruct (Ascii.eqb c ".") eqn:E.
  - cbn [forallb]. now rewrite IH.
  - destruct (str_split "." s) as [|f m]; cbn [forallb] in *.
    + unfold has_dot. cbn [list_ascii_of_string existsb].
      unfold is_char. rewrite Ascii.eqb_sym, E. reflexivity.
    + apply andb_prop in IH. destruct IH as [Hf Hm]. rewrite Hm, andb_true_r.
      unfold has_dot in *. cbn [list_ascii_of_string existsb].
      unfold is_char at 1. rewrite Ascii.eqb_sym, E. exact Hf.
Qed.

(** X10: [_find_value_by_key] resolves a dotted tag one level at a time:
    a tag without a dot is a lookup in the record, which raises
    [KeyError] for a missing key; a tag [k.rest] looks [k] up and goes on
    with [rest] inside the dict found there, and raises [TypeError] when
    the value found is not a dict. *)
Theorem path_resolves_level_by_level (obj : record) (k rest : string) :
  has_dot k = false ->
  OpResponse._find_value_by_key obj k
  = match dict_get k obj with
    | Some v => Ok v
    | None => Raise (KeyError k)
    end
  /\ OpResponse._find_value_by_key obj (k ++ String "." rest)
     = match dict_get k obj with
       | Some (VDict items) => OpResponse._find_value_by_key items rest
       | Some _ => Raise TypeError
       | None => Raise (KeyError k)
       end.
Proof.
  intros H. unfold OpResponse._find_value_by_key.
  rewrite (str_split_plain k H), (str_split_path k rest H).
  cbn [OpResponse.walk subscript].
  destruct (dict_get k obj) as [v|]; split; try reflexivity.
  destruct (str_split_cons "." rest) as (f & m & ->).
  destruct v; reflexivity.
Qed.

Lemma path_resolves_level_by_level_witness :
  OpResponse._find_value_by_key [("overview", VDict [("title", VStr "Github")])] "overview"
  = Ok (VDict [("title", VStr "Github")])
  /\ OpResponse._find_value_by_key [("overview", VDict [("title", VStr "Github")])]
       "overview.title"
     = Ok (VStr "Github").
Proof.
  exact (path_resolves_level_by_level
           [("overview", VDict [("title", VStr "Github")])] "overview" "title" eq_refl).
Defined.

Lemma dict_get_dotted k v obj key :
  has_dot k = true -> has_dot key = false ->
  dict_get key ((k, v) :: obj) = dict_get key obj.
Proof.
  intros Hk Hkey. cbn [dict_get].
  destruct (String.eqb k key) eqn:E; [|reflexivity].
  apply String.eqb_eq in E. subst. congruence.
Qed.

(** X11: a key that contains a dot is out of reach of every tag: since
    the tag is split at its dots, a record answers every tag as it would
    without that key. *)
Theorem dotted_keys_are_out_of_reach (k : string) (v : value) (obj : record) (tag : string) :
  has_dot k = true ->
  OpResponse._find_value_by_key ((k, v) :: obj) tag
  = OpResponse._find_value_by_key obj tag.
Proof.
  intros Hk. unfold OpResponse._find_value_by_key.
  pose proof (str_split_no_dot tag) as Hs.
  destruct (str_split_cons "." tag) as (key & more & E). rewrite E in *.
  cbn [forallb] in Hs. apply andb_prop in Hs. destruct Hs as [Hkey _].
  apply negb_true_iff in Hkey.
  cbn [OpResponse.walk subscript]. now rewrite (dict_get_dotted k v obj key Hk Hkey).
Qed.

Lemma dotted_keys_are_out_of_reach_witness :
  OpResponse._find_value_by_key [("a.b", VStr "x"); ("a", VDict [("b", VStr "y")])] "a.b"
  = OpResponse._find_value_by_key [("a", VDict [("b", VStr "y")])] "a.b".
Proof. exact (dotted_keys_are_out_of_reach "a.b" _ _ _ eq_refl). Defined.

(** ** Collections as sets, and in order *)

Lemma py_eq_trans a : forall b c,
  py_eq a b = true -> py_eq b c = true -> py_eq a c = true.
Proof.
  induction a as [| x | x | x |xs IH|xs IH] using value_nested_ind; intros b c Hab Hbc.
  - destruct b; try discriminate Hab. exact Hbc.
  - destruct b as [| y | y | | |]; try discriminate Hab;
      destruct c as [| z | z | | |]; try discriminate Hbc; cbn [py_eq] in *.
    + apply Bool.eqb_prop in Hab, Hbc. subst. apply Bool.eqb_reflx.
    + apply Bool.eqb_prop in Hab. now subst.
    + apply Z.eqb_eq in Hab, Hbc. subst y. destruct x, z; try discriminate; reflexivity.
    + apply Z.eqb_eq in Hab, Hbc. subst. apply Z.eqb_refl.
  - destruct b as [| y | y | | |]; try discriminate Hab;
      destruct c as [| z | z | | |]; try discriminate Hbc; cbn [py_eq] in *.
    + apply Z.eqb_eq in Hab. apply Bool.eqb_prop in Hbc. subst. apply Z.eqb_refl.
    + apply Z.eqb_eq in Hab, Hbc. subst. apply Z.eqb_refl.
    + apply Z.eqb_eq in Hab, Hbc. subst. apply Z.eqb_refl.
    + apply Z.eqb_eq in Hab, Hbc. subst. apply Z.eqb_refl.
  - destruct b; try discriminate Hab. destruct c; try discriminate Hbc.
    cbn [py_eq] in *. apply String.eqb_eq in Hab, Hbc. subst. apply String.eqb_refl.
  - destruct b as [| | | |ys|]; try discriminate Hab.
    destruct c as [| | | |zs|]; try discriminate Hbc.
    rewrite py_eq_list in *. revert ys zs Hab Hbc.
    induction IH as [|x l Hx _ IHl]; intros [|y ys] [|z zs] Hab Hbc;
      try discriminate; [reflexivity|].
    cbn [list_eq] in *. apply andb_prop in Hab, Hbc.
    destruct Hab as [H1 H2]. destruct Hbc as [H3 H4].
    now rewrite (Hx y z H1 H3), (IHl ys zs H2 H4).
  - destruct b as [| | | | |ys]; try discriminate Hab.
    destruct c as [| | | | |zs]; try discriminate Hbc.
    rewrite py_eq_dict in *. apply andb_prop in Hab, Hbc.
    destruct Hab as [L1 S1]. destruct Hbc as [L2 S2].
    apply Nat.eqb_eq in L1, L2. apply andb_true_intro. split.
    + apply Nat.eqb_eq. congruence.
    + rewrite dict_sub_spec in *. intros k x Hin.
      destruct (S1 k x Hin) as (y & Gy & Exy).
      destruct (S2 k y (dict_get_In _ _ _ Gy)) as (z & Gz & Eyz).
      exists z. split; [exact Gz|].
      rewrite Forall_forall in IH. exact (IH (k, x) Hin y z Exy Eyz).
Qed.

Lemma record_eq_trans a b c :
  record_eq a b = true -> record_eq b c = true -> record_eq a c = true.
Proof. apply py_eq_trans. Qed.

Lemma py_in_congr x y l :
  well_formed_record x = true -> well_formed_record y = true ->
  record_eq x y = true -> py_in x l = py_in y l.
Proof.
  intros Wx Wy E. unfold py_in.
  induction l as [|item l IH]; [reflexivity|].
  cbn [existsb]. rewrite IH. f_equal.
  destruct (record_eq item x) eqn:Ex; destruct (record_eq item y) eqn:Ey; try reflexivity.
  - now rewrite (record_eq_trans item x y Ex E) in Ey.
  - rewrite (record_eq_sym x y Wx Wy) in E.
    now rewrite (record_eq_trans item y x Ey E) in Ex.
Qed.

Lemma py_in_add_to acc a x :
  well_formed_record a = true -> well_formed_record x = true ->
  py_in x (add_to acc a) = py_in x acc || record_eq a x.
Proof.
  intros Wa Wx. unfold add_to. destruct (py_in a acc) eqn:E.
  - destruct (record_eq a x) eqn:Eax.
    + rewrite <- (py_in_congr a x acc Wa Wx Eax), E. reflexivity.
    + now rewrite orb_false_r.
  - now rewrite py_in_app, py_in_one.
Qed.

Lemma in_collect_and B x : forall A acc,
  well_formed_records A = true -> well_formed_record x = true ->
  py_in x (snd (collect (and_step B) A acc))
  = py_in x acc || (py_in x A && py_in x B).
Proof.
  induction A as [|a A IH]; intros acc WA Wx.
  - cbn. now rewrite orb_false_r.
  - cbn [well_formed_records forallb] in WA. apply andb_prop in WA.
    destruct WA as [Wa WA].
    cbn [collect and_step]. unfold dict_copy.
    change (py_in x (a :: A)) with (record_eq a x || py_in x A).
    destruct (py_in a B) eqn:E.
    + rewrite (IH _ WA Wx), (py_in_add_to acc a x Wa Wx).
      destruct (record_eq a x) eqn:Eax.
      * rewrite <- (py_in_congr a x B Wa Wx Eax), E.
        destruct (py_in x acc), (py_in x A); reflexivity.
      * now rewrite orb_false_r.
    + rewrite (IH _ WA Wx).
      destruct (record_eq a x) eqn:Eax; [|reflexivity].
      rewrite <- (py_in_congr a x B Wa Wx Eax), E.
      destruct (py_in x acc), (py_in x A); reflexivity.
Qed.

Lemma in_collect_or_first A0 x : forall B acc,
  well_formed_records B = true -> well_formed_record x = true ->
  py_in x (snd (collect (or_first_step A0) B acc)) = py_in x acc || py_in x B.
Proof.
  induction B as [|b B IH]; intros acc WB Wx.
  - cbn. now rewrite orb_false_r.
  - cbn [well_formed_records forallb] in WB. apply andb_prop in WB.
    destruct WB as [Wb WB].
    cbn [collect or_first_step]. unfold dict_copy.
    change (py_in x (b :: B)) with (record_eq b x || py_in x B).
    assert ((if py_in b A0 then b else b) = b) as -> by now destruct (py_in b A0).
    rewrite (IH _ WB Wx), (py_in_add_to acc b x Wb Wx).
    now rewrite orb_assoc.
Qed.

Lemma in_collect_or_second x : forall A acc,
  well_formed_records A = true -> well_formed_record x = true ->
  py_in x (snd (collect or_second_step A acc)) = py_in x acc || py_in x A.
Proof.
  induction A as [|a A IH]; intros acc WA Wx.
  - cbn. now rewrite orb_false_r.
  - cbn [well_formed_records forallb] in WA. apply andb_prop in WA.
    destruct WA as [Wa WA].
    cbn [collect or_second_step].
    change (py_in x (a :: A)) with (record_eq a x || py_in x A).
    destruct (py_in a acc) eqn:E; cbn [negb].
    + rewrite (IH _ WA Wx).
      destruct (record_eq a x) eqn:Eax; [|reflexivity].
      rewrite <- (py_in_congr a x acc Wa Wx Eax), E. reflexivity.
    + rewrite (IH _ WA Wx), (py_in_add_to acc a x Wa Wx).
      now rewrite orb_assoc.
Qed.

(** X12: [&] and [|] are intersection and union for membership: a record
    is [in] the result of [self & other] exactly when it is in both,
    and in the result of [self | other] exactly when it is in one of
    them, whether or not the operands hold records twice. *)
Theorem and_or_are_set_operations (h : heap) (self other : ref) (A B : list record)
  (x : record) :
  nth_error h self = Some A ->
  nth_error h other = Some B ->
  well_formed_records A = true ->
  well_formed_records B = true ->
  well_formed_record x = true ->
  (exists h',
     OpResponse.__and__ self other h = (Ok (List.length h), h')
     /\ OpResponse.__contains__ (List.length h) x h' = (Ok (py_in x A && py_in x B), h'))
  /\ (exists h',
        OpResponse.__or__ self other h = (Ok (List.length h), h')
        /\ OpResponse.__contains__ (List.length h) x h' = (Ok (py_in x A || py_in x B), h')).
Proof.
  intros HA HB WA WB Wx. split.
  - rewrite (and_run h self other A B HA HB). eexists. split; [reflexivity|].
    rewrite (contains_at _ _ _ x (nth_error_last h _)).
    now rewrite (in_collect_and B x A [] WA Wx).
  - rewrite (or_run h self other A B HA HB). eexists. split; [reflexivity|].
    rewrite (contains_at _ _ _ x (nth_error_last h _)).
    rewrite (in_collect_or_second x A _ WA Wx), (in_collect_or_first A x B [] WB Wx).
    cbn [py_in existsb orb]. now rewrite orb_comm.
Qed.

Lemma and_or_are_set_operations_witness :
  (exists h',
     OpResponse.__and__ 0 1 [[github; gitlab]; [email; github]] = (Ok 2, h')
     /\ OpResponse.__contains__ 2 github h'
        = (Ok (py_in github [github; gitlab] && py_in github [email; github]), h'))
  /\ (exists h',
        OpResponse.__or__ 0 1 [[github; gitlab]; [email; github]] = (Ok 2, h')
        /\ OpResponse.__contains__ 2 github h'
           = (Ok (py_in github [github; gitlab] || py_in github [email; github]), h')).
Proof.
  exact (and_or_are_set_operations [[github; gitlab]; [email; github]] 0 1
           [github; gitlab] [email; github] github
           eq_refl eq_refl eq_refl eq_refl eq_refl).
Defined.

Lemma subsequence_refl {A} (l : list A) : subsequence l l.
Proof. induction l; constructor; assumption. Qed.

Lemma subsequence_nil_l {A} (l : list A) : subsequence [] l.
Proof. induction l; constructor; assumption. Qed.

Lemma subsequence_length {A} (l l' : list A) :
  subsequence l l' -> List.length l <= List.length l'.
Proof. induction 1; cbn [List.length]; lia. Qed.

Lemma subsequence_In {A} (l l' : list A) x : subsequence l l' -> In x l -> In x l'.
Proof.
  induction 1; intros Hin; [assumption| right; auto |].
  destruct Hin as [->|Hin]; [now left | right; auto].
Qed.

(** A loop that adds the record under it, or passes, keeps a subsequence
    of the records it runs over. *)
Lemma collect_subsequence step :
  (forall acc obj x, step acc obj = Ok (Some x) -> x = obj) ->
  forall objs acc, exists kept,
    snd (collect step objs acc) = acc ++ kept /\ subsequence kept objs.
Proof.
  intros Hstep. induction objs as [|obj objs IH]; intros acc.
  - exists []. split; [now rewrite app_nil_r | constructor].
  - cbn [collect]. destruct (step acc obj) as [[x|]| |] eqn:E.
    + apply Hstep in E. subst x. unfold add_to. destruct (py_in obj acc).
      * destruct (IH acc) as (kept & -> & Hs). exists kept. split; [reflexivity|].
        now constructor.
      * destruct (IH (acc ++ [obj])) as (kept & -> & Hs). exists (obj :: kept).
        split; [now rewrite <- app_assoc | now constructor].
    + destruct (IH acc) as (kept & -> & Hs). exists kept. split; [reflexivity|].
      now constructor.
    + exists []. split; [now rewrite app_nil_r | apply subsequence_nil_l].
    + exists []. split; [now rewrite app_nil_r | apply subsequence_nil_l].
Qed.

(** X13: [filter], [fuzzy] and [&] return records of [self] in the order
    of [self], some left out, also when [cmp_func] raises on the way;
    [|] returns records of [other] in their order followed by records of
    [self] in theirs.  So no result is longer than its source, and a
    union is no longer than its two operands together. *)
Theorem results_keep_the_order_of_their_source (h : heap) (self other : ref)
  (A B : list record) :
  nth_error h self = Some A ->
  nth_error h other = Some B ->
  (forall tag cmp_func, exists o kept,
     OpResponse.filter self tag cmp_func h = (o, h ++ [kept])
     /\ subsequence kept A /\ List.length kept <= List.length A)
  /\ (forall cmp_func, exists o kept,
        OpResponse.fuzzy self cmp_func h = (o, h ++ [kept])
        /\ subsequence kept A /\ List.length kept <= List.length A)
  /\ (exists kept,
        OpResponse.__and__ self other h = (Ok (List.length h), h ++ [kept])
        /\ subsequence kept A /\ List.length kept <= List.length A)
  /\ (exists from_other from_self,
        OpResponse.__or__ self other h
        = (Ok (List.length h), h ++ [from_other ++ from_self])
        /\ subsequence from_other B /\ subsequence from_self A
        /\ List.length (from_other ++ from_self) <= List.length A + List.length B).
Proof.
  intros HA HB. repeat split.
  - intros tag cmp_func. rewrite (filter_run h self tag cmp_func A HA).
    destruct (collect_subsequence (fun _ => filter_step tag cmp_func)
                (filter_step_same tag cmp_func) A []) as (kept & E & Hs).
    rewrite E. do 2 eexists. split; [reflexivity|]. split; [exact Hs|].
    now apply subsequence_length.
  - intros cmp_func. rewrite (fuzzy_run h self cmp_func A HA).
    destruct (collect_subsequence (fun _ => fuzzy_step cmp_func)
                (fuzzy_step_same cmp_func) A []) as (kept & E & Hs).
    rewrite E. do 2 eexists. split; [reflexivity|]. split; [exact Hs|].
    now apply subsequence_length.
  - rewrite (and_run h self other A B HA HB).
    destruct (collect_subsequence (and_step B) (and_step_same B) A [])
      as (kept & E & Hs).
    rewrite E. eexists. split; [reflexivity|]. split; [exact Hs|].
    now apply subsequence_length.
  - rewrite (or_run h self other A B HA HB).
    destruct (collect_subsequence (or_first_step A) (or_first_step_same A) B [])
      as (k1 & E1 & Hs1).
    rewrite E1. cbn [app].
    destruct (collect_subsequence or_second_step or_second_step_same A k1)
      as (k2 & E2 & Hs2).
    rewrite E2. exists k1, k2. split; [reflexivity|]. split; [exact Hs1|].
    split; [exact Hs2|]. rewrite length_app.
    apply subsequence_length in Hs1, Hs2. lia.
Qed.

Lemma results_keep_the_order_of_their_source_witness :
  exists kept,
    OpResponse.__and__ 0 1 [[github; gitlab; email]; [email; github]]
    = (Ok 2, [[github; gitlab; email]; [email; github]] ++ [kept])
    /\ subsequence kept [github; gitlab; email]
    /\ List.length kept <= 3.
Proof.
  exact (proj1 (proj2 (proj2
    (results_keep_the_order_of_their_source
       [[github; gitlab; email]; [email; github]] 0 1
       [github; gitlab; email] [email; github] eq_refl eq_refl)))).
Defined.

Lemma nth_error_update_other (h : heap) r r' objs :
  r <> r' -> nth_error (update r objs h) r' = nth_error h r'.
Proof.
  revert r r'. induction h as [|x h IH]; intros [|r] [|r'] Hne; cbn; try reflexivity;
    [congruence|]. apply IH. congruence.
Qed.

Lemma length_update (h : heap) r objs : List.length (update r objs h) = List.length h.
Proof.
  revert r. induction h as [|x h IH]; intros [|r]; cbn; try reflexivity. now rewrite IH.
Qed.

Lemma add_to_member acc obj :
  well_formed_record obj = true -> py_in obj (add_to acc obj) = true.
Proof.
  intros W. rewrite (py_in_add_to acc obj obj W W), (record_eq_refl obj W).
  apply orb_true_r.
Qed.

Lemma add_to_again acc obj :
  well_formed_record obj = true -> add_to (add_to acc obj) obj = add_to acc obj.
Proof.
  intros W. unfold add_to at 1. now rewrite (add_to_member acc obj W).
Qed.

Lemma add_state h self objs obj :
  nth_error h self = Some objs ->
  OpResponse.add self obj h = (Ok tt, update self (add_to objs obj) h).
Proof.
  intros Hs. unfold OpResponse.add, bind, load, add_to. rewrite Hs.
  assert (self < List.length h)%nat as Hlt by (apply nth_error_Some; congruence).
  destruct (py_in obj objs); cbn [negb].
  - unfold ret. f_equal. clear Hlt. revert self Hs.
    induction h as [|x h IH]; intros [|r] H; cbn in *; try discriminate.
    + now injection H as ->.
    + now rewrite <- (IH r H).
  - unfold store. now rewrite (proj2 (Nat.ltb_lt _ _) Hlt).
Qed.

(** X14: [add] appends the record when the collection has no equal one
    and does nothing otherwise; afterwards the record is [in] the
    collection, [len] has grown by one at most, a second [add] of the
    record changes nothing, and every other collection is as it was. *)
Theorem add_is_an_idempotent_insertion (h : heap) (self : ref)
  (objs : list record) (obj : record) :
  nth_error h self = Some objs ->
  well_formed_record obj = true ->
  exists h',
    OpResponse.add self obj h = (Ok tt, h')
    /\ nth_error h' self = Some (if py_in obj objs then objs else objs ++ [obj])
    /\ OpResponse.__contains__ self obj h' = (Ok true, h')
    /\ OpResponse.__len__ self h'
       = (Ok (if py_in obj objs then List.length objs else S (List.length objs)), h')
    /\ OpResponse.add self obj h' = (Ok tt, h')
    /\ (forall r, r <> self -> nth_error h' r = nth_error h r).
Proof.
  intros Hs W.
  assert (self < List.length h)%nat as Hlt by (apply nth_error_Some; congruence).
  exists (update self (add_to objs obj) h).
  assert (nth_error (update self (add_to objs obj) h) self = Some (add_to objs obj)) as Hnew
    by now apply nth_error_update_same.
  split; [now apply add_state|].
  split; [exact Hnew|].
  split.
  { rewrite (contains_at _ _ _ obj Hnew). now rewrite add_to_member. }
  split.
  { unfold OpResponse.__len__, bind, load, ret. rewrite Hnew. f_equal. f_equal.
    unfold add_to. destruct (py_in obj objs); [reflexivity|].
    rewrite length_app. cbn [List.length]. lia. }
  split.
  { rewrite (add_state _ _ _ obj Hnew), (add_to_again objs obj W). f_equal.
    clear Hnew. revert self Hs Hlt.
    induction h as [|x h IH]; intros [|r] H Hlt; cbn in *; try discriminate; try lia.
    - reflexivity.
    - f_equal. apply (IH r H). lia. }
  intros r Hr. apply nth_error_update_other. congruence.
Qed.

Lemma add_is_an_idempotent_insertion_witness :
  exists h',
    OpResponse.add 0 email [[github; gitlab]] = (Ok tt, h')
    /\ nth_error h' 0
       = Some (if py_in email [github; gitlab] then [github; gitlab]
               else [github; gitlab] ++ [email])
    /\ OpResponse.__contains__ 0 email h' = (Ok true, h')
    /\ OpResponse.__len__ 0 h'
       = (Ok (if py_in email [github; gitlab] then 2 else 3), h')
    /\ OpResponse.add 0 email h' = (Ok tt, h')
    /\ (forall r, r <> 0 -> nth_error h' r = nth_error [[github; gitlab]] r).
Proof.
  exact (add_is_an_idempotent_insertion [[github; gitlab]] 0 [github; gitlab] email
           eq_refl eq_refl).
Defined.

(** X15: [copy] makes a new collection with the records of [self]: a
    record added to the copy is not added to [self]. *)
Theorem a_copy_is_a_collection_of_its_own (h : heap) (self : ref)
  (objs : list record) (obj : record) :
  nth_error h self = Some objs ->
  exists h',
    bind (OpResponse.copy self)
      (fun c => bind (OpResponse.add c obj) (fun _ => ret c)) h
    = (Ok (List.length h), h')
    /\ List.length h <> self
    /\ OpResponse.__iter__ self h' = (Ok objs, h')
    /\ OpResponse.__iter__ (List.length h) h'
       = (Ok (if py_in obj objs then objs else objs ++ [obj]), h').
Proof.
  intros Hs.
  assert (self < List.length h)%nat as Hlt by (apply nth_error_Some; congruence).
  exists (h ++ [add_to objs obj]).
  split.
  { unfold OpResponse.copy, OpResponse.__init__, OpResponse.iter, bind at 1 2.
    unfold load. rewrite Hs. unfold alloc.
    unfold bind. rewrite add_last. reflexivity. }
  split; [lia|].
  unfold OpResponse.__iter__, load.
  rewrite (nth_error_old h [add_to objs obj] self objs Hs), nth_error_last.
  split; reflexivity.
Qed.

Lemma a_copy_is_a_collection_of_its_own_witness :
  exists h',
    bind (OpResponse.copy 0)
      (fun c => bind (OpResponse.add c email) (fun _ => ret c)) [[github; gitlab]]
    = (Ok 1, h')
    /\ 1 <> 0
    /\ OpResponse.__iter__ 0 h' = (Ok [github; gitlab], h')
    /\ OpResponse.__iter__ 1 h'
       = (Ok (if py_in email [github; gitlab] then [github; gitlab]
              else [github; gitlab] ++ [email]), h').
Proof.
  exact (a_copy_is_a_collection_of_its_own [[github; gitlab]] 0 [github; gitlab] email
           eq_refl).
Defined.

(** ** The evaluator, expression by expression *)


Lemma filter_step_test name value obj :
  filter_step name (OpFilter_match value) obj = step_of (filter_test name value) obj.
Proof.
  unfold filter_step, step_of, filter_test.
  destruct (OpResponse._find_value_by_key obj name) as [v|[]|]; try reflexivity.
Qed.

Lemma fuzzy_step_test value obj :
  fuzzy_step (OpFuzzy_match value) obj = step_of (fuzzy_test value) obj.
Proof. reflexivity. Qed.

Lemma collect_select test : forall objs acc,
  unique objs = true ->
  (forall a, In a objs -> py_in a acc = false) ->
  match select test objs with
  | Ok kept => collect (fun _ => step_of test) objs acc = (Ok tt, acc ++ kept)
  | Raise e => fst (collect (fun _ => step_of test) objs acc) = Raise e
  | Unmodelled => fst (collect (fun _ => step_of test) objs acc) = Unmodelled
  end.
Proof.
  induction objs as [|obj objs IH]; intros acc Hu Hacc.
  - cbn. now rewrite app_nil_r.
  - apply unique_cons in Hu. destruct Hu as [Ho Hu].
    assert (collect (fun _ => step_of test) (obj :: objs) acc
            = match test obj with
              | Ok true => collect (fun _ => step_of test) objs (add_to acc obj)
              | Ok false => collect (fun _ => step_of test) objs acc
              | Raise e => (Raise e, acc)
              | Unmodelled => (Unmodelled, acc)
              end) as Hc.
    { cbn [collect]. unfold step_of at 1. destruct (test obj) as [[]| |]; reflexivity. }
    rewrite Hc. clear Hc. cbn [select].
    destruct (test obj) as [[]|e|]; try reflexivity.
    + rewrite add_to_new by (apply Hacc; now left).
      assert (forall a, In a objs -> py_in a (acc ++ [obj]) = false) as Hacc'.
      { intros a Ha. rewrite py_in_app, py_in_one.
        rewrite (Hacc a) by now right. now rewrite (proj1 (Ho a Ha)). }
      specialize (IH (acc ++ [obj]) Hu Hacc').
      destruct (select test objs) as [kept|e|]; try exact IH.
      now rewrite IH, <- app_assoc.
    + assert (forall a, In a objs -> py_in a acc = false) as Hacc'
        by (intros a Ha; apply Hacc; now right).
      specialize (IH acc Hu Hacc').
      destruct (select test objs) as [kept|e|]; exact IH.
Qed.

Lemma select_subsequence test : forall objs kept,
  select test objs = Ok kept -> subsequence kept objs.
Proof.
  induction objs as [|obj objs IH]; intros kept H.
  - injection H as <-. constructor.
  - cbn [select] in H. destruct (test obj) as [hit|e|]; try discriminate.
    destruct (select test objs) as [k|e|]; try discriminate.
    injection H as <-. destruct hit; constructor; now apply IH.
Qed.

Lemma forallb_subsequence {A} (p : A -> bool) l l' :
  subsequence l l' -> forallb p l' = true -> forallb p l = true.
Proof.
  intros Hsub. induction Hsub as [|x l l' Hs IH|x l l' Hs IH]; cbn [forallb];
    intros H; try reflexivity;
    apply andb_prop in H; destruct H as [Hx Hl]; [auto|].
  now rewrite Hx, IH.
Qed.

Lemma unique_subsequence l l' :
  subsequence l l' -> unique l' = true -> unique l = true.
Proof.
  intros Hsub. induction Hsub as [|x l l' Hs IH|x l l' Hs IH]; cbn [unique];
    intros H; try reflexivity;
    apply andb_prop in H; destruct H as [Hx Hl]; [auto|].
  rewrite (forallb_subsequence _ _ _ Hs Hx). now rewrite IH.
Qed.

Lemma filter_subsequence {A} (p : A -> bool) l : subsequence (List.filter p l) l.
Proof. induction l as [|x l IH]; cbn [List.filter]; [|destruct (p x)]; now constructor. Qed.

Lemma collect_ext s1 s2 :
  (forall acc obj, s1 acc obj = s2 acc obj) ->
  forall objs acc, collect s1 objs acc = collect s2 objs acc.
Proof.
  intros H. induction objs as [|obj objs IH]; intros acc; [reflexivity|].
  cbn [collect]. rewrite H. destruct (s2 acc obj) as [[x|]| |]; auto.
Qed.

Lemma union_unique L R :
  unique L = true -> unique R = true ->
  well_formed_records L = true -> well_formed_records R = true ->
  unique (R ++ List.filter (fun a => negb (py_in a R)) L) = true
  /\ well_formed_records (R ++ List.filter (fun a => negb (py_in a R)) L) = true.
Proof.
  intros UL UR WL WR.
  pose proof (collect_or_second R L [] UL (fun _ _ => eq_refl)) as E.
  rewrite app_nil_r in E.
  pose proof (collect_unique or_second_step or_second_step_same L R WL WR UR) as [U W].
  rewrite E in U, W. cbn [snd app] in U, W. now split.
Qed.

Lemma select_run test (A : list record) :
  unique A = true ->
  match select test A with
  | Ok kept => collect (fun _ => step_of test) A [] = (Ok tt, kept)
  | Raise e => fst (collect (fun _ => step_of test) A []) = Raise e
  | Unmodelled => fst (collect (fun _ => step_of test) A []) = Unmodelled
  end.
Proof. intros U. exact (collect_select test A [] U (fun _ _ => eq_refl)). Qed.

Lemma evaluate_denote e : forall objects h A,
  nth_error h objects = Some A ->
  unique A = true -> well_formed_records A = true ->
  exists o ext,
    OpDatabase.evaluate objects e h = (o, h ++ ext)
    /\ match denote e A with
       | Ok res =>
           exists r, o = Ok r /\ nth_error (h ++ ext) r = Some res
                     /\ unique res = true /\ well_formed_records res = true
       | Raise x => o = Raise x
       | Unmodelled => o = Unmodelled
       end.
Proof.
  induction e as [name value|value|l IHl r IHr|l IHl r IHr];
    intros objects h A HA UA WA.
  - cbn [OpDatabase.evaluate denote]. rewrite (filter_run _ _ _ _ _ HA).
    rewrite (collect_ext _ (fun _ => step_of (filter_test name value))
               (fun _ obj => filter_step_test name value obj)).
    pose proof (select_run (filter_test name value) A UA) as S.
    pose proof (select_subsequence (filter_test name value) A) as Sub.
    eexists _, [_]. split; [reflexivity|].
    destruct (select (filter_test name value) A) as [kept|x|].
    + rewrite S. cbn [fst snd finish]. exists (List.length h).
      split; [reflexivity|]. split; [apply nth_error_last|].
      split; [exact (unique_subsequence _ _ (Sub kept eq_refl) UA)|].
      exact (forallb_subsequence _ _ _ (Sub kept eq_refl) WA).
    + now rewrite S.
    + now rewrite S.
  - cbn [OpDatabase.evaluate denote]. rewrite (fuzzy_run _ _ _ _ HA).
    rewrite (collect_ext _ (fun _ => step_of (fuzzy_test value))
               (fun _ obj => fuzzy_step_test value obj)).
    pose proof (select_run (fuzzy_test value) A UA) as S.
    pose proof (select_subsequence (fuzzy_test value) A) as Sub.
    eexists _, [_]. split; [reflexivity|].
    destruct (select (fuzzy_test value) A) as [kept|x|].
    + rewrite S. cbn [fst snd finish]. exists (List.length h).
      split; [reflexivity|]. split; [apply nth_error_last|].
      split; [exact (unique_subsequence _ _ (Sub kept eq_refl) UA)|].
      exact (forallb_subsequence _ _ _ (Sub kept eq_refl) WA).
    + now rewrite S.
    + now rewrite S.
  - cbn [OpDatabase.evaluate denote]. unfold bind at 1.
    destruct (IHl objects h A HA UA WA) as (o1 & ext1 & -> & R1).
    destruct (denote l A) as [L|x|];
      [|subst o1; now exists (Raise x), ext1|subst o1; now exists Unmodelled, ext1].
    destruct R1 as (r1 & -> & H1 & UL & WL).
    unfold bind at 1.
    destruct (IHr objects (h ++ ext1) A (nth_error_old _ _ _ _ HA) UA WA)
      as (o2 & ext2 & -> & R2).
    destruct (denote r A) as [R|x|];
      [|subst o2; exists (Raise x), (ext1 ++ ext2); now rewrite app_assoc
       |subst o2; exists Unmodelled, (ext1 ++ ext2); now rewrite app_assoc].
    destruct R2 as (r2 & -> & H2 & UR & WR).
    rewrite (or_result _ _ _ _ _ (nth_error_old _ ext2 _ _ H1) H2 UL UR).
    eexists _, (ext1 ++ ext2 ++ [_]). rewrite <- !app_assoc. split; [reflexivity|].
    eexists. split; [reflexivity|].
    split; [rewrite !app_assoc; apply nth_error_last|].
    now apply union_unique.
  - cbn [OpDatabase.evaluate denote]. unfold bind at 1.
    destruct (IHl objects h A HA UA WA) as (o1 & ext1 & -> & R1).
    destruct (denote l A) as [L|x|];
      [|subst o1; now exists (Raise x), ext1|subst o1; now exists Unmodelled, ext1].
    destruct R1 as (r1 & -> & H1 & UL & WL).
    unfold bind at 1.
    destruct (IHr objects (h ++ ext1) A (nth_error_old _ _ _ _ HA) UA WA)
      as (o2 & ext2 & -> & R2).
    destruct (denote r A) as [R|x|];
      [|subst o2; exists (Raise x), (ext1 ++ ext2); now rewrite app_assoc
       |subst o2; exists Unmodelled, (ext1 ++ ext2); now rewrite app_assoc].
    destruct R2 as (r2 & -> & H2 & UR & WR).
    rewrite (and_result _ _ _ _ _ (nth_error_old _ ext2 _ _ H1) H2 UL).
    eexists _, (ext1 ++ ext2 ++ [_]). rewrite <- !app_assoc. split; [reflexivity|].
    eexists. split; [reflexivity|].
    split; [rewrite !app_assoc; apply nth_error_last|].
    split.
    + exact (unique_subsequence _ _ (filter_subsequence _ L) UL).
    + exact (forallb_subsequence _ _ _ (filter_subsequence _ L) WL).
Qed.

(** X16: what the evaluator returns for an expression over a database
    without repetition is a function of the records alone: a leaf keeps,
    in order, the records its test accepts; a union is the result of the
    right operand followed by the records of the left one that are not
    in it; an intersection is the records of the left result that are in
    the right one; both operands are evaluated over the whole database,
    and the exception of the run is the first one in this order. *)
Theorem evaluation_is_compositional (e : expr) (objects : ref) (h : heap)
  (A : list record) :
  nth_error h objects = Some A ->
  unique A = true ->
  well_formed_records A = true ->
  contents_of (OpDatabase.evaluate objects e h) = denote e A.
Proof.
  intros HA UA WA.
  destruct (evaluate_denote e objects h A HA UA WA) as (o & ext & -> & R).
  destruct (denote e A) as [res|x|].
  - destruct R as (r & -> & Hr & _). unfold contents_of. now rewrite Hr.
  - now subst o.
  - now subst o.
Qed.

Lemma evaluation_is_compositional_witness :
  contents_of
    (OpDatabase.evaluate 0
       (OpIntersectionOperator (OpFuzzy "^Git.*$") (OpFilter "title" "^.*hub$"))
       [[github; gitlab; email]])
  = denote (OpIntersectionOperator (OpFuzzy "^Git.*$") (OpFilter "title" "^.*hub$"))
      [github; gitlab; email].
Proof.
  exact (evaluation_is_compositional _ 0 [[github; gitlab; email]]
           [github; gitlab; email] eq_refl eq_refl eq_refl).
Defined.

(** X17: a query over a database without repetition returns the records
    its parsed expression stands for, and raises what parsing or that
    expression raises. *)
Theorem a_query_is_parsed_then_denoted (objs : list record) (text : string) :
  unique objs = true -> well_formed_records objs = true ->
  query objs (Some text)
  = match OpTqlParser.parse text with
    | Ok ast =>
        match expression ast with
        | Some e => denote e objs
        | None => Raise TypeError
        end
    | Raise e => Raise e
    | Unmodelled => Unmodelled
    end.
Proof.
  intros U W. rewrite query_text.
  destruct (OpTqlParser.parse text) as [[[e|]]|x|]; try reflexivity.
  cbn [expression].
  destruct (evaluate_denote e 1 [objs; objs] objs eq_refl U W) as (o & ext & -> & R).
  destruct (denote e objs) as [res|x|].
  - destruct R as (r & -> & Hr & _). unfold contents_of. now rewrite Hr.
  - now subst o.
  - now subst o.
Qed.

Lemma a_query_is_parsed_then_denoted_witness :
  query [github; gitlab; email] (Some ("title=" ++ quoted "Git*")%string)
  = match OpTqlParser.parse ("title=" ++ quoted "Git*")%string with
    | Ok ast =>
        match expression ast with
        | Some e => denote e [github; gitlab; email]
        | None => Raise TypeError
        end
    | Raise e => Raise e
    | Unmodelled => Unmodelled
    end.
Proof.
  exact (a_query_is_parsed_then_denoted [github; gitlab; email]
           ("title=" ++ quoted "Git*")%string eq_refl eq_refl).
Defined.

Lemma evaluate_sound e : forall objects h A,
  nth_error h objects = Some A ->
  well_formed_records A = true ->
  exists o ext,
    OpDatabase.evaluate objects e h = (o, h ++ ext)
    /\ forall r, o = Ok r ->
         exists res, nth_error (h ++ ext) r = Some res
                     /\ (forall x, In x res -> In x A)
                     /\ unique res = true /\ well_formed_records res = true.
Proof.
  induction e as [name value|value|l IHl r IHr|l IHl r IHr];
    intros objects h A HA WA.
  - cbn [OpDatabase.evaluate]. rewrite (filter_run _ _ _ _ _ HA).
    eexists _, [_]. split; [reflexivity|]. intros r Hr.
    destruct (fst (collect _ A [])); try discriminate. injection Hr as <-.
    eexists. split; [apply nth_error_last|].
    destruct (collect_unique (fun _ => filter_step name (OpFilter_match value))
                (filter_step_same name (OpFilter_match value)) A [] WA eq_refl eq_refl)
      as [U W].
    repeat split; try assumption.
    intros x Hx.
    destruct (collect_subset _ (filter_step_same name (OpFilter_match value)) A [] x Hx)
      as [[]|[Hin _]]. exact Hin.
  - cbn [OpDatabase.evaluate]. rewrite (fuzzy_run _ _ _ _ HA).
    eexists _, [_]. split; [reflexivity|]. intros r Hr.
    destruct (fst (collect _ A [])); try discriminate. injection Hr as <-.
    eexists. split; [apply nth_error_last|].
    destruct (collect_unique (fun _ => fuzzy_step (OpFuzzy_match value))
                (fuzzy_step_same (OpFuzzy_match value)) A [] WA eq_refl eq_refl)
      as [U W].
    repeat split; try assumption.
    intros x Hx.
    destruct (collect_subset _ (fuzzy_step_same (OpFuzzy_match value)) A [] x Hx)
      as [[]|[Hin _]]. exact Hin.
  - cbn [OpDatabase.evaluate]. unfold bind at 1.
    destruct (IHl objects h A HA WA) as (o1 & ext1 & -> & R1).
    destruct o1 as [r1|x|];
      [|exists (Raise x), ext1; split; [reflexivity|discriminate]
       |exists Unmodelled, ext1; split; [reflexivity|discriminate]].
    destruct (R1 r1 eq_refl) as (L & H1 & SL & UL & WL).
    unfold bind at 1.
    destruct (IHr objects (h ++ ext1) A (nth_error_old _ _ _ _ HA) WA)
      as (o2 & ext2 & -> & R2).
    destruct o2 as [r2|x|];
      [|exists (Raise x), (ext1 ++ ext2); rewrite app_assoc; split;
          [reflexivity|discriminate]
       |exists Unmodelled, (ext1 ++ ext2); rewrite app_assoc; split;
          [reflexivity|discriminate]].
    destruct (R2 r2 eq_refl) as (R & H2 & SR & UR & WR).
    rewrite (or_run _ _ _ _ _ (nth_error_old _ ext2 _ _ H1) H2).
    eexists _, (ext1 ++ ext2 ++ [_]). rewrite <- !app_assoc. split; [reflexivity|].
    intros r0 Hr0. injection Hr0 as <-.
    eexists. split; [rewrite !app_assoc; apply nth_error_last|].
    destruct (collect_unique (or_first_step L) (or_first_step_same L) R []
                WR eq_refl eq_refl) as [U1 W1].
    destruct (collect_unique or_second_step or_second_step_same L _ WL W1 U1)
      as [U2 W2].
    repeat split; try assumption.
    intros x Hx.
    destruct (collect_subset _ or_second_step_same L _ x Hx) as [Hx1|[Hin _]];
      [|now apply SL].
    destruct (collect_subset _ (or_first_step_same L) R [] x Hx1) as [[]|[Hin _]].
    now apply SR.
  - cbn [OpDatabase.evaluate]. unfold bind at 1.
    destruct (IHl objects h A HA WA) as (o1 & ext1 & -> & R1).
    destruct o1 as [r1|x|];
      [|exists (Raise x), ext1; split; [reflexivity|discriminate]
       |exists Unmodelled, ext1; split; [reflexivity|discriminate]].
    destruct (R1 r1 eq_refl) as (L & H1 & SL & UL & WL).
    unfold bind at 1.
    destruct (IHr objects (h ++ ext1) A (nth_error_old _ _ _ _ HA) WA)
      as (o2 & ext2 & -> & R2).
    destruct o2 as [r2|x|];
      [|exists (Raise x), (ext1 ++ ext2); rewrite app_assoc; split;
          [reflexivity|discriminate]
       |exists Unmodelled, (ext1 ++ ext2); rewrite app_assoc; split;
          [reflexivity|discriminate]].
    destruct (R2 r2 eq_refl) as (R & H2 & SR & UR & WR).
    rewrite (and_run _ _ _ _ _ (nth_error_old _ ext2 _ _ H1) H2).
    eexists _, (ext1 ++ ext2 ++ [_]). rewrite <- !app_assoc. split; [reflexivity|].
    intros r0 Hr0. injection Hr0 as <-.
    eexists. split; [rewrite !app_assoc; apply nth_error_last|].
    destruct (collect_unique (and_step R) (and_step_same R) L []
                WL eq_refl eq_refl) as [U1 W1].
    repeat split; try assumption.
    intros x Hx.
    destruct (collect_subset _ (and_step_same R) L [] x Hx) as [[]|[Hin _]].
    now apply SL.
Qed.

(** X18: the records a query returns are records of the database, and no
    two of them are equal, even when the database holds a record
    twice. *)
Theorem query_returns_records_of_the_database (objs : list record) (text : string) :
  well_formed_records objs = true ->
  match query objs (Some text) with
  | Ok res => (forall x, In x res -> In x objs) /\ duplicate_free res
  | _ => True
  end.
Proof.
  intros W. rewrite query_text.
  destruct (OpTqlParser.parse text) as [[[e|]]|x|]; try exact I.
  cbn [expression].
  destruct (evaluate_sound e 1 [objs; objs] objs eq_refl W) as (o & ext & -> & R).
  unfold contents_of. destruct o as [r|x|]; try exact I.
  destruct (R r eq_refl) as (res & -> & S & U & _).
  split; [exact S | now apply unique_duplicate_free].
Qed.

Lemma query_returns_records_of_the_database_witness :
  query [github; github; gitlab] (Some (quoted "Git*")) = Ok [github; gitlab]
  /\ (forall x, In x [github; gitlab] -> In x [github; github; gitlab])
  /\ duplicate_free [github; gitlab].
Proof.
  split; [reflexivity|].
  exact (query_returns_records_of_the_database [github; github; gitlab]
           (quoted "Git*") eq_refl).
Defined.

(** ** The parser: syntax errors, and terms as text *)

Section ParserErrors.
Import OpTqlLexer OpTqlParser Term.

Lemma term_parse t b rest :
  base b = true -> ends rest = true ->
  parse_loop (term_tokens t ++ rest) b
  = parse_loop rest ((over b, ExprVal (term_expr t)) :: b).
Proof. exact (proj1 term_atom_parse t b rest). Qed.

Lemma atom_then_operand a b st tk rest :
  context b st -> starts_operand tk = true ->
  parse_loop (atom_tokens a ++ tk :: rest) st = Raise (ParsingError (Some (value tk))).
Proof.
  intros Hc Hs. destruct tk as [ty v]. unfold starts_operand in Hs. cbn [type] in Hs.
  destruct a as [l|t].
  - destruct Hc as [b Hb|b op e Hb];
      destruct b as [|[[] w] b]; try discriminate Hb; try destruct op;
      destruct l; destruct ty; try discriminate Hs; reflexivity.
  - cbn [atom_tokens app].
    assert (parse_loop (tok LPAREN "(" :: (term_tokens t ++ [tok RPAREN ")"]) ++ {| type := ty; value := v |} :: rest) st
            = parse_loop (term_tokens t ++ tok RPAREN ")" :: {| type := ty; value := v |} :: rest)
                ((q_LPAREN, TokenVal (StrVal "(")) :: st)) as ->.
    { rewrite <- app_assoc. cbn [app].
      destruct Hc as [b Hb|b op e Hb];
        destruct b as [|[[] w] b]; try discriminate Hb; try destruct op; reflexivity. }
    rewrite (term_parse t ((q_LPAREN, TokenVal (StrVal "(")) :: st)
               (tok RPAREN ")" :: {| type := ty; value := v |} :: rest) eq_refl eq_refl).
    destruct ty; try discriminate Hs; reflexivity.
Qed.

Lemma term_then_operand t tk rest :
  starts_operand tk = true ->
  parse_loop (term_tokens t ++ tk :: rest) [] = Raise (ParsingError (Some (value tk))).
Proof.
  intros Hs. destruct t as [a|t op a]; cbn [term_tokens].
  - exact (atom_then_operand a [] [] tk rest (context_base [] eq_refl) Hs).
  - rewrite <- app_assoc. cbn [app].
    rewrite (term_parse t [] _ eq_refl) by now destruct op.
    assert (forall more,
              parse_loop (Chain.operator_token op :: more)
                [(over [], ExprVal (term_expr t))]
              = parse_loop more
                  [(match op with Chain.or_ => q_expr_OR | Chain.and_ => q_expr_AND end,
                    TokenVal (value (Chain.operator_token op)));
                   (over [], ExprVal (term_expr t))]) as -> by now destruct op.
    exact (atom_then_operand a [] _ tk rest (context_op [] op _ eq_refl) Hs).
Qed.

(** X3: a term, which is an atom followed by operators and atoms, where
    an atom is a leaf or a term in parentheses, parses to the tree of
    [term_expr]: the operators group from the left, and a term in
    parentheses is one operand, for which [p_expr_par] makes no node of
    its own. *)
Theorem parentheses_make_one_operand (t : term) :
  parse_loop (term_tokens t) [] = Ok {| expression := Some (term_expr t) |}.
Proof.
  rewrite <- (app_nil_r (term_tokens t)).
  now rewrite (term_parse t [] [] eq_refl eq_refl).
Qed.

(** X4: where a syntax error is reported.  After a term, an operator
    with nothing behind it and a parenthesis left open fail at the end
    of the input; a closing parenthesis too many fails at that
    parenthesis; a query cannot start with an operator, [=] or [)]; and
    two operands with no operator between them fail at the first token
    of the second. *)
Theorem syntax_errors_name_their_place (t : term) :
  (forall op,
     parse_loop (term_tokens t ++ [Chain.operator_token op]) []
     = Raise (ParsingError None))
  /\ parse_loop (tok LPAREN "(" :: term_tokens t) [] = Raise (ParsingError None)
  /\ parse_loop (term_tokens t ++ [tok RPAREN ")"]) []
     = Raise (ParsingError (Some (StrVal ")")))
  /\ (forall tk rest,
        starts_operand tk = false ->
        parse_loop (tk :: rest) [] = Raise (ParsingError (Some (value tk))))
  /\ (forall tk rest,
        starts_operand tk = true ->
        parse_loop (term_tokens t ++ tk :: rest) []
        = Raise (ParsingError (Some (value tk)))).
Proof.
  repeat split.
  - intros op. rewrite (term_parse t [] _ eq_refl) by now destruct op.
    now destruct op.
  - change (parse_loop (tok LPAREN "(" :: term_tokens t) [])
      with (parse_loop (term_tokens t) [(q_LPAREN, TokenVal (StrVal "("))]).
    rewrite <- (app_nil_r (term_tokens t)).
    now rewrite (term_parse t [(q_LPAREN, TokenVal (StrVal "("))] [] eq_refl eq_refl).
  - now rewrite (term_parse t [] [tok RPAREN ")"] eq_refl eq_refl).
  - intros [ty v] rest Hs. unfold starts_operand in Hs. cbn [type] in Hs.
    destruct ty; try discriminate Hs; reflexivity.
  - intros tk rest. apply term_then_operand.
Qed.

End ParserErrors.

(** X5: [parse] returns a tree or raises [ParsingError], whatever the
    text: the tree always has an expression, so the branch of [p_input]
    for an empty right-hand side never runs, every pattern of the tree
    is a regular expression [re] accepts, and [raw_query] never returns
    the [None] that [_evaluate_expression] has for an empty tree. *)
Theorem parse_returns_a_tree_or_a_syntax_error (text : string) :
  match OpTqlParser.parse text with
  | Ok ast => exists e, expression ast = Some e /\ expr_compiles e = true
  | Raise (ParsingError _) => True
  | _ => False
  end
  /\ forall self h, fst (OpDatabase.raw_query self (Some text) h) <> Ok None.
Proof.
  pose proof (parse_total text) as T.
  pose proof (parse_loop_full (OpTqlLexer.tokens text) []) as F.
  fold (OpTqlParser.parse text) in F.
  destruct (OpTqlParser.parse text) as [ast|x|] eqn:P.
  - specialize (F ast eq_refl eq_refl). destruct ast as [[e|]]; [|now elim F].
    split; [now exists e|].
    intros self h. unfold OpDatabase.raw_query, bind at 1, lift. rewrite P.
    unfold OpDatabase._evaluate_ast, bind at 1.
    destruct (OpResponse.__init__ _ h) as [[objects|y|] h1]; cbn [fst]; try discriminate.
    cbn [expression OpDatabase._evaluate_expression]. unfold bind, ret.
    destruct (OpDatabase.evaluate objects e h1) as [[r|y|] h2]; cbn [fst]; discriminate.
  - split; [exact T|]. intros self h.
    unfold OpDatabase.raw_query, bind, lift. rewrite P. discriminate.
  - contradiction.
Qed.

Section TermsAsText.
Import OpTqlLexer OpTqlParser Term.

(** X6: lexer and parser together: a term whose tokens have the shape
    of their rules, written out with its parentheses and a space after
    each token, parses to its tree. *)
Theorem a_term_parses_to_its_tree (t : term) :
  forallb lexed (term_tokens t) = true ->
  parse (tokens_text (term_tokens t)) = Ok {| expression := Some (term_expr t) |}.
Proof.
  intros H. unfold parse. rewrite (tokens_of_text _ H). apply parse_term_tokens.
Qed.

Lemma a_term_parses_to_its_tree_witness :
  parse ("title = " ++ quoted "Git*" ++ " & ( hub | " ++ quoted "lab" ++ " ) ")%string
  = Ok {| expression :=
            Some (OpIntersectionOperator
                    (OpFilter "title" "^Git.*$")
                    (OpUnionOperator (OpFuzzy "^hub$") (OpFuzzy "^lab$"))) |}.
Proof.
  exact (a_term_parses_to_its_tree
           (t_bin (t_atom (a_leaf (Chain.pair_STRING "title" "Git*"))) Chain.and_
              (a_paren (t_bin (t_atom (a_leaf (Chain.bare_NAME "hub"))) Chain.or_
                          (a_leaf (Chain.bare_STRING "lab")))))
           eq_refl).
Defined.

End TermsAsText.

(** ** Printing collections and expressions *)


Lemma str_join_named sep objs :
  str_join sep (map (dict_get "uuid") objs)
  = if forallb named objs then Ok (String.concat sep (map uuid_of objs))
    else Raise TypeError.
Proof.
  induction objs as [|obj objs IH]; [reflexivity|].
  cbn [map str_join forallb]. unfold named at 1, uuid_of at 1.
  destruct (dict_get "uuid" obj) as [[| | |s| |]|]; try reflexivity.
  cbn [andb]. destruct objs as [|obj' objs]; [reflexivity|].
  cbn [map] in *. rewrite IH.
  destruct (forallb named (obj' :: objs)); reflexivity.
Qed.

Lemma repr_at h self objs :
  nth_error h self = Some objs ->
  OpResponse__repr__ self h
  = (if forallb named objs
     then Ok ("<OpResponse [" ++ String.concat ", " (map uuid_of objs) ++ "]>")%string
     else Raise TypeError, h).
Proof.
  intros H. unfold OpResponse__repr__, bind, load, lift, ret. rewrite H.
  rewrite str_join_named. now destruct (forallb named objs).
Qed.

Lemma forallb_incl {A} (p : A -> bool) l l' :
  (forall x, In x l -> In x l') -> forallb p l' = true -> forallb p l = true.
Proof.
  intros S H. rewrite forallb_forall in *. auto.
Qed.

(** X19: [OpResponse.__repr__] prints the uuids of the records between
    [<OpResponse []] and [>], separated by a comma and a space, and
    raises [TypeError] as soon as one record has no string under
    [uuid]; when every record of the database has one, whatever the
    evaluator returns can be printed. *)
Theorem results_print_when_the_database_does (e : expr) (objects : ref) (h : heap)
  (A : list record) :
  nth_error h objects = Some A ->
  well_formed_records A = true ->
  OpResponse__repr__ objects h
  = (if forallb named A
     then Ok ("<OpResponse [" ++ String.concat ", " (map uuid_of A) ++ "]>")%string
     else Raise TypeError, h)
  /\ (forallb named A = true ->
      forall r h', OpDatabase.evaluate objects e h = (Ok r, h') ->
        exists res,
          nth_error h' r = Some res
          /\ OpResponse__repr__ r h'
             = (Ok ("<OpResponse [" ++ String.concat ", " (map uuid_of res) ++ "]>")%string, h')).
Proof.
  intros HA WA. split; [now apply repr_at|].
  intros N r h' E.
  destruct (evaluate_sound e objects h A HA WA) as (o & ext & E' & R).
  rewrite E in E'. injection E' as <- ->.
  destruct (R r eq_refl) as (res & Hr & S & _).
  exists res. split; [exact Hr|].
  rewrite (repr_at _ _ _ Hr). now rewrite (forallb_incl named res A S N).
Qed.

Lemma results_print_when_the_database_does_witness :
  OpResponse__repr__ 0 [[[("uuid", VStr "a")]; [("uuid", VStr "b")]]]
  = (Ok "<OpResponse [a, b]>", [[[("uuid", VStr "a")]; [("uuid", VStr "b")]]]).
Proof.
  exact (proj1 (results_print_when_the_database_does (OpFuzzy "^a$") 0
                  [[[("uuid", VStr "a")]; [("uuid", VStr "b")]]]
                  [[("uuid", VStr "a")]; [("uuid", VStr "b")]] eq_refl eq_refl)).
Defined.

Lemma union_is_larger a : forall b, a <> OpUnionOperator a b.
Proof. induction a; intros b' H; try discriminate. injection H as H1 H2. now apply IHa1 in H1. Qed.

Lemma intersection_is_larger a : forall b, a <> OpIntersectionOperator a b.
Proof. induction a; intros b' H; try discriminate. injection H as H1 H2. now apply IHa1 in H1. Qed.

Lemma string_append_assoc (a b c : string) : ((a ++ b) ++ c = a ++ (b ++ c))%string.
Proof. induction a as [|x a IH]; [reflexivity|]. cbn. now rewrite IH. Qed.

(** X20: the [__repr__] of an expression writes no parentheses: the two
    ways of grouping three operands under two operators are different
    trees that print alike. *)
Theorem repr_writes_no_parentheses (op1 op2 : Chain.operator) (a b c : expr) :
  expr__repr__ (Chain.node op1 a (Chain.node op2 b c))
  = expr__repr__ (Chain.node op2 (Chain.node op1 a b) c)
  /\ Chain.node op1 a (Chain.node op2 b c) <> Chain.node op2 (Chain.node op1 a b) c.
Proof.
  split.
  - destruct op1, op2; cbn [Chain.node expr__repr__];
      rewrite !string_append_assoc; reflexivity.
  - destruct op1, op2; cbn [Chain.node]; intros H; try discriminate;
      injection H as H1 H2.
    + now apply union_is_larger in H1.
    + now apply intersection_is_larger in H1.
Qed.

(** ** The settings of the command line *)


Lemma append_cancel (p a b : string) : (p ++ a = p ++ b)%string -> a = b.
Proof. induction p as [|c p IH]; cbn; [auto|]. intros H. injection H as H. auto. Qed.

Lemma append_length (a b : string) :
  String.length (a ++ b) = String.length a + String.length b.
Proof. induction a as [|c a IH]; cbn; [reflexivity|]. now rewrite IH. Qed.

Lemma append_longer (p : string) c s : (p ++ String c s)%string <> p.
Proof.
  intros H. apply (f_equal String.length) in H. rewrite append_length in H.
  cbn in H. lia.
Qed.

(** X21: the cache file depends on the vault and on nothing else: two
    arguments of [do_setvault] lead to the same [tmp_file_name] exactly
    when they set the same vault, the names that stand for no vault
    setting none. *)
Theorem vaults_have_cache_files_of_their_own (temp_file a b : string) :
  OnePasswordCLI.tmp_file_name temp_file (OnePasswordCLI.do_setvault a)
  = OnePasswordCLI.tmp_file_name temp_file (OnePasswordCLI.do_setvault b)
  <-> OnePasswordCLI.do_setvault a = OnePasswordCLI.do_setvault b.
Proof.
  split; [|intros H; now rewrite H].
  unfold OnePasswordCLI.do_setvault.
  destruct (existsb (String.eqb a) _) eqn:Ea; destruct (existsb (String.eqb b) _) eqn:Eb;
    cbn [OnePasswordCLI.tmp_file_name]; try reflexivity.
  - destruct b as [|c b]; [discriminate Eb|]. cbn [OnePasswordCLI.truthy].
    intros H. symmetry in H. now apply append_longer in H.
  - destruct a as [|c a]; [discriminate Ea|]. cbn [OnePasswordCLI.truthy].
    intros H. now apply append_longer in H.
  - destruct a as [|c a]; [discriminate Ea|]. destruct b as [|d b]; [discriminate Eb|].
    cbn [OnePasswordCLI.truthy]. intros H. apply append_cancel in H.
    apply (append_cancel "-") in H. now rewrite H.
Qed.

(** X22: the bytes [_get_encryption_key] hands to [base64.encodebytes]
    are [size] bytes whatever the length of the session: the bytes of
    the session as far as they go, then the byte [0xce]; two sessions of
    [size] bytes or more that start alike give the same key; and
    without a session the call raises [TypeError]. *)
Theorem key_material_has_the_requested_size (password : list Byte.byte) (size : nat) :
  List.length (OnePasswordCLI.padded password size) = size
  /\ (forall i, (i < size)%nat ->
        nth_error (OnePasswordCLI.padded password size) i
        = if (i <? List.length password)%nat then nth_error password i
          else Some Byte.xce)
  /\ (forall other,
        firstn size password = firstn size other ->
        (size <= List.length password)%nat -> (size <= List.length other)%nat ->
        OnePasswordCLI.padded password size = OnePasswordCLI.padded other size)
  /\ (forall encodebytes session,
        OnePasswordCLI._get_encryption_key encodebytes (Some session) size
        = Ok (encodebytes (OnePasswordCLI.padded (list_byte_of_string session) size))
        /\ OnePasswordCLI._get_encryption_key encodebytes None size = Raise TypeError).
Proof.
  unfold OnePasswordCLI.padded. repeat split.
  - rewrite length_app, length_firstn, repeat_length. lia.
  - intros i Hi. destruct (i <? List.length password)%nat eqn:E.
    + apply Nat.ltb_lt in E. rewrite nth_error_app1 by (rewrite length_firstn; lia).
      rewrite nth_error_firstn. now rewrite (proj2 (Nat.ltb_lt i size) Hi).
    + apply Nat.ltb_ge in E. rewrite nth_error_app2 by (rewrite length_firstn; lia).
      rewrite length_firstn. apply nth_error_repeat. lia.
  - intros other H L1 L2. rewrite H.
    replace (size - List.length password) with 0 by lia.
    replace (size - List.length other) with 0 by lia. reflexivity.
Qed.

(** ** The item the command line displays *)


Section ItemFacts.
Import Item.





Lemma from_overview_plain raw_item key item :
  match dict_get "overview" raw_item with
  | None | Some (VDict _) => True
  | _ => False
  end ->
  exists item', from_overview (VDict raw_item) key item = Done item'.
Proof.
  unfold from_overview, get, item_at, and_then.
  destruct (dict_get "overview" raw_item) as [[| | | | |o]|] eqn:E; try contradiction;
    intros _; cbn [contains].
  - destruct (existsb (String.eqb key) (map fst o)) eqn:K; [|now eexists].
    apply existsb_exists in K. destruct K as (k & Hin & Hk).
    apply String.eqb_eq in Hk. subst k.
    destruct (dict_get_key key o Hin) as (v & ->). now eexists.
  - now eexists.
Qed.

(** X24: a raw item with a uuid whose [details] are missing, or have no
    [fields], makes [_get_item] raise [TypeError]: [.get('fields')] is
    [None] there, and the comprehension iterates over it. *)
Theorem an_item_without_fields_cannot_be_shown (raw_item : record) :
  dict_get "uuid" raw_item <> None ->
  match dict_get "overview" raw_item with
  | None | Some (VDict _) => True
  | _ => False
  end ->
  match dict_get "details" raw_item with
  | None => True
  | Some (VDict details) => dict_get "fields" details = None
  | _ => False
  end ->
  _get_item (Some (VDict raw_item)) = Failed (Exn TypeError).
Proof.
  intros Hu Ho Hd. unfold _get_item.
  unfold item_at at 1. destruct (dict_get "uuid" raw_item) as [uuid|]; [|now elim Hu].
  cbn [and_then].
  destruct (from_overview_plain raw_item "title" [("uuid", uuid)] Ho) as (i1 & ->).
  cbn [and_then].
  destruct (from_overview_plain raw_item "url" i1 Ho) as (i2 & ->).
  cbn [and_then].
  unfold from_fields at 1, get at 1.
  destruct (dict_get "details" raw_item) as [[| | | | |details]|]; try contradiction.
  - cbn [and_then get]. now rewrite Hd.
  - reflexivity.
Qed.

Lemma an_item_without_fields_cannot_be_shown_witness :
  _get_item (Some (VDict [("uuid", VStr "a"); ("overview", VDict [("title", VStr "Note")])]))
  = Failed (Exn TypeError).
Proof.
  apply an_item_without_fields_cannot_be_shown; [discriminate | exact I | exact I].
Defined.


End ItemFacts.
